(** * evac-proto: the geo-scoring engine

    A shallow embedding of the scoring core of the repository:

    - [mcp-servers/safety/src/lib/poi-index.ts]: the catalog loader
      ([readGeoPoints], [dedupePois], [ensureLoaded]), the spatial query
      ([withDistances], [withinRadius], [nearbyPois]) and the scoring engine
      ([scorePoint]) served by the MCP server and the HTTP routes;
    - [src/lib/score.ts]: the earlier engine ([readPoints] and its cache,
      [nearest], [within], [avail], [scorePoint], [nearbyPois]) with the
      cap-based availability curve;
    - [mcp-servers/safety/scripts/mlit-parse-search.mjs] and
      [build-poi-layers.mjs]: the CSV file written by [toCSV] and read back
      by [parseCSV], and the classifier [classifyTags].

    Numbers.  A JavaScript number is modelled by [JS.num]: the three special
    values [NaN], [+Infinity], [-Infinity], and the finite values, which are
    taken as exact reals.  Rounding and the sign of zero are abstracted away
    (there is one zero, behaving as [+0]); the special values follow IEEE 754
    as ECMAScript prescribes, because the code tests for them
    ([Number.isFinite], [?? Infinity]) and produces them ([0 / 0]).  So does
    the overflow of a product: the code multiplies coordinates it has not
    checked ([d * Math.PI] in [toRad]), and a finite coordinate of magnitude
    [2^1023] gives an infinite angle and the distance [NaN].  Sums,
    differences and quotients are exact reals: those of this code that could
    leave the range of the doubles are the argument of a product that
    overflows all the same, or of a clamp that gives the same result. *)

From Stdlib Require Import Reals Lra Lia ZArith List String Ascii Bool.
From Stdlib Require Import Permutation Sorted.
Import ListNotations.

Set Implicit Arguments.

(* ================================================================== *)
(** * Part I.  Definitions                                             *)
(* ================================================================== *)

(** ** JavaScript numbers *)

Module JS.

Local Open Scope R_scope.

Inductive num : Type :=
| NaN
| PInf
| NInf
| Fin (x : R).

Definition Rleb (x y : R) : bool := if Rle_dec x y then true else false.
Definition Rltb (x y : R) : bool := if Rlt_dec x y then true else false.
Definition Reqb (x y : R) : bool := if Req_dec_T x y then true else false.

Inductive sign : Type := Neg | Zero | Pos.

Definition Rsign (x : R) : sign :=
  if Rltb x 0 then Neg else if Rltb 0 x then Pos else Zero.

Definition sign_of (a : num) : option sign :=
  match a with
  | NaN => None
  | PInf => Some Pos
  | NInf => Some Neg
  | Fin x => Some (Rsign x)
  end.

Definition sign_mul (s t : sign) : sign :=
  match s, t with
  | Zero, _ | _, Zero => Zero
  | Pos, Pos | Neg, Neg => Pos
  | Pos, Neg | Neg, Pos => Neg
  end.

Definition inf_of_sign (s : sign) : num :=
  match s with Pos => PInf | Neg => NInf | Zero => NaN end.

(** [Number.isFinite] on a value that is a number. *)
Definition isFinite (a : num) : bool :=
  match a with Fin _ => true | _ => false end.

Definition neg (a : num) : num :=
  match a with
  | NaN => NaN
  | PInf => NInf
  | NInf => PInf
  | Fin x => Fin (- x)
  end.

Definition add (a b : num) : num :=
  match a, b with
  | Fin x, Fin y => Fin (x + y)
  | NaN, _ | _, NaN => NaN
  | PInf, NInf | NInf, PInf => NaN
  | PInf, _ | _, PInf => PInf
  | NInf, _ | _, NInf => NInf
  end.

Definition sub (a b : num) : num := add a (neg b).

(** The overflow threshold of the doubles: an exact result of this magnitude
    or more rounds to an infinity. *)
Definition OVERFLOW : R := 2 ^ 1024 - 2 ^ 970.

(** The number that an operation with the exact result [x] returns. *)
Definition overflow (x : R) : num :=
  if Rleb OVERFLOW x then PInf
  else if Rleb x (- OVERFLOW) then NInf
  else Fin x.

Definition mul (a b : num) : num :=
  match a, b with
  | Fin x, Fin y => overflow (x * y)
  | _, _ =>
      match sign_of a, sign_of b with
      | Some s, Some t => inf_of_sign (sign_mul s t)
      | _, _ => NaN
      end
  end.

(** Division: [x / 0] is an infinity of the sign of [x], [0 / 0] and
    [Infinity / Infinity] are [NaN], a finite value over an infinity is 0. *)
Definition div (a b : num) : num :=
  match a, b with
  | NaN, _ | _, NaN => NaN
  | Fin x, Fin y => if Reqb y 0 then inf_of_sign (Rsign x) else Fin (x / y)
  | Fin _, _ => Fin 0
  | _, Fin y =>
      match sign_of a with
      | Some s => inf_of_sign (sign_mul s (if Rltb y 0 then Neg else Pos))
      | None => NaN
      end
  | _, _ => NaN
  end.

(** The relational operators [<=], [<], [>]: false as soon as an operand is
    [NaN]. *)
Definition le (a b : num) : bool :=
  match a, b with
  | NaN, _ | _, NaN => false
  | Fin x, Fin y => Rleb x y
  | NInf, _ => true
  | _, PInf => true
  | _, _ => false
  end.

Definition lt (a b : num) : bool :=
  match a, b with
  | NaN, _ | _, NaN => false
  | Fin x, Fin y => Rltb x y
  | NInf, NInf => false
  | PInf, PInf => false
  | NInf, _ => true
  | _, PInf => true
  | _, _ => false
  end.

Definition gt (a b : num) : bool := lt b a.

(** [Math.min], [Math.max]: [NaN] if either argument is. *)
Definition Math_min (a b : num) : num :=
  match a, b with
  | NaN, _ | _, NaN => NaN
  | _, _ => if le a b then a else b
  end.

Definition Math_max (a b : num) : num :=
  match a, b with
  | NaN, _ | _, NaN => NaN
  | _, _ => if le a b then b else a
  end.

Definition Math_PI : num := Fin PI.

Definition Math_sin (a : num) : num :=
  match a with Fin x => Fin (sin x) | _ => NaN end.

Definition Math_cos (a : num) : num :=
  match a with Fin x => Fin (cos x) | _ => NaN end.

Definition Math_sqrt (a : num) : num :=
  match a with
  | NaN | NInf => NaN
  | PInf => PInf
  | Fin x => if Rltb x 0 then NaN else Fin (sqrt x)
  end.

(** [Math.asin]: [NaN] outside [-1, 1]. *)
Definition Math_asin (a : num) : num :=
  match a with
  | Fin x => if Rleb (-1) x && Rleb x 1 then Fin (asin x) else NaN
  | _ => NaN
  end.

Definition is_integer (y : R) : bool := Reqb y (IZR (Zfloor y)).

Definition is_odd_integer (y : R) : bool :=
  is_integer y && Z.odd (Zfloor y).

(** [Math.pow] and the [**] operator (Number::exponentiate). *)
Definition Math_pow (b e : num) : num :=
  match e with
  | NaN => NaN
  | Fin y =>
      if Reqb y 0 then Fin 1 else
      match b with
      | NaN => NaN
      | PInf => if Rltb 0 y then PInf else Fin 0
      | NInf =>
          if Rltb 0 y then (if is_odd_integer y then NInf else PInf)
          else Fin 0
      | Fin x =>
          if Rltb 0 x then Fin (Rpower x y)
          else if Reqb x 0 then (if Rltb 0 y then Fin 0 else PInf)
          else if is_integer y then
            Fin ((if Z.odd (Zfloor y) then -1 else 1) * Rpower (- x) y)
          else NaN
      end
  | PInf =>
      match b with
      | NaN => NaN
      | PInf | NInf => PInf
      | Fin x =>
          if Rltb 1 (Rabs x) then PInf
          else if Reqb (Rabs x) 1 then NaN else Fin 0
      end
  | NInf =>
      match b with
      | NaN => NaN
      | PInf | NInf => Fin 0
      | Fin x =>
          if Rltb 1 (Rabs x) then Fin 0
          else if Reqb (Rabs x) 1 then NaN else PInf
      end
  end.

(** [Math.round]: the integer nearest to the argument, ties upwards. *)
Definition Math_round (a : num) : num :=
  match a with
  | Fin x => Fin (IZR (Zfloor (x + / 2)))
  | _ => a
  end.

(** [Number(x.toFixed(digits))]: the magnitude of [x] rounded to [digits]
    decimals, ties upwards, with the sign of [x]; from [10^21] on, and for
    the special values, the number prints and parses back as itself.  The
    value rounded here is the exact real, where the code rounds the double
    nearest to it: on a tie of the exact real the two can differ by one
    unit of the last decimal (the double of [0.3 * (1 / 16)] lies just
    below [0.01875] and prints as [0.0187]).  What is proved of a rounded
    value is its range, or its value on numbers that the doubles compute
    exactly. *)
Definition toFixed_magnitude (x : R) (digits : nat) : R :=
  IZR (Zfloor (x * 10 ^ digits + / 2)) / 10 ^ digits.

Definition toFixed_value (a : num) (digits : nat) : num :=
  match a with
  | Fin x =>
      if Rleb (10 ^ 21) (Rabs x) then a
      else if Rltb x 0 then Fin (- toFixed_magnitude (- x) digits)
      else Fin (toFixed_magnitude x digits)
  | _ => a
  end.

(** [ToIntegerOrInfinity] on a finite number, used by
    [Array.prototype.slice]: truncation towards zero. *)
Definition truncate (x : R) : Z :=
  if Rltb x 0 then (- Zfloor (- x))%Z else Zfloor x.

(** An array length as a number. *)
Definition of_nat (n : nat) : num := Fin (INR n).

End JS.

Declare Scope num_scope.
Delimit Scope num_scope with num.
Bind Scope num_scope with JS.num.
Infix "+" := JS.add : num_scope.
Infix "-" := JS.sub : num_scope.
Infix "*" := JS.mul : num_scope.
Infix "/" := JS.div : num_scope.
Infix "<=?" := JS.le : num_scope.
Infix "<?" := JS.lt : num_scope.
Infix ">?" := JS.gt (at level 70) : num_scope.
Infix "**" := JS.Math_pow (at level 30, right associativity) : num_scope.
Notation "# r" := (JS.Fin r%R) (at level 5, r at level 1, format "# r") : num_scope.

(** ** Completions: a call either returns normally or throws *)

Inductive Completion (A : Type) : Type :=
| Normal (value : A)
| Throw (error : string).

Arguments Normal {A} value.
Arguments Throw {A} error.

(** ** Strings *)

(** A string is kept as the sequence of its UTF-8 bytes, and is taken to be
    well-formed.  The functions below look for ASCII characters (the double
    quote, the comma, the line feed and the carriage return) and for whole
    characters given by their UTF-8 encoding (the white space that [trim]
    removes, the words of the classifier).  In well-formed UTF-8 the
    encoding of a character occurs only where the character does, so
    walking over the bytes cuts the text at the same places as walking over
    the UTF-16 code units of the source. *)

Module JSString.

Local Open Scope string_scope.
Local Open Scope list_scope.

Definition DQUOTE : ascii := "034"%char.
Definition COMMA : ascii := ","%char.
Definition LF : ascii := "010"%char.
Definition CR : ascii := "013"%char.

(** [s.includes(needle)] *)
Fixpoint includes (needle s : string) : bool :=
  match s with
  | EmptyString => String.prefix needle EmptyString
  | String _ s' => String.prefix needle s || includes needle s'
  end.

(** The one-character string. *)
Definition char (c : ascii) : string := String c EmptyString.

(** [parts.join(sep)] on strings. *)
Definition join (sep : string) (parts : list string) : string :=
  String.concat sep parts.

Definition bytes (l : list nat) : string :=
  fold_right (fun n s => String (ascii_of_nat n) s) EmptyString l.

Fixpoint strip_prefix (p s : string) : option string :=
  match p with
  | EmptyString => Some s
  | String a p' =>
      match s with
      | EmptyString => None
      | String b s' => if Ascii.eqb a b then strip_prefix p' s' else None
      end
  end.

(** [String.prototype.trim]: the white space and the line terminators of
    ECMAScript, in UTF-8. *)
Definition white_space : list string :=
  [bytes [9]; bytes [10]; bytes [11]; bytes [12]; bytes [13]; bytes [32];
   bytes [194; 160];                      (* U+00A0 *)
   bytes [225; 154; 128];                 (* U+1680 *)
   bytes [226; 128; 128]; bytes [226; 128; 129]; bytes [226; 128; 130];
   bytes [226; 128; 131]; bytes [226; 128; 132]; bytes [226; 128; 133];
   bytes [226; 128; 134]; bytes [226; 128; 135]; bytes [226; 128; 136];
   bytes [226; 128; 137]; bytes [226; 128; 138];   (* U+2000 to U+200A *)
   bytes [226; 128; 168]; bytes [226; 128; 169];   (* U+2028, U+2029 *)
   bytes [226; 128; 175];                 (* U+202F *)
   bytes [226; 129; 159];                 (* U+205F *)
   bytes [227; 128; 128];                 (* U+3000 *)
   bytes [239; 187; 191]].                (* U+FEFF *)

(** The rest of [s] after one of the [prefixes], if it starts with one. *)
Fixpoint strip_one (prefixes : list string) (s : string) : option string :=
  match prefixes with
  | [] => None
  | p :: rest =>
      match strip_prefix p s with
      | Some s' => Some s'
      | None => strip_one rest s
      end
  end.

(** At most [String.length s] characters can be stripped. *)
Fixpoint strip_all (fuel : nat) (prefixes : list string) (s : string) : string :=
  match fuel with
  | O => s
  | S fuel' =>
      match strip_one prefixes s with
      | Some s' => strip_all fuel' prefixes s'
      | None => s
      end
  end.

Fixpoint reverse (s : string) : string :=
  match s with
  | EmptyString => EmptyString
  | String c s' => reverse s' ++ String c EmptyString
  end.

Definition trimStart (s : string) : string :=
  strip_all (String.length s) white_space s.

(** The end is trimmed on the reversed bytes, against the reversed white
    space. *)
Definition trimEnd (s : string) : string :=
  reverse (strip_all (String.length s) (map reverse white_space) (reverse s)).

Definition trim (s : string) : string := trimEnd (trimStart s).

End JSString.

(** ** poi-index.ts *)

Module PoiIndex.

Import JS JSString.
Local Open Scope string_scope.
Local Open Scope num_scope.

(** *** Types *)

Record Poi : Type := {
  name : string;
  lon : num;
  lat : num;
  primary : option string;
  tags : option (list string)
}.

(** The literals ["shelter" | "school" | "health"]. *)
Inductive Kind : Type := KShelter | KSchool | KHealth.

(** [PoiNear = Poi & { distance_m; kind }]: the spread [...p] is kept as the
    field [poi]. *)
Record PoiNear : Type := {
  poi : Poi;
  distance_m : num;
  kind : Kind
}.

Record NearbyParams : Type := {
  np_lon : num;
  np_lat : num;
  np_radiusMeters : num;
  np_topN : num
}.

Record NearbyResult : Type := {
  shelters : list PoiNear;
  schools : list PoiNear;
  healths : list PoiNear;
  all : list PoiNear;
  nearby_params : NearbyParams
}.

Record ScoreParams : Type := {
  sp_lon : num;
  sp_lat : num;
  sp_radiusMeters : option num;
  sp_topN : option num;
  sp_includeDiagnostics : option bool
}.

Record Weights : Type := {
  w_shelter : num;
  w_school : num;
  w_health : num
}.

Record CategorySummary : Type := {
  count : nat;
  nearest : option PoiNear
}.

Record LayerDiagnostics : Type := {
  diag_features : nat;
  diag_samples : list Poi
}.

(** The [file] / [files] path strings of [Diagnostics] depend on the working
    directory of the process and are left out. *)
Record Diagnostics : Type := {
  diag_shelter : LayerDiagnostics;
  diag_school : LayerDiagnostics;
  diag_health : LayerDiagnostics
}.

Record ResultParams : Type := {
  rp_lon : num;
  rp_lat : num;
  rp_radiusMeters : num;
  rp_weights : Weights;
  rp_topN : num
}.

(** The [explain] text (number formatting) is left out. *)
Record ScoreResult : Type := {
  res_shelters : CategorySummary;
  res_schools : CategorySummary;
  res_healths : CategorySummary;
  score : num;
  res_params : ResultParams;
  _diagnostics : option Diagnostics
}.

(** *** Config *)

Definition WEIGHTS : Weights :=
  {| w_shelter := #0.6; w_school := #0.25; w_health := #0.15 |}.
Definition COUNT_SAT_K : num := #4.
Definition MIX_COUNTS : num := #0.8.
Definition MIX_PROX : num := #1 - MIX_COUNTS.

(** *** Geo helpers *)

Definition R_EARTH : num := #6371000.

Definition toRad (d : num) : num := (d * Math_PI) / #180.

Definition haversine_a (lon1 lat1 lon2 lat2 : num) : num :=
  let phi1 := toRad lat1 in
  let phi2 := toRad lat2 in
  let dphi := toRad (lat2 - lat1) in
  let dlambda := toRad (lon2 - lon1) in
  Math_sin (dphi / #2) ** #2
  + (Math_cos phi1 * Math_cos phi2) * (Math_sin (dlambda / #2) ** #2).

(** The last line of [haversineMeters], as a function of the term [a]. *)
Definition haversine_of_a (a : num) : num :=
  (#2 * R_EARTH) * Math_asin (Math_min #1 (Math_sqrt a)).

Definition haversineMeters (lon1 lat1 lon2 lat2 : num) : num :=
  haversine_of_a (haversine_a lon1 lat1 lon2 lat2).

Definition clamp01 (x : num) : num := Math_max #0 (Math_min #1 x).

(** *** Array helpers *)

(** [arr.slice(0, end)].  The end index goes through [ToIntegerOrInfinity]
    ([NaN] to 0, truncation towards zero); a negative end counts from the end
    of the array. *)
Definition slice0 (A : Type) (arr : list A) (end_ : num) : list A :=
  match end_ with
  | NaN => []
  | PInf => arr
  | NInf => []
  | Fin x =>
      let relativeEnd := truncate x in
      if (relativeEnd <? 0)%Z
      then firstn (Z.to_nat (Z.max (Z.of_nat (List.length arr) + relativeEnd) 0)) arr
      else firstn (Z.to_nat relativeEnd) arr
  end.

(** [arr.sort(cmp)].  ECMAScript requires a stable sort; [cmp a b > 0] puts
    [a] after [b], any other answer (also [NaN]) leaves the two in place.
    For a consistent comparator the stable result is unique, and the
    insertion sort below computes it.  Under an inconsistent comparator the
    order is implementation-defined.  The comparator of this file is
    inconsistent only on [NaN] distances: those of an origin that is not
    finite, when all the distances are [NaN] and [withinRadius] empties the
    list whatever its order, and those of a point or an origin so far out
    that a conversion to radians overflows.  What is proved of the order of
    a sorted list is therefore proved of lists without [NaN] distances;
    what does not depend on the order (the points kept, their number) is
    proved of all lists. *)
Fixpoint sort_insert (A : Type) (cmp : A -> A -> num) (a : A) (sorted : list A)
  : list A :=
  match sorted with
  | [] => [a]
  | b :: rest =>
      if cmp a b >? #0 then b :: sort_insert cmp a rest else a :: sorted
  end.

Definition sort (A : Type) (cmp : A -> A -> num) (arr : list A) : list A :=
  fold_right (sort_insert cmp) [] arr.

(** *** Raw GeoJSON, as [JSON.parse] returns it *)

(** A coordinate or property value; only numbers pass [Number.isFinite]. *)
Inductive jsval : Type :=
| VUndefined
| VNull
| VBool (b : bool)
| VNum (n : num)
| VStr (s : string).

(** [coordinates] is [None] when the member is missing or [null].  A member
    that is present is taken to be iterable, an array as GeoJSON has it (or
    a string, the array of its characters): on a number, a boolean or an
    object the destructuring [const [lon, lat] = g.coordinates ?? []] of
    both loaders throws a [TypeError], a path that this model leaves out. *)
Record Geometry : Type := {
  g_type : string;
  coordinates : option (list jsval)
}.

(** [p_name] is [(name).toString()] when [properties.name] is neither
    missing nor [null]. *)
Record Properties : Type := {
  p_name : option string;
  p_primary : option string;
  p_tags : option (list string)
}.

Record Feature : Type := {
  geometry : option Geometry;
  properties : option Properties
}.

(** The parsed document.  [features] is [None] when the member is missing,
    [null] or a string, or when the document is itself a number, a string,
    a boolean or an array: [raw?.features] is then no array for
    [readGeoPoints], and [fc.features ?? []] has no feature for the loop of
    [readPoints] in score.ts (a string is iterated character by character,
    and no character has a geometry). *)
Record FeatureCollection : Type := {
  features : option (list Feature)
}.

(** A file of the data directory: absent; not valid JSON ([JSON.parse]
    throws a [SyntaxError]); the document [null]; a document whose
    [features] member is a number, a boolean or an object, which is no array
    and cannot be iterated; or any other document.  The two loaders differ
    on the third and the fourth: [readGeoPoints] reads no feature, the
    [readPoints] of score.ts throws a [TypeError]. *)
Inductive DataFile : Type :=
| Missing
| Unparsable
| ParsedNull
| ParsedNotIterable
| Parsed (raw : FeatureCollection).

(** The four files named by [FILES]. *)
Record DataDir : Type := {
  FILES_shelter : DataFile;
  FILES_school : DataFile;
  FILES_health : DataFile;
  FILES_hospital : DataFile
}.

Definition Number_isFinite (v : jsval) : bool :=
  match v with VNum n => isFinite n | _ => false end.

(** [Number(v)] for a value that passed [Number.isFinite]. *)
Definition Number_of (v : jsval) : num :=
  match v with VNum n => n | _ => NaN end.

(** *** Lazy data loading & parsing *)

Record Layers : Type := {
  L_shelter : list Poi;
  L_school : list Poi;
  L_health : list Poi
}.

(** The key [`${p.name}|${p.lon}|${p.lat}`] of [dedupePois].  The printed
    numbers contain no ['|'] and printing is injective on numbers, so two key
    strings are equal exactly when the three components are: the key is kept
    as the triple. *)
Definition Key : Type := (string * num * num)%type.

Definition key_of (p : Poi) : Key := (name p, lon p, lat p).

Definition num_eq_dec (a b : num) : {a = b} + {a <> b}.
Proof.
  decide equality. apply Req_dec_T.
Defined.

Definition Key_eq_dec (j k : Key) : {j = k} + {j <> k}.
Proof.
  repeat decide equality; apply Req_dec_T.
Defined.

(** [seen.has(key)] *)
Definition has (seen : list Key) (key : Key) : bool :=
  if in_dec Key_eq_dec key seen then true else false.

Fixpoint dedupe_loop (pois : list Poi) (seen : list Key) (out : list Poi)
  : list Poi :=
  match pois with
  | [] => out
  | p :: rest =>
      let key := key_of p in
      if negb (has seen key)
      then dedupe_loop rest (key :: seen) (out ++ [p])
      else dedupe_loop rest seen out
  end.

Definition dedupePois (pois : list Poi) : list Poi := dedupe_loop pois [] [].

(** One turn of the loop of [readGeoPoints]: [None] is [continue]. *)
Definition readFeature (f : Feature) : option Poi :=
  match geometry f with
  | None => None
  | Some g =>
      if negb (String.eqb (g_type g) "Point") then None else
      let coords := match coordinates g with Some c => c | None => [] end in
      let lon := nth 0 coords VUndefined in
      let lat := nth 1 coords VUndefined in
      if negb (Number_isFinite lon) || negb (Number_isFinite lat) then None else
      let props := properties f in
      let name :=
        trim (match props with
              | Some p => match p_name p with Some s => s | None => EmptyString end
              | None => EmptyString
              end) in
      if String.eqb name EmptyString then None else
      Some {| name := name;
              lon := Number_of lon;
              lat := Number_of lat;
              primary := match props with Some p => p_primary p | None => None end;
              tags := match props with Some p => p_tags p | None => None end |}
  end.

Fixpoint readFeatures (feats : list Feature) : list Poi :=
  match feats with
  | [] => []
  | f :: rest =>
      match readFeature f with
      | Some p => p :: readFeatures rest
      | None => readFeatures rest
      end
  end.

Definition readGeoPoints (file : DataFile) : Completion (list Poi) :=
  match file with
  | Missing => Normal []
  | Unparsable => Throw "SyntaxError"
  | ParsedNull | ParsedNotIterable => Normal (dedupePois (readFeatures []))
  | Parsed raw =>
      let feats := match features raw with Some fs => fs | None => [] end in
      Normal (dedupePois (readFeatures feats))
  end.

(** The module variable [LAYERS] is threaded as state; a call returns a
    completion together with the new value of [LAYERS]. *)
Definition M (A : Type) : Type :=
  option Layers -> Completion (A * option Layers).

Definition ret (A : Type) (a : A) : M A :=
  fun LAYERS => Normal (a, LAYERS).

Definition bind (A B : Type) (m : M A) (f : A -> M B) : M B :=
  fun LAYERS =>
    match m LAYERS with
    | Normal (a, LAYERS') => f a LAYERS'
    | Throw e => Throw e
    end.

Definition lift (A : Type) (c : Completion A) : M A :=
  fun LAYERS =>
    match c with
    | Normal a => Normal (a, LAYERS)
    | Throw e => Throw e
    end.

Definition get_LAYERS : M (option Layers) :=
  fun LAYERS => Normal (LAYERS, LAYERS).

Definition set_LAYERS (L : Layers) : M unit :=
  fun _ => Normal (tt, Some L).

Notation "x <- m ;; k" := (bind m (fun x => k))
  (at level 61, m at next level, right associativity).
Notation "m ;;; k" := (bind m (fun _ => k))
  (at level 61, right associativity).

Section Process.

(** The content of the data directory, fixed for the life of the process. *)
Variable DATA : DataDir.

Definition ensureLoaded : M Layers :=
  cached <- get_LAYERS ;;
  match cached with
  | Some L => ret L
  | None =>
      shelter <- lift (readGeoPoints (FILES_shelter DATA)) ;;
      school <- lift (readGeoPoints (FILES_school DATA)) ;;
      healthA <- lift (readGeoPoints (FILES_health DATA)) ;;
      healthB <- lift (readGeoPoints (FILES_hospital DATA)) ;;
      let health := dedupePois (healthA ++ healthB) in
      let L := {| L_shelter := shelter; L_school := school; L_health := health |} in
      set_LAYERS L ;;; ret L
  end.

(** *** Core queries *)

Definition withDistances (kind : Kind) (arr : list Poi) (lon lat : num)
  : list PoiNear :=
  map (fun p => {| poi := p;
                   distance_m := haversineMeters lon lat p.(PoiIndex.lon) p.(PoiIndex.lat);
                   kind := kind |}) arr.

Definition withinRadius (sortedByDistance : list PoiNear) (radiusMeters : num)
  : list PoiNear :=
  filter (fun p => distance_m p <=? radiusMeters) sortedByDistance.

(** The comparator [(a, b) => a.distance_m - b.distance_m]. *)
Definition byDistance (a b : PoiNear) : num := distance_m a - distance_m b.

(** The body of [nearbyPois] after [const L = ensureLoaded()]. *)
Definition nearbyPois_of (L : Layers) (lon lat radiusMeters topN : num)
  : NearbyResult :=
  let s := sort byDistance (withDistances KShelter (L_shelter L) lon lat) in
  let c := sort byDistance (withDistances KSchool (L_school L) lon lat) in
  let h := sort byDistance (withDistances KHealth (L_health L) lon lat) in
  let shelters := slice0 (withinRadius s radiusMeters) topN in
  let schools := slice0 (withinRadius c radiusMeters) topN in
  let healths := slice0 (withinRadius h radiusMeters) topN in
  let all := sort byDistance (shelters ++ schools ++ healths) in
  {| shelters := shelters; schools := schools; healths := healths; all := all;
     nearby_params := {| np_lon := lon; np_lat := lat;
                         np_radiusMeters := radiusMeters; np_topN := topN |} |}.

(** Public: list nearby POIs by category.  The defaults of [radiusMeters]
    and [topN] are 1500 and 25. *)
Definition nearbyPois (lon lat : num) (radiusMeters topN : option num)
  : M NearbyResult :=
  let radiusMeters := match radiusMeters with Some r => r | None => #1500 end in
  let topN := match topN with Some n => n | None => #25 end in
  L <- ensureLoaded ;;
  ret (nearbyPois_of L lon lat radiusMeters topN).

(** *** Scoring *)

Definition summary (near : list PoiNear) : CategorySummary :=
  {| count := List.length near; nearest := hd_error near |}.

(** [nearest?.distance_m ?? Infinity] *)
Definition nearest_distance (c : CategorySummary) : num :=
  match nearest c with Some p => distance_m p | None => PInf end.

(** [countNorm = n / (n + K)] *)
Definition countNorm (n : nat) : num := of_nat n / (of_nat n + COUNT_SAT_K).

(** The closure [prox] of [scorePoint]; it captures [radiusMeters]. *)
Definition prox (radiusMeters : num) (d : num) : num :=
  if negb (isFinite d) then #0 else
  let raw := clamp01 (#1 - d / radiusMeters) in
  Math_pow raw #1.3.

(** [weight * (MIX_COUNTS * countNorm + MIX_PROX * prox(nearest))], the
    expression of [sScore], [cScore] and [hScore]. *)
Definition categoryScore (weight : num) (radiusMeters : num)
  (n : nat) (nearestDistance : num) : num :=
  weight * (MIX_COUNTS * countNorm n + MIX_PROX * prox radiusMeters nearestDistance).

(** The sum handed to the final [clamp01]. *)
Definition rawScore (radiusMeters : num) (s c h : CategorySummary) : num :=
  let sScore := categoryScore (w_shelter WEIGHTS) radiusMeters (count s) (nearest_distance s) in
  let cScore := categoryScore (w_school WEIGHTS) radiusMeters (count c) (nearest_distance c) in
  let hScore := categoryScore (w_health WEIGHTS) radiusMeters (count h) (nearest_distance h) in
  sScore + cScore + hScore.

(** [scorePoint] from [const cat = ...] to [const result = ...]. *)
Definition scorePoint_result (nearby : NearbyResult)
  (lon lat radiusMeters topN : num) : ScoreResult :=
  let cat_shelters := summary (shelters nearby) in
  let cat_schools := summary (schools nearby) in
  let cat_healths := summary (healths nearby) in
  let score := clamp01 (rawScore radiusMeters cat_shelters cat_schools cat_healths) in
  {| res_shelters := cat_shelters;
     res_schools := cat_schools;
     res_healths := cat_healths;
     score := score;
     res_params := {| rp_lon := lon; rp_lat := lat; rp_radiusMeters := radiusMeters;
                      rp_weights := WEIGHTS; rp_topN := topN |};
     _diagnostics := None |}.

Definition diagnostics_of (L : Layers) : Diagnostics :=
  {| diag_shelter := {| diag_features := List.length (L_shelter L);
                        diag_samples := firstn 3 (L_shelter L) |};
     diag_school := {| diag_features := List.length (L_school L);
                       diag_samples := firstn 3 (L_school L) |};
     diag_health := {| diag_features := List.length (L_health L);
                       diag_samples := firstn 3 (L_health L) |} |}.

Definition with_diagnostics (result : ScoreResult) (d : Diagnostics) : ScoreResult :=
  {| res_shelters := res_shelters result;
     res_schools := res_schools result;
     res_healths := res_healths result;
     score := score result;
     res_params := res_params result;
     _diagnostics := Some d |}.

(** Public: score a point (strict). *)
Definition scorePoint (params : ScoreParams) : M ScoreResult :=
  let lon := sp_lon params in
  let lat := sp_lat params in
  let radiusMeters := match sp_radiusMeters params with Some r => r | None => #1500 end in
  let topN := match sp_topN params with Some n => n | None => #25 end in
  nearby <- nearbyPois lon lat (Some radiusMeters) (Some topN) ;;
  let result := scorePoint_result nearby lon lat radiusMeters topN in
  match sp_includeDiagnostics params with
  | Some true =>
      L <- ensureLoaded ;;
      ret (with_diagnostics result (diagnostics_of L))
  | _ => ret result
  end.

Definition layerCounts : M (nat * nat * nat) :=
  L <- ensureLoaded ;;
  ret (List.length (L_shelter L), List.length (L_school L), List.length (L_health L)).

(** *** The HTTP routes of server.ts *)

Inductive Response (A : Type) : Type :=
| Json (body : A)
| Status (code : nat) (error : string).

(** [GET /score]: [lon], [lat] are [Number(req.query.lon)],
    [Number(req.query.lat)]; [radius] is [Number(req.query.radius ?? 1500)]. *)
Definition score_route (lon lat radius : num) (LAYERS : option Layers)
  : Response ScoreResult * option Layers :=
  if negb (isFinite lon) || negb (isFinite lat)
  then (Status _ 400 "lon and lat are required numbers", LAYERS)
  else
    match scorePoint {| sp_lon := lon; sp_lat := lat;
                        sp_radiusMeters := Some (if isFinite radius then radius else #1500);
                        sp_topN := None; sp_includeDiagnostics := None |} LAYERS with
    | Normal (result, LAYERS') => (Json result, LAYERS')
    | Throw e => (Status _ 500 e, LAYERS)
    end.

(** [GET /nearby] *)
Definition nearby_route (lon lat radius : num) (LAYERS : option Layers)
  : Response NearbyResult * option Layers :=
  if negb (isFinite lon) || negb (isFinite lat)
  then (Status _ 400 "lon and lat are required numbers", LAYERS)
  else
    match nearbyPois lon lat (Some (if isFinite radius then radius else #1500)) None
            LAYERS with
    | Normal (result, LAYERS') => (Json result, LAYERS')
    | Throw e => (Status _ 500 e, LAYERS)
    end.

End Process.

End PoiIndex.

(** ** score.ts: the earlier engine *)

Module ScoreTs.

Import JS.
Local Open Scope string_scope.
Local Open Scope num_scope.

Record POI : Type := {
  name : string;
  lon : num;
  lat : num;
  primary : option string;
  tags : option (list string)
}.

Record Nearest : Type := {
  poi : POI;
  distance_m : num
}.

Record PerLayer (A : Type) : Type := {
  shelters : A;
  schools : A;
  healths : A
}.

Record NearestRef : Type := {
  ref_name : string;
  ref_lon : num;
  ref_lat : num
}.

Record LayerResult : Type := {
  count : nat;
  nearest_m : option num;
  nearest_ref : option NearestRef
}.

Record Params : Type := {
  p_lon : num;
  p_lat : num;
  p_radiusMeters : num
}.

(** The [explanation] text is left out. *)
Record ScoreResult : Type := {
  params : Params;
  weights : PerLayer num;
  softCaps : PerLayer num;
  layers : PerLayer LayerResult;
  score : num
}.

Definition R : num := #6371000.

Definition haversineMeters (lon1 lat1 lon2 lat2 : num) : num :=
  let toRad := fun d : num => (d * Math_PI) / #180 in
  let dLat := toRad (lat2 - lat1) in
  let dLon := toRad (lon2 - lon1) in
  let a := Math_sin (dLat / #2) ** #2
           + (Math_cos (toRad lat1) * Math_cos (toRad lat2))
             * (Math_sin (dLon / #2) ** #2) in
  (#2 * R) * Math_asin (Math_sqrt a).

(** The loop of [nearest]: the running pair [(best, bestD)]. *)
Definition nearest_step (lon lat : num) (acc : POI * num) (p : POI) : POI * num :=
  let d := haversineMeters lon lat p.(ScoreTs.lon) p.(ScoreTs.lat) in
  if d <? snd acc then (p, d) else acc.

Definition nearest (points : list POI) (lon lat : num) : option Nearest :=
  match points with
  | [] => None
  | p0 :: rest =>
      let start := (p0, haversineMeters lon lat p0.(ScoreTs.lon) p0.(ScoreTs.lat)) in
      let (best, bestD) := fold_left (nearest_step lon lat) rest start in
      Some {| poi := best; distance_m := Math_round bestD |}
  end.

Definition within (points : list POI) (lon lat radius : num) : list POI :=
  filter (fun p => haversineMeters lon lat p.(ScoreTs.lon) p.(ScoreTs.lat) <=? radius)
         points.

(** The closure [avail] of [scorePoint]. *)
Definition avail (count : nat) (nearest_m : option num) (softCap : num) : num :=
  if of_nat count >? #0 then Math_min #1 (of_nat count / softCap)
  else match nearest_m with
       | None => #0
       | Some m => #1 / (#1 + m / #2000)
       end.

Definition w : PerLayer num :=
  {| shelters := #0.5; schools := #0.3; healths := #0.2 |}.

(** Counts that saturate each signal. *)
Definition cap : PerLayer num :=
  {| shelters := #1; schools := #3; healths := #2 |}.

Definition layerResult (near : list POI) (n : option Nearest) : LayerResult :=
  {| count := List.length near;
     nearest_m := option_map distance_m n;
     nearest_ref :=
       option_map (fun n => {| ref_name := name (poi n);
                               ref_lon := ScoreTs.lon (poi n);
                               ref_lat := ScoreTs.lat (poi n) |}) n |}.

Section Layers.

(** What [readPoints] returns for the three layers. *)
Variables shelter_points school_points health_points : list POI.

Definition scorePoint (lon lat : num) (radiusMeters : option num) : ScoreResult :=
  let radiusMeters := match radiusMeters with Some r => r | None => #1500 end in
  let nearShelters := within shelter_points lon lat radiusMeters in
  let nearSchools := within school_points lon lat radiusMeters in
  let nearHealths := within health_points lon lat radiusMeters in
  let ns := nearest shelter_points lon lat in
  let nc := nearest school_points lon lat in
  let nh := nearest health_points lon lat in
  let aShelter := avail (List.length nearShelters) (option_map distance_m ns) (shelters cap) in
  let aSchool := avail (List.length nearSchools) (option_map distance_m nc) (schools cap) in
  let aHealth := avail (List.length nearHealths) (option_map distance_m nh) (healths cap) in
  let score :=
    toFixed_value (shelters w * aShelter + schools w * aSchool + healths w * aHealth) 4 in
  {| params := {| p_lon := lon; p_lat := lat; p_radiusMeters := radiusMeters |};
     weights := w;
     softCaps := cap;
     layers := {| shelters := layerResult nearShelters ns;
                  schools := layerResult nearSchools nc;
                  healths := layerResult nearHealths nh |};
     score := score |}.

End Layers.

End ScoreTs.

(** ** Vocabulary of the specification *)

Module Spec.

Import JS PoiIndex.
Local Open Scope R_scope.

(** The real function computed by [Math.pow(raw, 1.3)] on the unit
    interval. *)
Definition pow13 (x : R) : R := if Req_dec_T x 0 then 0 else Rpower x 1.3.

(** The real functions computed by [toRad], by the term [a] and by
    [haversineMeters] on finite arguments. *)
Definition toRadR (d : R) : R := d * PI / 180.

Definition hav_a (lon1 lat1 lon2 lat2 : R) : R :=
  sin (toRadR (lat2 - lat1) / 2) * sin (toRadR (lat2 - lat1) / 2)
  + cos (toRadR lat1) * cos (toRadR lat2)
    * (sin (toRadR (lon2 - lon1) / 2) * sin (toRadR (lon2 - lon1) / 2)).

Definition great_circle (lon1 lat1 lon2 lat2 : R) : R :=
  2 * 6371000 * asin (Rmin 1 (sqrt (hav_a lon1 lat1 lon2 lat2))).

(** [toRad d] is finite: the product [d * Math.PI] does not overflow. *)
Definition converts (d : R) : Prop := - OVERFLOW < d * PI < OVERFLOW.

(** No conversion to radians overflows in the distance from
    [(lon1, lat1)] to [(lon2, lat2)]. *)
Definition no_overflow (lon1 lat1 lon2 lat2 : R) : Prop :=
  converts lat1 /\ converts lat2
  /\ converts (lat2 - lat1) /\ converts (lon2 - lon1).

(** A coordinate of ordinary magnitude, as every valid longitude and
    latitude is: between two such points no conversion overflows. *)
Definition ordinary (x : R) : Prop := Rabs x <= 10 ^ 300.

(** A value of the unit interval. *)
Definition unit_interval (a : num) : Prop :=
  exists x : R, a = Fin x /\ 0 <= x <= 1.

(** A distance as [scorePoint] sees it: finite and non-negative, or
    [Infinity] when there is no point. *)
Definition is_distance (d : num) : Prop :=
  d = PInf \/ exists x : R, d = Fin x /\ 0 <= x.

(** [dedupePois], as a function of the keys already seen. *)
Fixpoint dedupe_from (seen : list Key) (pois : list Poi) : list Poi :=
  match pois with
  | [] => []
  | p :: rest =>
      if has seen (key_of p) then dedupe_from seen rest
      else p :: dedupe_from (key_of p :: seen) rest
  end.

(** The point has the (name, longitude, latitude) triple [k]. *)
Definition has_key (k : Key) (p : Poi) : bool :=
  if Key_eq_dec (key_of p) k then true else false.

Definition finite_poi (p : Poi) : Prop :=
  isFinite (lon p) = true /\ isFinite (lat p) = true.

(** Longitude in [-180, 180] and latitude in [-90, 90]. *)
Definition in_range (p : Poi) : Prop :=
  exists x y : R,
    lon p = Fin x /\ lat p = Fin y /\ -180 <= x <= 180 /\ -90 <= y <= 90.

Definition all_pois (L : Layers) : list Poi :=
  L_shelter L ++ L_school L ++ L_health L.

(** [L] is the catalog that the data directory loads to, and the module
    variable [LAYERS] is still empty or already holds it. *)
Definition loaded (DATA : DataDir) (LAYERS : option Layers) (L : Layers) : Prop :=
  ensureLoaded DATA None = Normal (L, Some L)
  /\ (LAYERS = None \/ LAYERS = Some L).

(** The effective radius and list cap of a call of [scorePoint]. *)
Definition radius_of (params : ScoreParams) : num :=
  match sp_radiusMeters params with Some r => r | None => Fin 1500 end.

Definition topN_of (params : ScoreParams) : num :=
  match sp_topN params with Some n => n | None => Fin 25 end.

(** The catalog layer and the result entry of a category. *)
Definition layer (k : Kind) (L : Layers) : list Poi :=
  match k with
  | KShelter => L_shelter L
  | KSchool => L_school L
  | KHealth => L_health L
  end.

Definition category (k : Kind) (res : ScoreResult) : CategorySummary :=
  match k with
  | KShelter => res_shelters res
  | KSchool => res_schools res
  | KHealth => res_healths res
  end.

Definition nearby_list (k : Kind) (res : NearbyResult) : list PoiNear :=
  match k with
  | KShelter => shelters res
  | KSchool => schools res
  | KHealth => healths res
  end.

(** The distance from the origin to a point of the catalog. *)
Definition distance_to (lon lat : num) (p : Poi) : num :=
  haversineMeters lon lat p.(PoiIndex.lon) p.(PoiIndex.lat).

(** The distance from the origin to the point is a number: the origin
    and the point are finite and no conversion to radians overflows. *)
Definition measured (lon lat : num) (p : Poi) : Prop :=
  distance_to lon lat p <> NaN.

(** The points of a layer within the radius: the true in-radius set. *)
Definition inRadius (arr : list Poi) (lon lat radiusMeters : num) : list Poi :=
  filter (fun p => le (distance_to lon lat p) radiusMeters) arr.




(** Ascending by distance. *)
Definition dist_le (a b : PoiNear) : Prop :=
  le (distance_m a) (distance_m b) = true.

Definition finite_distance (p : PoiNear) : Prop :=
  exists d : R, distance_m p = Fin d /\ 0 <= d.

(** One category of [nearbyPois]: sort, keep the radius, cut at [topN]. *)
Definition category_list (kind : Kind) (arr : list Poi)
  (lon lat radiusMeters topN : num) : list PoiNear :=
  slice0 (withinRadius (sort byDistance (withDistances kind arr lon lat)) radiusMeters)
         topN.

(** A query that the specification wants rejected and that the engine
    answers with empty categories: an origin that is not finite, or a
    negative radius. *)
Definition degenerate_query (lon lat radiusMeters : num) : Prop :=
  isFinite lon && isFinite lat = false
  \/ exists r : R, radiusMeters = Fin r /\ r < 0.

(** The [i]-th coordinate of a feature, [undefined] when there is none. *)
Definition coordinate (i : nat) (f : Feature) : jsval :=
  match geometry f with
  | Some g => nth i (match coordinates g with Some c => c | None => [] end) VUndefined
  | None => VUndefined
  end.

End Spec.

(** ** Sample data *)

Module Sample.

Import JS JSString PoiIndex.
Local Open Scope string_scope.
Local Open Scope R_scope.

(** A GeoJSON point feature with a name. *)
Definition feature_at (name : string) (lon lat : num) : Feature :=
  {| geometry := Some {| g_type := "Point";
                         coordinates := Some [VNum lon; VNum lat] |};
     properties := Some {| p_name := Some name; p_primary := None;
                           p_tags := None |} |}.

Definition poi_at (name : string) (lon lat : num) : Poi :=
  {| name := name; lon := lon; lat := lat; primary := None; tags := None |}.

(** A data directory with only [shelters.geojson]. *)
Definition only_shelters (feats : list Feature) : DataDir :=
  {| FILES_shelter := Parsed {| features := Some feats |};
     FILES_school := Missing;
     FILES_health := Missing;
     FILES_hospital := Missing |}.

Definition shelters_catalog (pois : list Poi) : Layers :=
  {| L_shelter := pois; L_school := []; L_health := [] |}.

(** A data directory with [shelters.geojson] and [schools.geojson]. *)
Definition shelters_and_schools (shelters schools : list Feature) : DataDir :=
  {| FILES_shelter := Parsed {| features := Some shelters |};
     FILES_school := Parsed {| features := Some schools |};
     FILES_health := Missing;
     FILES_hospital := Missing |}.

Definition two_layer_catalog (shelters schools : list Poi) : Layers :=
  {| L_shelter := shelters; L_school := schools; L_health := [] |}.

(** Three shelters due north of the origin (0, 0), in the order of the
    file: about 445 m, 2224 m and 111 m away. *)
Definition three_features : list Feature :=
  [feature_at "Far" (Fin 0) (Fin 0.004);
   feature_at "Out" (Fin 0) (Fin 0.02);
   feature_at "Near" (Fin 0) (Fin 0.001)].

Definition three_points : list Poi :=
  [poi_at "Far" (Fin 0) (Fin 0.004);
   poi_at "Out" (Fin 0) (Fin 0.02);
   poi_at "Near" (Fin 0) (Fin 0.001)].

(** Three shelters, the last two of them at one place about 111 m north of
    the origin. *)
Definition tie_features : list Feature :=
  [feature_at "Far" (Fin 0) (Fin 0.004);
   feature_at "First" (Fin 0) (Fin 0.001);
   feature_at "Second" (Fin 0) (Fin 0.001)].

Definition tie_points : list Poi :=
  [poi_at "Far" (Fin 0) (Fin 0.004);
   poi_at "First" (Fin 0) (Fin 0.001);
   poi_at "Second" (Fin 0) (Fin 0.001)].

(** Two schools due north of the origin, about 222 m and 334 m away. *)
Definition two_school_features : list Feature :=
  [feature_at "Upper" (Fin 0) (Fin 0.003);
   feature_at "Lower" (Fin 0) (Fin 0.002)].

Definition two_schools : list Poi :=
  [poi_at "Upper" (Fin 0) (Fin 0.003);
   poi_at "Lower" (Fin 0) (Fin 0.002)].

(** The distance from the origin (0, 0) to the point [y] degrees due
    north of it, and that point as [withDistances] lists it. *)
Definition north (y : R) : R := 6371000 * Spec.toRadR y.

Definition near_at (kind : Kind) (name : string) (y : R) : PoiNear :=
  {| poi := poi_at name (Fin 0) (Fin y); distance_m := Fin (north y);
     kind := kind |}.

(** A data directory without any of the four files, and its catalog. *)
Definition no_data : DataDir :=
  {| FILES_shelter := Missing; FILES_school := Missing;
     FILES_health := Missing; FILES_hospital := Missing |}.

Definition empty_catalog : Layers := shelters_catalog [].

(** A data directory whose [shelters.geojson] is not valid JSON. *)
Definition broken_data : DataDir :=
  {| FILES_shelter := Unparsable; FILES_school := Missing;
     FILES_health := Missing; FILES_hospital := Missing |}.

(** A query with the default radius and list cap. *)
Definition query (lon lat : num) (radiusMeters : option num) : ScoreParams :=
  {| sp_lon := lon; sp_lat := lat; sp_radiusMeters := radiusMeters;
     sp_topN := None; sp_includeDiagnostics := None |}.

(** The name [Town Hall] between an ideographic space (U+3000) and a
    no-break space (U+00A0), and a name made of an ideographic space only. *)
Definition padded_name : string :=
  (bytes [227; 128; 128]%nat ++ "Town Hall" ++ bytes [194; 160]%nat)%string.

Definition blank_name : string := bytes [227; 128; 128]%nat.



(** A query with its own radius and list cap. *)
Definition capped_query (lon lat radiusMeters topN : num) : ScoreParams :=
  {| sp_lon := lon; sp_lat := lat; sp_radiusMeters := Some radiusMeters;
     sp_topN := Some topN; sp_includeDiagnostics := None |}.

End Sample.

(** ** Further vocabulary *)

Module SpecMore.

Import JS JSString PoiIndex Spec.
Local Open Scope R_scope.

(** The point lies at the distance [d] from the origin. *)
Definition at_distance (lon lat d : num) (p : Poi) : bool :=
  if num_eq_dec (distance_to lon lat p) d then true else false.

Definition near_at_distance (d : num) (q : PoiNear) : bool :=
  if num_eq_dec (distance_m q) d then true else false.

(** No point of [pois] has the key of [p]. *)
Definition key_is_new (pois : list Poi) (p : Poi) : bool :=
  negb (existsb (has_key (key_of p)) pois).

(** The name of a feature before [trim]: the text of
    [f?.properties?.name], the empty text when there is none. *)
Definition feature_name (f : Feature) : string :=
  match properties f with
  | Some p => match p_name p with Some s => s | None => EmptyString end
  | None => EmptyString
  end.

(** The string starts, or ends, with a white-space character. *)
Definition starts_with_space (s : string) : bool :=
  match strip_one white_space s with Some _ => true | None => false end.

Definition ends_with_space (s : string) : bool :=
  match strip_one (map reverse white_space) (reverse s) with
  | Some _ => true
  | None => false
  end.

(** A string made of white space only. *)
Inductive blank : string -> Prop :=
| blank_empty : blank EmptyString
| blank_space (w s : string) :
    In w white_space -> blank s -> blank (w ++ s)%string.

(** A data directory as the layer builder writes it: [hospitals.geojson] is
    a copy of [health.geojson]. *)
Definition alias_data (feats : list Feature) : DataDir :=
  {| FILES_shelter := Missing; FILES_school := Missing;
     FILES_health := Parsed {| features := Some feats |};
     FILES_hospital := Parsed {| features := Some feats |} |}.

End SpecMore.

(** ** Vocabulary for score.ts *)

Module ScoreTsSpec.

Import JS.
Local Open Scope R_scope.

Definition finite_POI (p : ScoreTs.POI) : Prop :=
  isFinite (ScoreTs.lon p) = true /\ isFinite (ScoreTs.lat p) = true.

(** The distance from the origin to a point, as [nearest] and [within]
    compute it. *)
Definition distance_to (lon lat : num) (p : ScoreTs.POI) : num :=
  ScoreTs.haversineMeters lon lat (ScoreTs.lon p) (ScoreTs.lat p).

Definition at_distance (lon lat d : num) (p : ScoreTs.POI) : bool :=
  if PoiIndex.num_eq_dec (distance_to lon lat p) d then true else false.

(** The distance from the origin to the point is a number. *)
Definition measured (lon lat : num) (p : ScoreTs.POI) : Prop :=
  distance_to lon lat p <> NaN.

(** A point of a layer with no [primary] and no [tags]. *)
Definition point (name : string) (lon lat : R) : ScoreTs.POI :=
  {| ScoreTs.name := name; ScoreTs.lon := Fin lon; ScoreTs.lat := Fin lat;
     ScoreTs.primary := None; ScoreTs.tags := None |}.

(** Layers of points due north of the origin (0, 0): about 445 m, 111 m and
    111 m away; about 445 m, 2224 m and 111 m away, as the sample features
    are; and a layer that starts with a point so far out that its distance
    is [NaN]. *)
Definition tie_layer : list ScoreTs.POI :=
  [point "Far" 0 0.004; point "First" 0 0.001; point "Second" 0 0.001].

Definition three_layer : list ScoreTs.POI :=
  [point "Far" 0 0.004; point "Out" 0 0.02; point "Near" 0 0.001].

Definition far_out_layer : list ScoreTs.POI :=
  [point "Beyond" 0 (2 ^ 1023); point "Near" 0 0.001].

End ScoreTsSpec.


(** ** score.ts: the loader, the cache and the queries over them *)

Module ScoreTsProcess.

Import JS PoiIndex.
Local Open Scope string_scope.
Local Open Scope list_scope.
Local Open Scope num_scope.

Inductive LayerName : Type := shelter | school | health.

(** [FILES]: the three files of the data directory that score.ts reads
    (the same paths as in poi-index.ts; hospitals.geojson is not read). *)
Definition FILES (DATA : DataDir) (layer : LayerName) : DataFile :=
  match layer with
  | shelter => FILES_shelter DATA
  | school => FILES_school DATA
  | health => FILES_health DATA
  end.

(** The module variable [cache], a partial record over the layer names. *)
Record Cache : Type := {
  c_shelter : option (list ScoreTs.POI);
  c_school : option (list ScoreTs.POI);
  c_health : option (list ScoreTs.POI)
}.

Definition cache_init : Cache :=
  {| c_shelter := None; c_school := None; c_health := None |}.

Definition cache_get (cache : Cache) (layer : LayerName)
  : option (list ScoreTs.POI) :=
  match layer with
  | shelter => c_shelter cache
  | school => c_school cache
  | health => c_health cache
  end.

Definition cache_set (cache : Cache) (layer : LayerName) (pts : list ScoreTs.POI)
  : Cache :=
  match layer with
  | shelter => {| c_shelter := Some pts; c_school := c_school cache;
                  c_health := c_health cache |}
  | school => {| c_shelter := c_shelter cache; c_school := Some pts;
                 c_health := c_health cache |}
  | health => {| c_shelter := c_shelter cache; c_school := c_school cache;
                 c_health := Some pts |}
  end.

(** One turn of the loop of [readPoints]: [None] is [continue]. *)
Definition readPoint (f : Feature) : option ScoreTs.POI :=
  match geometry f with
  | None => None
  | Some g =>
      if negb (String.eqb (g_type g) "Point") then None else
      let coords := match coordinates g with Some c => c | None => [] end in
      let lon := nth 0 coords VUndefined in
      let lat := nth 1 coords VUndefined in
      if negb (Number_isFinite lon) || negb (Number_isFinite lat) then None else
      let props := properties f in
      Some {| ScoreTs.name :=
                match props with
                | Some p => match p_name p with Some s => s | None => EmptyString end
                | None => EmptyString
                end;
              ScoreTs.lon := Number_of lon;
              ScoreTs.lat := Number_of lat;
              ScoreTs.primary := match props with Some p => p_primary p | None => None end;
              ScoreTs.tags := match props with Some p => p_tags p | None => None end |}
  end.

Fixpoint readPoints_loop (feats : list Feature) : list ScoreTs.POI :=
  match feats with
  | [] => []
  | f :: rest =>
      match readPoint f with
      | Some p => p :: readPoints_loop rest
      | None => readPoints_loop rest
      end
  end.

(** A call takes the value of [cache] and returns a completion together with
    the new value.  [fc.features] throws a [TypeError] on the document
    [null], and so does the loop on a [features] member that cannot be
    iterated; the cache is left as it was.  ([features = None] stands for
    a member that [?? []] replaces, or whose iteration reads no point.) *)
Definition readPoints (DATA : DataDir) (layer : LayerName) (cache : Cache)
  : Completion (list ScoreTs.POI * Cache) :=
  match cache_get cache layer with
  | Some pts => Normal (pts, cache)
  | None =>
      match FILES DATA layer with
      | Missing => Normal ([], cache_set cache layer [])
      | Unparsable => Throw "SyntaxError"
      | ParsedNull | ParsedNotIterable => Throw "TypeError"
      | Parsed fc =>
          let pts :=
            readPoints_loop (match features fc with Some fs => fs | None => [] end) in
          Normal (pts, cache_set cache layer pts)
      end
  end.

(** [scorePoint], with its three calls of [readPoints]. *)
Definition scorePoint (DATA : DataDir) (lon lat : num) (radiusMeters : option num)
    (cache : Cache) : Completion (ScoreTs.ScoreResult * Cache) :=
  match readPoints DATA shelter cache with
  | Throw e => Throw e
  | Normal (shelters, cache1) =>
      match readPoints DATA school cache1 with
      | Throw e => Throw e
      | Normal (schools, cache2) =>
          match readPoints DATA health cache2 with
          | Throw e => Throw e
          | Normal (healths, cache3) =>
              Normal (ScoreTs.scorePoint shelters schools healths lon lat radiusMeters,
                      cache3)
          end
      end
  end.

Record Item : Type := {
  layer : LayerName;
  name : string;
  lon : num;
  lat : num;
  distance_m : num
}.

Record NearbyResult : Type := {
  params : ScoreTs.Params;
  items : list Item
}.

(** The closure [collect] of [nearbyPois], given what [readPoints] returned
    for the layer. *)
Definition collect (lon lat radiusMeters : num) (layer : LayerName)
    (points : list ScoreTs.POI) : list Item :=
  sort (fun a b => distance_m a - distance_m b)
       (map (fun p => {| layer := layer;
                         name := ScoreTs.name p;
                         lon := ScoreTs.lon p;
                         lat := ScoreTs.lat p;
                         distance_m :=
                           Math_round (ScoreTs.haversineMeters lon lat
                                         (ScoreTs.lon p) (ScoreTs.lat p)) |})
            (ScoreTs.within points lon lat radiusMeters)).

Definition nearbyPois (DATA : DataDir) (lon lat : num) (radiusMeters : option num)
    (cache : Cache) : Completion (NearbyResult * Cache) :=
  let radiusMeters := match radiusMeters with Some r => r | None => #1500 end in
  match readPoints DATA shelter cache with
  | Throw e => Throw e
  | Normal (shelters, cache1) =>
      match readPoints DATA school cache1 with
      | Throw e => Throw e
      | Normal (schools, cache2) =>
          match readPoints DATA health cache2 with
          | Throw e => Throw e
          | Normal (healths, cache3) =>
              Normal ({| params := {| ScoreTs.p_lon := lon; ScoreTs.p_lat := lat;
                                      ScoreTs.p_radiusMeters := radiusMeters |};
                         items := collect lon lat radiusMeters shelter shelters
                                  ++ collect lon lat radiusMeters school schools
                                  ++ collect lon lat radiusMeters health healths |},
                      cache3)
          end
      end
  end.

End ScoreTsProcess.

(** ** Vocabulary for the loader of score.ts *)

Module ScoreTsProcessSpec.

Import JS JSString PoiIndex.

(** The point of poi-index.ts with the fields of a point of score.ts. *)
Definition to_Poi (p : ScoreTs.POI) : Poi :=
  {| name := ScoreTs.name p; lon := ScoreTs.lon p; lat := ScoreTs.lat p;
     primary := ScoreTs.primary p; tags := ScoreTs.tags p |}.





(** Every list that the cache holds is a list of points with finite
    coordinates. *)
Definition cache_finite (cache : ScoreTsProcess.Cache) : Prop :=
  forall layer pts,
    ScoreTsProcess.cache_get cache layer = Some pts ->
    Forall ScoreTsSpec.finite_POI pts.


End ScoreTsProcessSpec.

(** ** The CSV file between mlit-parse-search.mjs and build-poi-layers.mjs *)

(** mlit-parse-search.mjs *)
Module MlitParseSearch.

Import JSString.
Local Open Scope string_scope.
Local Open Scope list_scope.

(** A row: an object with string keys, in insertion order.  [esc] looks at
    a value [s] only through [s == null] and [String(s)]: a value is kept as
    the text [String(s)], or as [None] when it is [null]. *)
Definition Row : Type := list (string * option string).

(** [Object.keys(r)] *)
Definition keys (r : Row) : list string := map fst r.

(** [r[h]]; a missing key gives [undefined], which [esc] treats as
    [null]. *)
Fixpoint get (r : Row) (h : string) : option string :=
  match r with
  | [] => None
  | (k, v) :: rest => if String.eqb k h then v else get rest h
  end.

(** [s.replace] with the global pattern of the double quote: every double
    quote is written twice. *)
Fixpoint double_quotes (s : string) : string :=
  match s with
  | EmptyString => EmptyString
  | String c s' =>
      if Ascii.eqb c DQUOTE then String DQUOTE (String DQUOTE (double_quotes s'))
      else String c (double_quotes s')
  end.

(** The closure [esc] of [toCSV]. *)
Definition esc (s : option string) : string :=
  match s with
  | None => EmptyString
  | Some s =>
      if includes (char COMMA) s || includes (char DQUOTE) s || includes (char LF) s
      then String DQUOTE (double_quotes s ++ char DQUOTE)
      else s
  end.

Definition toCSV (rows : list Row) : string :=
  let headers := keys (match rows with r :: _ => r | [] => [] end) in
  join (char LF)
       (join (char COMMA) headers
        :: map (fun r => join (char COMMA) (map (fun h => esc (get r h)) headers)) rows).

End MlitParseSearch.

(** build-poi-layers.mjs: the CSV reader *)
Module BuildPoiLayers.

Import JSString.
Local Open Scope string_scope.
Local Open Scope list_scope.

(** The loop of [splitCSVLine] over the rest of the line, with its
    variables [out], [cur] and [inQuotes]; on an escaped quote the loop
    skips the second quote ([i++]). *)
Fixpoint splitCSVLine_loop (line : string) (out : list string) (cur : string)
    (inQuotes : bool) : list string :=
  match line with
  | EmptyString => out ++ [cur]
  | String c rest =>
      if inQuotes then
        if Ascii.eqb c DQUOTE then
          match rest with
          | String c' rest' =>
              if Ascii.eqb c' DQUOTE
              then splitCSVLine_loop rest' out (cur ++ char DQUOTE) true
              else splitCSVLine_loop rest out cur false
          | EmptyString => splitCSVLine_loop rest out cur false
          end
        else splitCSVLine_loop rest out (cur ++ char c) true
      else
        if Ascii.eqb c DQUOTE then splitCSVLine_loop rest out cur true
        else if Ascii.eqb c COMMA then splitCSVLine_loop rest (out ++ [cur]) EmptyString false
        else splitCSVLine_loop rest out (cur ++ char c) false
  end.

Definition splitCSVLine (line : string) : list string :=
  splitCSVLine_loop line [] EmptyString false.

(** [text.split(/\r?\n/)]: the text is cut at every line feed, together
    with the carriage return just before it, if any. *)
Fixpoint split_newlines (text : string) (cur : string) : list string :=
  match text with
  | EmptyString => [cur]
  | String c rest =>
      if Ascii.eqb c LF then cur :: split_newlines rest EmptyString
      else if Ascii.eqb c CR then
        match rest with
        | String c' rest' =>
            if Ascii.eqb c' LF then cur :: split_newlines rest' EmptyString
            else split_newlines rest (cur ++ char c)
        | EmptyString => split_newlines rest (cur ++ char c)
        end
      else split_newlines rest (cur ++ char c)
  end.

(** [Boolean(s)] on a string *)
Definition nonempty (s : string) : bool :=
  match s with EmptyString => false | _ => true end.

(** The first line of [parseCSV]: [text.split(/\r?\n/).filter(Boolean)]. *)
Definition lines (text : string) : list string :=
  filter nonempty (split_newlines text EmptyString).

(** The cells that [parseCSV] works on: the header, and [cols] for every
    other line. *)
Definition parseCSV_cells (text : string) : list (list string) :=
  map splitCSVLine (lines text).

End BuildPoiLayers.

(** ** Vocabulary for the CSV file *)

Module CsvSpec.

Import JSString.
Local Open Scope string_scope.

(** The text of a cell as [esc] writes it: the empty text for [null] and
    [undefined]. *)
Definition text_of (cell : option string) : string :=
  match cell with Some s => s | None => EmptyString end.

(** The cells of a row under the given headers. *)
Definition cells (headers : list string) (r : MlitParseSearch.Row) : list string :=
  map (fun h => text_of (MlitParseSearch.get r h)) headers.

Definition has_no (c : ascii) (s : string) : Prop := includes (char c) s = false.

(** No line break within the text. *)
Definition one_line (s : string) : Prop := has_no LF s /\ has_no CR s.

(** A header that [toCSV] writes as it is and that reads back as itself. *)
Definition plain (s : string) : Prop :=
  has_no COMMA s /\ has_no DQUOTE s /\ one_line s.

End CsvSpec.

(** ** Regular expressions, as far as build-poi-layers.mjs uses them *)

(** Patterns and subjects are sequences of UTF-8 bytes.  A literal of the
    patterns below is a sequence of whole characters, so it occurs in the
    bytes of a well-formed subject exactly where it occurs in its UTF-16 code
    units.  [RegExp.prototype.test] asks whether some match exists, so the
    order in which alternatives are tried does not matter. *)

Module Regex.

Import JSString.
Local Open Scope string_scope.
Local Open Scope list_scope.

Inductive re : Type :=
| Lit (s : string)            (** the characters of [s] *)
| LitI (s : string)           (** the same under the flag [i] *)
| Alts (l : list string)      (** an alternation of literals *)
| Alt (a b : re)              (** [a|b] *)
| Seq (a b : re)              (** [ab] *)
| DotStar                     (** [.*] *)
| Opt (a : re)                (** [a?] *)
| End.                        (** [$], without the flag [m] *)

(** Under the flag [i] two characters match when their upper-case forms are
    equal; among the characters of the patterns only the ASCII letters have
    another case, and no character outside ASCII is folded onto one. *)
Definition upper (c : ascii) : ascii :=
  let n := nat_of_ascii c in
  if (97 <=? n)%nat && (n <=? 122)%nat then ascii_of_nat (n - 32) else c.

Fixpoint strip_prefix_i (p s : string) : option string :=
  match p with
  | EmptyString => Some s
  | String a p' =>
      match s with
      | EmptyString => None
      | String b s' =>
          if Ascii.eqb (upper a) (upper b) then strip_prefix_i p' s' else None
      end
  end.

(** The line terminators, which [.] does not match: LF, CR, U+2028 and
    U+2029. *)
Definition line_terminators : list string :=
  [bytes [10]; bytes [13]; bytes [226; 128; 168]; bytes [226; 128; 169]].

Definition at_line_terminator (s : string) : bool :=
  existsb (fun t => String.prefix t s) line_terminators.

Fixpoint dotstar (s : string) (k : string -> bool) : bool :=
  k s ||
  match s with
  | EmptyString => false
  | String _ s' => if at_line_terminator s then false else dotstar s' k
  end.

(** [matches r s k]: [r] matches a prefix of [s] and [k] accepts the
    rest. *)
Fixpoint matches (r : re) (s : string) (k : string -> bool) : bool :=
  match r with
  | Lit p => match strip_prefix p s with Some rest => k rest | None => false end
  | LitI p => match strip_prefix_i p s with Some rest => k rest | None => false end
  | Alts l =>
      existsb (fun p => match strip_prefix p s with
                        | Some rest => k rest
                        | None => false
                        end) l
  | Alt a b => matches a s k || matches b s k
  | Seq a b => matches a s (fun rest => matches b rest k)
  | DotStar => dotstar s k
  | Opt a => matches a s k || k s
  | End => match s with EmptyString => k s | _ => false end
  end.

(** [r.test(s)]: a match starting at some position of [s]. *)
Fixpoint test (r : re) (s : string) : bool :=
  matches r s (fun _ => true) ||
  match s with
  | EmptyString => false
  | String _ s' => test r s'
  end.

End Regex.

(** ** build-poi-layers.mjs: classification *)

Module Classification.

Import JSString Regex.
Local Open Scope string_scope.
Local Open Scope list_scope.

Record Classified : Type := {
  keep : bool;
  tags : list string;
  primary : option string
}.

Definition re_memorial : re :=
  Alts ["記念碑"; "慰霊"; "震災記念"; "復興記念"; "復旧記念"; "私たちは忘れない"].

Definition re_tender : re :=
  Seq (Alts ["令和"; "平成"])
      (Seq DotStar
           (Alts ["業務"; "工事"; "改修"; "除雪"; "計画"; "検討"; "委託"; "事業"])).

Definition re_model : re := Alt (LitI "3D都市モデル") (LitI "PLATEAU").

Definition re_monument : re := Seq (Lit "碑") End.

Definition re_shelter : re :=
  Alt (Alts ["避難所"; "避難施設"; "緊急避難施設"; "集合避難施設"])
      (Alt (Seq (Lit "津波") (Seq DotStar (Lit "避難")))
           (Alt (Seq (Lit "災害") (Seq DotStar (Lit "避難")))
                (Seq (Lit "防災拠点") (Seq DotStar (Seq (Lit "避難") (Opt (Lit "所"))))))).

Definition re_welfare_shelter : re := Lit "福祉避難所".

Definition re_school : re :=
  Alts ["小学校"; "中学校"; "高校"; "高等学校"; "大学"; "義務教育学校";
        "保育園"; "幼稚園"; "こども園"].

Definition re_mentionsShelter : re := Alts ["避難所"; "避難施設"].

Definition re_healthCore : re :=
  Alts ["病院"; "医院"; "クリニック"; "医療センター"; "医療機関"].

Definition re_healthGov : re :=
  Alts ["保健センター"; "保健福祉センター"; "保健所"].

Definition re_civic : re :=
  Alts ["公民館"; "集会所"; "会館"; "体育館"; "地域センター"; "コミュニティセンター";
        "社会福祉協議会"; "市役所"; "区役所"].

Definition re_shop : re :=
  Alts ["ショッピング"; "スーパー"; "商店"; "市場"; "コンビニ"; "ドラッグストア"; "薬局"].

Definition re_generic : re := Alts ["センター"; "館"; "会館"; "地区"; "地域"].

(** [tags.includes(t)] *)
Definition tags_includes (tags : list string) (t : string) : bool :=
  existsb (String.eqb t) tags.

(** [tags.push(t)] when [b] holds. *)
Definition push_if (b : bool) (t : string) (tags : list string) : list string :=
  if b then tags ++ [t] else tags.

Definition order : list string :=
  ["shelter"; "school"; "health"; "shop"; "civic"; "other"].

(** [name] is a string, or [None] for [null] and [undefined]. *)
Definition classifyTags (name : option string) : Classified :=
  let n := trim (match name with Some s => s | None => EmptyString end) in
  let isMemorial := test re_memorial n in
  let isTender := test re_tender n in
  let isModel := test re_model n in
  let isMonument := test re_monument n in
  if isMemorial || isTender || isModel || isMonument
  then {| keep := false; tags := []; primary := None |}
  else
    let tags := [] in
    let isShelter := test re_shelter n || test re_welfare_shelter n in
    let tags := push_if isShelter "shelter" tags in
    let tags := push_if (test re_school n) "school" tags in
    let mentionsShelter := test re_mentionsShelter n in
    let isHealthCore := test re_healthCore n in
    let isHealthGov := test re_healthGov n in
    let tags :=
      push_if (negb mentionsShelter && (isHealthCore || isHealthGov)) "health" tags in
    let tags := push_if (test re_civic n) "civic" tags in
    let tags := push_if (test re_shop n) "shop" tags in
    let tags :=
      push_if (test re_generic n && (List.length tags =? 0)%nat) "civic" tags in
    if (List.length tags =? 0)%nat
    then {| keep := true; tags := ["other"]; primary := Some "other" |}
    else
      let primary :=
        match find (fun t => tags_includes tags t) order with
        | Some t => Some t
        | None => hd_error tags
        end in
      {| keep := true; tags := tags; primary := primary |}.

End Classification.

(** ** Vocabulary for the classification *)

Module ClassificationSpec.

Import JSString Regex.
Local Open Scope string_scope.

(** The name as [classifyTags] looks at it. *)
Definition trimmed (name : option string) : string :=
  trim (match name with Some s => s | None => EmptyString end).

(** The keys of [buckets] in [main]. *)
Definition bucket_names : list string :=
  ["shelter"; "school"; "health"; "hospital"; "shop"; "civic"; "other"]%list.

End ClassificationSpec.
(* ================================================================== *)
(** * Part II.  Facts about the number model                           *)
(* ================================================================== *)

Module JSFacts.

Import JS Spec.
Local Open Scope R_scope.

Lemma Rleb_true (x y : R) : Rleb x y = true <-> x <= y.
Proof. unfold Rleb; destruct (Rle_dec x y); split; intros; try easy; lra. Qed.

Lemma Rleb_false (x y : R) : Rleb x y = false <-> y < x.
Proof. unfold Rleb; destruct (Rle_dec x y); split; intros; try easy; lra. Qed.

Lemma Rltb_true (x y : R) : Rltb x y = true <-> x < y.
Proof. unfold Rltb; destruct (Rlt_dec x y); split; intros; try easy; lra. Qed.

Lemma Rltb_false (x y : R) : Rltb x y = false <-> y <= x.
Proof. unfold Rltb; destruct (Rlt_dec x y); split; intros; try easy; lra. Qed.

Lemma Reqb_true (x y : R) : Reqb x y = true <-> x = y.
Proof. unfold Reqb; destruct (Req_dec_T x y); split; intros; try easy. Qed.

Lemma Reqb_false (x y : R) : Reqb x y = false <-> x <> y.
Proof. unfold Reqb; destruct (Req_dec_T x y); split; intros; try easy. Qed.

(** Decide every comparison of reals that occurs in the goal or in a
    hypothesis, and close the branches that linear arithmetic refutes. *)
Ltac rdec_step :=
  match goal with
  | |- context [Rle_dec ?a ?b] => destruct (Rle_dec a b)
  | |- context [Rlt_dec ?a ?b] => destruct (Rlt_dec a b)
  | |- context [Req_dec_T ?a ?b] => destruct (Req_dec_T a b)
  | H : context [Rle_dec ?a ?b] |- _ => destruct (Rle_dec a b)
  | H : context [Rlt_dec ?a ?b] |- _ => destruct (Rlt_dec a b)
  | H : context [Req_dec_T ?a ?b] |- _ => destruct (Req_dec_T a b)
  end.

Ltac rdec :=
  repeat (unfold Rsign, Rleb, Rltb, Reqb in *; rdec_step; simpl in *;
          try congruence; try lra);
  simpl in *; try congruence; try lra.

Lemma Fin_inj (x y : R) : Fin x = Fin y -> x = y.
Proof. congruence. Qed.

Lemma le_Fin (x y : R) : le (Fin x) (Fin y) = true <-> x <= y.
Proof. apply Rleb_true. Qed.

Lemma lt_Fin (x y : R) : lt (Fin x) (Fin y) = true <-> x < y.
Proof. apply Rltb_true. Qed.

Lemma le_NaN_l (b : num) : le NaN b = false.
Proof. reflexivity. Qed.

Lemma le_NaN_r (a : num) : le a NaN = false.
Proof. destruct a; reflexivity. Qed.

Lemma add_Fin (x y : R) : add (Fin x) (Fin y) = Fin (x + y).
Proof. reflexivity. Qed.

Lemma sub_Fin (x y : R) : sub (Fin x) (Fin y) = Fin (x - y).
Proof. unfold sub; simpl; f_equal. Qed.

(** *** Overflow *)

Lemma OVERFLOW_gt : 10 ^ 301 < OVERFLOW.
Proof. unfold OVERFLOW. lra. Qed.

Lemma OVERFLOW_lt : OVERFLOW < 2 ^ 1024.
Proof. unfold OVERFLOW. lra. Qed.

Lemma OVERFLOW_pos : 0 < OVERFLOW.
Proof. pose proof OVERFLOW_gt. lra. Qed.

Lemma overflow_Fin (x : R) : - OVERFLOW < x < OVERFLOW -> overflow x = Fin x.
Proof. intros H. unfold overflow. rdec. Qed.


Lemma overflow_NInf (x : R) : x <= - OVERFLOW -> overflow x = NInf.
Proof. intros H. pose proof OVERFLOW_pos. unfold overflow. rdec. Qed.

Lemma overflow_cases (x : R) :
  (overflow x = Fin x /\ - OVERFLOW < x < OVERFLOW)
  \/ (overflow x = PInf /\ OVERFLOW <= x)
  \/ (overflow x = NInf /\ x <= - OVERFLOW).
Proof.
  pose proof OVERFLOW_pos. unfold overflow.
  destruct (Rle_dec OVERFLOW x), (Rle_dec x (- OVERFLOW)); rdec; auto.
  left. split; [reflexivity | lra].
Qed.

(** [overflow] keeps the order. *)
Lemma overflow_mono (x y : R) : x <= y -> le (overflow x) (overflow y) = true.
Proof.
  intros H. pose proof OVERFLOW_pos.
  destruct (overflow_cases x) as [[-> Hx]|[[-> Hx]|[-> Hx]]],
           (overflow_cases y) as [[-> Hy]|[[-> Hy]|[-> Hy]]];
    try reflexivity; try lra.
  apply Rleb_true. exact H.
Qed.

Lemma mul_Fin (x y : R) :
  - OVERFLOW < x * y < OVERFLOW -> mul (Fin x) (Fin y) = Fin (x * y).
Proof. intros H. unfold mul. now apply overflow_Fin. Qed.

Lemma le_lt_false (a b : num) : le a b = true -> lt b a = false.
Proof. destruct a, b; simpl; try congruence; intros H; rdec. Qed.

(** A product of factors up to [10^150] in magnitude does not overflow; so
    for the sub-scores, the weights and the trigonometric values. *)
Lemma mul_small (x y : R) (b c : R) :
  Rabs x <= b -> Rabs y <= c -> b * c <= 10 ^ 301 ->
  mul (Fin x) (Fin y) = Fin (x * y).
Proof.
  intros Hx Hy Hbc. apply mul_Fin. pose proof OVERFLOW_gt.
  assert (Rabs (x * y) <= b * c).
  { rewrite Rabs_mult. apply Rmult_le_compat; auto using Rabs_pos. }
  assert (Rabs (x * y) < OVERFLOW) by lra.
  split; [apply Rabs_def2 in H1; tauto | apply Rabs_def2 in H1; tauto].
Qed.

Lemma div_Fin (x y : R) : y <> 0 -> div (Fin x) (Fin y) = Fin (x / y).
Proof. intros; simpl; rdec. Qed.

Lemma div_zero_zero : div (Fin 0) (Fin 0) = NaN.
Proof. simpl; rdec. Qed.

Lemma min_Fin (x y : R) : Math_min (Fin x) (Fin y) = Fin (Rmin x y).
Proof.
  unfold Math_min, le, Rmin; rdec.
Qed.

Lemma max_Fin (x y : R) : Math_max (Fin x) (Fin y) = Fin (Rmax x y).
Proof.
  unfold Math_max, le, Rmax; rdec.
Qed.

Lemma Zfloor_2 : Zfloor 2 = 2%Z.
Proof. apply (ZfloorZ 2). Qed.

(** [x ** 2] on a finite number is the square. *)
Lemma pow_2 (x : R) : Math_pow (Fin x) (Fin 2) = Fin (x * x).
Proof.
  unfold Math_pow, is_integer. rewrite Zfloor_2.
  assert (Hpos : forall y, 0 < y -> Rpower y 2 = y * y).
  { intros y Hy. replace 2 with (INR 2) by (simpl; lra).
    rewrite Rpower_pow by assumption. simpl; lra. }
  rdec.
  - now rewrite Hpos.
  - f_equal. subst x. lra.
  - f_equal. rewrite Hpos by lra. lra.
Qed.

Lemma pow_NaN (e : num) : e <> Fin 0 -> Math_pow NaN e = NaN.
Proof.
  destruct e as [| | |y]; try reflexivity. intros He. unfold Math_pow.
  rdec.
Qed.

Lemma pow_13 (x : R) : 0 <= x -> Math_pow (Fin x) (Fin 1.3) = Fin (pow13 x).
Proof.
  intros Hx. unfold Math_pow, pow13. rdec.
Qed.

Lemma pow13_0 : pow13 0 = 0.
Proof. unfold pow13; rdec. Qed.

Lemma pow13_1 : pow13 1 = 1.
Proof.
  unfold pow13; rdec. unfold Rpower. rewrite ln_1, Rmult_0_r. apply exp_0.
Qed.



Lemma pow13_mono (x y : R) : 0 <= x <= y -> pow13 x <= pow13 y.
Proof.
  intros [Hx Hxy]. unfold pow13.
  destruct (Req_dec_T x 0) as [Ex|Nx]; destruct (Req_dec_T y 0) as [Ey|Ny]; try lra.
  - left. unfold Rpower. apply exp_pos.
  - apply Rle_Rpower_l; lra.
Qed.

Lemma pow13_unit (x : R) : 0 <= x <= 1 -> 0 <= pow13 x <= 1.
Proof.
  intros Hx. split.
  - rewrite <- pow13_0. apply pow13_mono. lra.
  - rewrite <- pow13_1. apply pow13_mono. lra.
Qed.

End JSFacts.

(* ================================================================== *)
(** * Part III.  Geo helpers                                           *)
(* ================================================================== *)

Module GeoFacts.

Import JS Spec PoiIndex JSFacts.
Local Open Scope R_scope.

Lemma toRad_Fin (d : R) : converts d -> toRad (Fin d) = Fin (toRadR d).
Proof.
  intros Hd. unfold toRad, toRadR, Math_PI. rewrite mul_Fin by exact Hd.
  rewrite div_Fin by lra. reflexivity.
Qed.

(** When the product overflows the angle is an infinity. *)
Lemma toRad_overflow (d : R) : ~ converts d -> isFinite (toRad (Fin d)) = false.
Proof.
  intros Hd. unfold toRad, Math_PI, mul.
  destruct (overflow_cases (d * PI)) as [[_ H]|[[-> _]|[-> _]]].
  - now destruct Hd.
  - simpl. rdec.
  - simpl. rdec.
Qed.

Lemma converts_dec (d : R) : {converts d} + {~ converts d}.
Proof.
  unfold converts.
  destruct (Rlt_dec (- OVERFLOW) (d * PI)), (Rlt_dec (d * PI) OVERFLOW);
    [left; split; assumption | right; tauto | right; tauto | right; tauto].
Qed.

Lemma ordinary_converts (x : R) : Rabs x <= 2 * 10 ^ 300 -> converts x.
Proof.
  intros Hx. pose proof OVERFLOW_gt as Ho. pose proof PI_RGT_0 as Hpi.
  pose proof PI_4 as H4. unfold converts.
  assert (Hp : Rabs (x * PI) <= 2 * 10 ^ 300 * 4).
  { rewrite Rabs_mult, (Rabs_pos_eq PI) by lra.
    apply Rmult_le_compat; auto using Rabs_pos; lra. }
  assert (Hlt : Rabs (x * PI) < OVERFLOW) by lra.
  apply Rabs_def2 in Hlt. tauto.
Qed.

Lemma ordinary_no_overflow (lon1 lat1 lon2 lat2 : R) :
  ordinary lon1 -> ordinary lat1 -> ordinary lon2 -> ordinary lat2 ->
  no_overflow lon1 lat1 lon2 lat2.
Proof.
  unfold ordinary. intros H1 H2 H3 H4.
  assert (Hsub : forall a b, Rabs a <= 10 ^ 300 -> Rabs b <= 10 ^ 300 ->
                             Rabs (b - a) <= 2 * 10 ^ 300).
  { intros a b Ha Hb. unfold Rminus.
    eapply Rle_trans; [apply Rabs_triang|]. rewrite Rabs_Ropp. lra. }
  repeat split; apply ordinary_converts; auto; lra.
Qed.

Lemma in_range_ordinary (x : R) : -180 <= x <= 180 -> ordinary x.
Proof.
  intros Hx. unfold ordinary. apply Rabs_le. lra.
Qed.

Lemma abs_cos_le_1 (x : R) : Rabs (cos x) <= 1.
Proof. apply Rabs_le. apply COS_bound. Qed.

Lemma abs_sin_le_1 (x : R) : Rabs (sin x) <= 1.
Proof. apply Rabs_le. apply SIN_bound. Qed.

Lemma haversine_a_Fin (lon1 lat1 lon2 lat2 : R) :
  no_overflow lon1 lat1 lon2 lat2 ->
  haversine_a (Fin lon1) (Fin lat1) (Fin lon2) (Fin lat2)
  = Fin (hav_a lon1 lat1 lon2 lat2).
Proof.
  intros (H1 & H2 & H3 & H4). unfold haversine_a, hav_a.
  rewrite !sub_Fin, !toRad_Fin, !div_Fin by (assumption || lra).
  unfold Math_sin, Math_cos. rewrite !pow_2.
  rewrite (@mul_small _ _ 1 1) by (apply abs_cos_le_1 || lra).
  rewrite (@mul_small _ _ 1 1).
  - rewrite add_Fin. reflexivity.
  - rewrite Rabs_mult. rewrite <- (Rmult_1_l 1).
    apply Rmult_le_compat; auto using Rabs_pos, abs_cos_le_1.
  - rewrite Rabs_mult. rewrite <- (Rmult_1_l 1).
    apply Rmult_le_compat; auto using Rabs_pos, abs_sin_le_1.
  - lra.
Qed.

(** In exact arithmetic the term [a] lies in the unit interval. *)
Lemma hav_a_bounds (lon1 lat1 lon2 lat2 : R) :
  0 <= hav_a lon1 lat1 lon2 lat2 <= 1.
Proof.
  unfold hav_a.
  set (u := toRadR (lat2 - lat1) / 2).
  set (v := toRadR (lon2 - lon1) / 2).
  set (p1 := toRadR lat1). set (p2 := toRadR lat2).
  assert (Hu : 2 * u = p2 - p1) by (unfold u, p1, p2, toRadR; lra).
  pose proof (cos_2a_sin u) as H2u. rewrite Hu, cos_minus in H2u.
  pose proof (sin2_cos2 p1) as H1. pose proof (sin2_cos2 p2) as H2.
  pose proof (sin2_cos2 v) as Hv. unfold Rsqr in *.
  set (t := sin v * sin v) in *.
  assert (Ht : 0 <= t <= 1).
  { split; [unfold t; nra|]. assert (0 <= cos v * cos v) by nra. lra. }
  set (s1 := sin p1) in *. set (c1 := cos p1) in *.
  set (s2 := sin p2) in *. set (c2 := cos p2) in *.
  pose proof (Rle_0_sqr (s1 - s2)) as Q1. pose proof (Rle_0_sqr (s1 + s2)) as Q2.
  pose proof (Rle_0_sqr (c1 - c2)) as Q3. pose proof (Rle_0_sqr (c1 + c2)) as Q4.
  unfold Rsqr in Q1, Q2, Q3, Q4.
  assert (Hmm : 0 <= 1 - s1 * s2 - c1 * c2) by lra.
  assert (Hmp : 0 <= 1 - s1 * s2 + c1 * c2) by lra.
  assert (Hpp : 0 <= 1 + s1 * s2 + c1 * c2) by lra.
  assert (Hpm : 0 <= 1 + s1 * s2 - c1 * c2) by lra.
  assert (E : sin u * sin u = (1 - s1 * s2 - c1 * c2) / 2) by lra.
  rewrite E. split; nra.
Qed.

Lemma asin_nonneg (x : R) : 0 <= x <= 1 -> 0 <= asin x.
Proof.
  intros Hx. destruct (Rle_dec 0 (asin x)) as [|Hn]; [assumption|exfalso].
  pose proof (asin_bound x) as Hb. pose proof PI_RGT_0 as Hpi.
  assert (Hs : sin (asin x) < 0) by (apply sin_lt_0_var; lra).
  rewrite sin_asin in Hs by lra. lra.
Qed.


Lemma haversine_of_a_Fin (a : R) :
  0 <= a ->
  haversine_of_a (Fin a) = Fin (2 * 6371000 * asin (Rmin 1 (sqrt a))).
Proof.
  intros Ha. unfold haversine_of_a, Math_sqrt, R_EARTH.
  replace (Rltb a 0) with false by (symmetry; apply Rltb_false; lra).
  pose proof OVERFLOW_gt as Ho.
  rewrite min_Fin, mul_Fin by lra. unfold Math_asin.
  pose proof (sqrt_pos a) as Hs.
  assert (Hm : 0 <= Rmin 1 (sqrt a) <= 1) by (unfold Rmin; rdec).
  replace (Rleb (-1) (Rmin 1 (sqrt a))) with true
    by (symmetry; apply Rleb_true; lra).
  replace (Rleb (Rmin 1 (sqrt a)) 1) with true
    by (symmetry; apply Rleb_true; lra).
  cbn [andb]. apply mul_Fin.
  pose proof (asin_nonneg Hm) as Hn. pose proof (asin_bound (Rmin 1 (sqrt a))) as Hb.
  pose proof PI_4 as H4. nra.
Qed.

Lemma haversineMeters_Fin (lon1 lat1 lon2 lat2 : R) :
  no_overflow lon1 lat1 lon2 lat2 ->
  haversineMeters (Fin lon1) (Fin lat1) (Fin lon2) (Fin lat2)
  = Fin (great_circle lon1 lat1 lon2 lat2).
Proof.
  intros H. unfold haversineMeters. rewrite haversine_a_Fin by exact H.
  rewrite haversine_of_a_Fin by apply hav_a_bounds. reflexivity.
Qed.

Lemma great_circle_bounds (lon1 lat1 lon2 lat2 : R) :
  0 <= great_circle lon1 lat1 lon2 lat2 <= PI * 6371000.
Proof.
  unfold great_circle.
  pose proof (hav_a_bounds lon1 lat1 lon2 lat2) as Ha.
  pose proof (sqrt_pos (hav_a lon1 lat1 lon2 lat2)) as Hs.
  set (m := Rmin 1 (sqrt (hav_a lon1 lat1 lon2 lat2))).
  assert (Hm : 0 <= m <= 1) by (unfold m, Rmin; rdec).
  pose proof (asin_nonneg Hm). pose proof (asin_bound m). nra.
Qed.

Lemma hav_a_self (lon lat : R) : hav_a lon lat lon lat = 0.
Proof.
  unfold hav_a, toRadR.
  replace ((lat - lat) * PI / 180 / 2) with 0 by lra.
  replace ((lon - lon) * PI / 180 / 2) with 0 by lra.
  rewrite sin_0. lra.
Qed.

Lemma great_circle_self (lon lat : R) : great_circle lon lat lon lat = 0.
Proof.
  unfold great_circle. rewrite hav_a_self, sqrt_0.
  replace (Rmin 1 0) with 0 by (unfold Rmin; rdec).
  rewrite asin_0. lra.
Qed.

(** A point of ordinary latitude is at distance 0 from itself. *)
Lemma haversineMeters_self (lon lat : R) :
  ordinary lat ->
  haversineMeters (Fin lon) (Fin lat) (Fin lon) (Fin lat) = Fin 0.
Proof.
  intros H. rewrite haversineMeters_Fin; [now rewrite great_circle_self|].
  assert (H0 : converts 0).
  { apply ordinary_converts. rewrite Rabs_R0. lra. }
  assert (Hl : converts lat).
  { apply ordinary_converts. unfold ordinary in H. lra. }
  unfold no_overflow. replace (lat - lat) with 0 by lra.
  replace (lon - lon) with 0 by lra. auto.
Qed.

Lemma add_NaN_r (a : num) : add a NaN = NaN.
Proof. destruct a; reflexivity. Qed.

Lemma mul_NaN_l (a : num) : mul NaN a = NaN.
Proof. destruct a; reflexivity. Qed.

Lemma mul_NaN_r (a : num) : mul a NaN = NaN.
Proof. destruct a; reflexivity. Qed.

Lemma sub_nonfinite_l (a b : num) :
  isFinite a = false -> isFinite (sub a b) = false.
Proof. destruct a, b; simpl; congruence. Qed.

Lemma sub_nonfinite_r (a b : num) :
  isFinite b = false -> isFinite (sub a b) = false.
Proof. destruct a, b; simpl; congruence. Qed.

Lemma toRad_nonfinite (a : num) :
  isFinite a = false -> isFinite (toRad a) = false.
Proof.
  pose proof PI_RGT_0.
  destruct a; simpl; try congruence; intros _; unfold toRad, Math_PI; simpl; rdec.
Qed.

Lemma half_nonfinite (a : num) :
  isFinite a = false -> isFinite (div a (Fin 2)) = false.
Proof. destruct a; simpl; try congruence; intros _; rdec. Qed.

Lemma sin_nonfinite (a : num) : isFinite a = false -> Math_sin a = NaN.
Proof. destruct a; simpl; congruence. Qed.

Lemma cos_nonfinite (a : num) : isFinite a = false -> Math_cos a = NaN.
Proof. destruct a; simpl; congruence. Qed.

Lemma sin_half_nonfinite (t : num) :
  isFinite t = false -> Math_pow (Math_sin (div t (Fin 2))) (Fin 2) = NaN.
Proof.
  intros H. rewrite sin_nonfinite by now apply half_nonfinite.
  apply pow_NaN. intros E; apply Fin_inj in E; lra.
Qed.

(** An angle that is not finite makes the term [a] a [NaN]. *)
Lemma haversine_a_NaN (lon1 lat1 lon2 lat2 : num) :
  isFinite (toRad lat1) && isFinite (toRad lat2)
  && isFinite (toRad (sub lat2 lat1)) && isFinite (toRad (sub lon2 lon1)) = false ->
  haversine_a lon1 lat1 lon2 lat2 = NaN.
Proof.
  intros H. unfold haversine_a.
  destruct (isFinite (toRad (sub lat2 lat1))) eqn:H3.
  - destruct (isFinite (toRad lat1)) eqn:H1.
    + destruct (isFinite (toRad lat2)) eqn:H2.
      * destruct (isFinite (toRad (sub lon2 lon1))) eqn:H4; [discriminate|].
        rewrite (sin_half_nonfinite _ H4), mul_NaN_r. apply add_NaN_r.
      * rewrite (cos_nonfinite _ H2), mul_NaN_r, mul_NaN_l. apply add_NaN_r.
    + rewrite (cos_nonfinite _ H1), !mul_NaN_l. apply add_NaN_r.
  - rewrite (sin_half_nonfinite _ H3). reflexivity.
Qed.

Lemma haversine_of_a_NaN : haversine_of_a NaN = NaN.
Proof. unfold haversine_of_a. apply mul_NaN_r. Qed.

(** A non-finite coordinate on either side makes the distance [NaN]. *)
Lemma haversineMeters_nonfinite (lon1 lat1 lon2 lat2 : num) :
  isFinite lon1 && isFinite lat1 && isFinite lon2 && isFinite lat2 = false ->
  haversineMeters lon1 lat1 lon2 lat2 = NaN.
Proof.
  intros H. unfold haversineMeters. rewrite haversine_a_NaN; [apply haversine_of_a_NaN|].
  destruct (isFinite lat1) eqn:H1.
  - destruct (isFinite lat2) eqn:H2.
    + assert (Hl : isFinite (sub lon2 lon1) = false).
      { destruct (isFinite lon1) eqn:H3.
        - apply sub_nonfinite_l. now destruct (isFinite lon2).
        - now apply sub_nonfinite_r. }
      rewrite (toRad_nonfinite _ Hl). apply andb_false_r.
    + rewrite (toRad_nonfinite _ H2). now rewrite andb_false_r.
  - now rewrite (toRad_nonfinite _ H1).
Qed.

(** So does a finite coordinate so large that a conversion to radians
    overflows. *)
Lemma haversineMeters_overflow (lon1 lat1 lon2 lat2 : R) :
  ~ no_overflow lon1 lat1 lon2 lat2 ->
  haversineMeters (Fin lon1) (Fin lat1) (Fin lon2) (Fin lat2) = NaN.
Proof.
  intros H. unfold haversineMeters. rewrite haversine_a_NaN; [apply haversine_of_a_NaN|].
  rewrite !sub_Fin.
  destruct (converts_dec lat1) as [H1|H1];
    [|now rewrite (toRad_overflow H1)].
  destruct (converts_dec lat2) as [H2|H2];
    [|now rewrite (toRad_overflow H2), andb_false_r].
  destruct (converts_dec (lat2 - lat1)) as [H3|H3];
    [|now rewrite (toRad_overflow H3), andb_false_r].
  destruct (converts_dec (lon2 - lon1)) as [H4|H4];
    [|now rewrite (toRad_overflow H4), andb_false_r].
  destruct H. exact (conj H1 (conj H2 (conj H3 H4))).
Qed.

Lemma no_overflow_dec (lon1 lat1 lon2 lat2 : R) :
  {no_overflow lon1 lat1 lon2 lat2} + {~ no_overflow lon1 lat1 lon2 lat2}.
Proof.
  unfold no_overflow.
  destruct (converts_dec lat1), (converts_dec lat2),
           (converts_dec (lat2 - lat1)), (converts_dec (lon2 - lon1));
    try (right; intros (? & ? & ? & ?); contradiction). left. auto.
Qed.

(** The distance is [NaN], or finite and between 0 and half the
    circumference. *)
Lemma haversineMeters_cases (lon1 lat1 lon2 lat2 : num) :
  haversineMeters lon1 lat1 lon2 lat2 = NaN
  \/ exists d : R, haversineMeters lon1 lat1 lon2 lat2 = Fin d
                   /\ 0 <= d <= PI * 6371000.
Proof.
  destruct (isFinite lon1 && isFinite lat1 && isFinite lon2 && isFinite lat2) eqn:H.
  - destruct lon1 as [| | |x1], lat1 as [| | |y1], lon2 as [| | |x2], lat2 as [| | |y2];
      try discriminate.
    destruct (no_overflow_dec x1 y1 x2 y2) as [Hn|Hn].
    + right. eexists; split; [now apply haversineMeters_Fin | apply great_circle_bounds].
    + left. now apply haversineMeters_overflow.
  - left. now apply haversineMeters_nonfinite.
Qed.

(** The distance is a number exactly when the coordinates are finite and no
    conversion overflows. *)
Lemma haversineMeters_number (lon1 lat1 lon2 lat2 : R) :
  haversineMeters (Fin lon1) (Fin lat1) (Fin lon2) (Fin lat2) <> NaN ->
  no_overflow lon1 lat1 lon2 lat2.
Proof.
  intros H. destruct (no_overflow_dec lon1 lat1 lon2 lat2) as [Hn|Hn]; [exact Hn|].
  now rewrite haversineMeters_overflow in H.
Qed.

(** Along a meridian the distance is the arc [R * |dlat| * PI / 180]. *)
Lemma great_circle_meridian (lon lat1 lat2 : R) :
  lat1 <= lat2 -> lat2 - lat1 <= 180 ->
  great_circle lon lat1 lon lat2 = 6371000 * (toRadR (lat2 - lat1)).
Proof.
  intros Hle H180. unfold great_circle, hav_a.
  replace (toRadR (lon - lon) / 2) with 0 by (unfold toRadR; lra).
  rewrite sin_0, !Rmult_0_r, Rplus_0_r.
  set (u := toRadR (lat2 - lat1) / 2).
  pose proof PI_RGT_0 as Hpi.
  assert (Hu : 0 <= u <= PI / 2) by (unfold u, toRadR; split; nra).
  assert (Hs : 0 <= sin u) by (apply sin_ge_0; lra).
  fold (Rsqr (sin u)). rewrite sqrt_Rsqr by assumption.
  pose proof (SIN_bound u) as Hb.
  replace (Rmin 1 (sin u)) with (sin u) by (unfold Rmin; rdec).
  rewrite asin_sin by lra. unfold u. lra.
Qed.

End GeoFacts.

(* ================================================================== *)
(** * Part IV.  The catalog loader                                     *)
(* ================================================================== *)

Module LoaderFacts.

Import JS Spec PoiIndex JSFacts.
Local Open Scope string_scope.
Local Open Scope list_scope.

Lemma has_true (seen : list Key) (k : Key) : has seen k = true <-> In k seen.
Proof. unfold has; destruct (in_dec Key_eq_dec k seen); split; intros; easy. Qed.

Lemma has_false (seen : list Key) (k : Key) : has seen k = false <-> ~ In k seen.
Proof. unfold has; destruct (in_dec Key_eq_dec k seen); split; intros; easy. Qed.

Lemma has_key_true (k : Key) (p : Poi) : has_key k p = true <-> key_of p = k.
Proof. unfold has_key; destruct (Key_eq_dec (key_of p) k); split; intros; easy. Qed.


(** The loop of [dedupePois] appends to [out] what [dedupe_from] keeps. *)
Lemma dedupe_loop_from (pois : list Poi) :
  forall seen out, dedupe_loop pois seen out = out ++ dedupe_from seen pois.
Proof.
  induction pois as [|p rest IH]; intros seen out; simpl.
  - now rewrite app_nil_r.
  - destruct (has seen (key_of p)); simpl.
    + apply IH.
    + rewrite IH, <- app_assoc. reflexivity.
Qed.

Lemma dedupePois_from (pois : list Poi) : dedupePois pois = dedupe_from [] pois.
Proof. unfold dedupePois. now rewrite dedupe_loop_from. Qed.

Lemma dedupe_from_In (pois : list Poi) :
  forall seen p, In p (dedupe_from seen pois) ->
                 In p pois /\ ~ In (key_of p) seen.
Proof.
  induction pois as [|q rest IH]; intros seen p; simpl; [easy|].
  destruct (has seen (key_of q)) eqn:Hq.
  - intros H. apply IH in H. tauto.
  - intros [->|H].
    + split; [now left|]. now apply has_false.
    + apply IH in H. simpl in H. tauto.
Qed.

Lemma dedupePois_In (pois : list Poi) (p : Poi) :
  In p (dedupePois pois) -> In p pois.
Proof. rewrite dedupePois_from. intros H. now apply dedupe_from_In in H. Qed.


Lemma dedupe_from_NoDup (pois : list Poi) :
  forall seen, NoDup (map key_of (dedupe_from seen pois)).
Proof.
  induction pois as [|q rest IH]; intros seen; simpl; [constructor|].
  destruct (has seen (key_of q)) eqn:Hq; [apply IH|].
  simpl. constructor; [|apply IH].
  intros Hin. apply in_map_iff in Hin. destruct Hin as [p [Hk Hp]].
  apply dedupe_from_In in Hp. destruct Hp as [_ Hp]. apply Hp.
  rewrite Hk. now left.
Qed.

(** A feature that [readFeature] keeps has finite coordinates and a name
    that is not empty. *)
Lemma readFeature_Some (f : Feature) (p : Poi) :
  readFeature f = Some p -> finite_poi p /\ name p <> EmptyString.
Proof.
  unfold readFeature. destruct (geometry f) as [g|]; [|discriminate].
  destruct (negb (g_type g =? "Point")); [discriminate|].
  set (coords := match coordinates g with Some c => c | None => [] end).
  destruct (Number_isFinite (nth 0 coords VUndefined)) eqn:H0; [|discriminate].
  destruct (Number_isFinite (nth 1 coords VUndefined)) eqn:H1; [|discriminate].
  simpl.
  match goal with |- context [String.eqb ?n EmptyString] => destruct (String.eqb n EmptyString) eqn:Hn end;
    [discriminate|].
  intros E; injection E as <-. simpl. apply String.eqb_neq in Hn.
  split; [|assumption]. split.
  - destruct (nth 0 coords VUndefined); simpl in *; congruence.
  - destruct (nth 1 coords VUndefined); simpl in *; congruence.
Qed.

Lemma readFeatures_In (feats : list Feature) (p : Poi) :
  In p (readFeatures feats) <->
  exists f, In f feats /\ readFeature f = Some p.
Proof.
  induction feats as [|f rest IH]; simpl.
  - split; [easy|]. now intros [f [[] _]].
  - destruct (readFeature f) as [q|] eqn:Hf; simpl; rewrite IH; split.
    + intros [->|[f' [Hin Hr]]]; [exists f; auto|exists f'; auto].
    + intros [f' [[->|Hin] Hr]]; [left; congruence|right; exists f'; auto].
    + intros [f' [Hin Hr]]; exists f'; auto.
    + intros [f' [[->|Hin] Hr]]; [congruence|exists f'; auto].
Qed.

Lemma readGeoPoints_finite (file : DataFile) (pois : list Poi) (p : Poi) :
  readGeoPoints file = Normal pois -> In p pois ->
  finite_poi p /\ name p <> EmptyString.
Proof.
  destruct file as [| | | |raw]; simpl; intros E; try discriminate;
    injection E as <-; intros Hin; try easy.
  apply dedupePois_In, readFeatures_In in Hin. destruct Hin as [f [_ Hf]].
  now apply readFeature_Some in Hf.
Qed.

(** *** Running [ensureLoaded] *)

Lemma ensureLoaded_cached (DATA : DataDir) (L : Layers) :
  ensureLoaded DATA (Some L) = Normal (L, Some L).
Proof. reflexivity. Qed.

(** A first call returns normally exactly when the four files load, and
    then stores the catalog it returns. *)
Lemma ensureLoaded_fresh (DATA : DataDir) (L : Layers) (LAYERS' : option Layers) :
  ensureLoaded DATA None = Normal (L, LAYERS') <->
  exists shelter school healthA healthB,
    readGeoPoints (FILES_shelter DATA) = Normal shelter
    /\ readGeoPoints (FILES_school DATA) = Normal school
    /\ readGeoPoints (FILES_health DATA) = Normal healthA
    /\ readGeoPoints (FILES_hospital DATA) = Normal healthB
    /\ L = {| L_shelter := shelter; L_school := school;
              L_health := dedupePois (healthA ++ healthB) |}
    /\ LAYERS' = Some L.
Proof.
  unfold ensureLoaded, bind, get_LAYERS, lift, set_LAYERS, ret.
  destruct (readGeoPoints (FILES_shelter DATA)) as [s|e1];
    [|split; [discriminate | intros (?&?&?&?&?&_); discriminate]].
  destruct (readGeoPoints (FILES_school DATA)) as [c|e2];
    [|split; [discriminate | intros (?&?&?&?&_&?&_); discriminate]].
  destruct (readGeoPoints (FILES_health DATA)) as [a|e3];
    [|split; [discriminate | intros (?&?&?&?&_&_&?&_); discriminate]].
  destruct (readGeoPoints (FILES_hospital DATA)) as [b|e4];
    [|split; [discriminate | intros (?&?&?&?&_&_&_&?&_); discriminate]].
  split.
  - intros E; injection E as <- <-. now exists s, c, a, b.
  - intros (s'&c'&a'&b'&Es&Ec&Ea&Eb&->&->).
    injection Es as <-; injection Ec as <-; injection Ea as <-; injection Eb as <-.
    reflexivity.
Qed.

(** Whatever [LAYERS] held, a normal return leaves the returned catalog
    in it. *)
Lemma ensureLoaded_post (DATA : DataDir) (LAYERS LAYERS' : option Layers) (L : Layers) :
  ensureLoaded DATA LAYERS = Normal (L, LAYERS') -> LAYERS' = Some L.
Proof.
  destruct LAYERS as [L0|].
  - rewrite ensureLoaded_cached. intros E; injection E as <- <-. reflexivity.
  - intros H. apply ensureLoaded_fresh in H. now destruct H as (?&?&?&?&_&_&_&_&_&?).
Qed.

Lemma loaded_ensureLoaded (DATA : DataDir) (LAYERS : option Layers) (L : Layers) :
  loaded DATA LAYERS L -> ensureLoaded DATA LAYERS = Normal (L, Some L).
Proof. intros [H [->| ->]]; [assumption | apply ensureLoaded_cached]. Qed.

Lemma loaded_after (DATA : DataDir) (LAYERS : option Layers) (L : Layers) :
  loaded DATA LAYERS L -> loaded DATA (Some L) L.
Proof. intros [H _]; split; auto. Qed.

Lemma loaded_finite (DATA : DataDir) (LAYERS : option Layers) (L : Layers) (p : Poi) :
  loaded DATA LAYERS L -> In p (all_pois L) -> finite_poi p /\ name p <> EmptyString.
Proof.
  intros [H _]. apply ensureLoaded_fresh in H.
  destruct H as (s&c&a&b&Hs&Hc&Ha&Hb&->&_). unfold all_pois; simpl.
  rewrite !in_app_iff. intros [Hin|[Hin|Hin]].
  - eapply readGeoPoints_finite; [exact Hs | exact Hin].
  - eapply readGeoPoints_finite; [exact Hc | exact Hin].
  - apply dedupePois_In in Hin. apply in_app_iff in Hin. destruct Hin as [Hin|Hin].
    + eapply readGeoPoints_finite; [exact Ha | exact Hin].
    + eapply readGeoPoints_finite; [exact Hb | exact Hin].
Qed.

Lemma nearbyPois_run (DATA : DataDir) (LAYERS : option Layers) (L : Layers)
  (lon lat : num) (radiusMeters topN : option num) :
  loaded DATA LAYERS L ->
  nearbyPois DATA lon lat radiusMeters topN LAYERS
  = Normal (nearbyPois_of L lon lat
              (match radiusMeters with Some r => r | None => Fin 1500 end)
              (match topN with Some n => n | None => Fin 25 end),
            Some L).
Proof.
  intros H. unfold nearbyPois, bind. rewrite (loaded_ensureLoaded H). reflexivity.
Qed.

(** What [scorePoint] returns once the catalog is [L]. *)
Lemma scorePoint_run (DATA : DataDir) (LAYERS : option Layers) (L : Layers)
  (params : ScoreParams) :
  loaded DATA LAYERS L ->
  let radiusMeters :=
    match sp_radiusMeters params with Some r => r | None => Fin 1500 end in
  let topN := match sp_topN params with Some n => n | None => Fin 25 end in
  let result :=
    scorePoint_result
      (nearbyPois_of L (sp_lon params) (sp_lat params) radiusMeters topN)
      (sp_lon params) (sp_lat params) radiusMeters topN in
  scorePoint DATA params LAYERS
  = Normal (match sp_includeDiagnostics params with
            | Some true => with_diagnostics result (diagnostics_of L)
            | _ => result
            end, Some L).
Proof.
  intros H. unfold scorePoint, bind. rewrite (nearbyPois_run _ _ _ _ H).
  destruct (sp_includeDiagnostics params) as [[|]|]; reflexivity.
Qed.

(** A feature with a coordinate that is not a finite number is skipped. *)
Lemma readFeature_nonfinite (f : Feature) :
  Number_isFinite (coordinate 0 f) = false
  \/ Number_isFinite (coordinate 1 f) = false ->
  readFeature f = None.
Proof.
  unfold coordinate, readFeature. destruct (geometry f) as [g|]; [|reflexivity].
  destruct (negb (g_type g =? "Point")); [reflexivity|].
  intros [H|H]; rewrite H; [reflexivity|].
  now rewrite orb_true_r.
Qed.

(** [scorePoint] and [nearbyPois] throw only what [ensureLoaded] throws. *)
Lemma nearbyPois_throw (DATA : DataDir) (LAYERS : option Layers)
  (lon lat : num) (radiusMeters topN : option num) (e : string) :
  nearbyPois DATA lon lat radiusMeters topN LAYERS = Throw e ->
  ensureLoaded DATA LAYERS = Throw e.
Proof.
  unfold nearbyPois, bind, ret.
  destruct (ensureLoaded DATA LAYERS) as [[L c]|e']; [discriminate|].
  intros H; injection H as ->. reflexivity.
Qed.

Lemma scorePoint_throw (DATA : DataDir) (LAYERS : option Layers)
  (params : ScoreParams) (e : string) :
  scorePoint DATA params LAYERS = Throw e ->
  ensureLoaded DATA LAYERS = Throw e.
Proof.
  unfold scorePoint, nearbyPois, bind, ret.
  destruct (ensureLoaded DATA LAYERS) as [[L c]|e'] eqn:E;
    [|intros H; injection H as ->; reflexivity].
  apply ensureLoaded_post in E. subst c.
  destruct (sp_includeDiagnostics params) as [[|]|]; discriminate.
Qed.

Lemma scorePoint_weights (DATA : DataDir) (LAYERS LAYERS' : option Layers)
  (params : ScoreParams) (res : ScoreResult) :
  scorePoint DATA params LAYERS = Normal (res, LAYERS') ->
  rp_weights (res_params res) = WEIGHTS.
Proof.
  unfold scorePoint, nearbyPois, bind, ret.
  destruct (ensureLoaded DATA LAYERS) as [[L c]|e'] eqn:E; [|discriminate].
  apply ensureLoaded_post in E. subst c.
  destruct (sp_includeDiagnostics params) as [[|]|];
    rewrite ?ensureLoaded_cached; intros H; injection H as <- _; reflexivity.
Qed.

Lemma no_data_loaded : loaded Sample.no_data None Sample.empty_catalog.
Proof.
  split; [|now left]. apply ensureLoaded_fresh. exists [], [], [], [].
  repeat split; reflexivity.
Qed.

(** *** Lists without repeated keys *)

Lemma dedupe_from_ext (pois : list Poi) :
  forall seen seen',
    (forall k, In k seen <-> In k seen') ->
    dedupe_from seen pois = dedupe_from seen' pois.
Proof.
  induction pois as [|p rest IH]; intros seen seen' H; [reflexivity|].
  cbn [dedupe_from].
  assert (E : has seen (key_of p) = has seen' (key_of p)).
  { destruct (has seen' (key_of p)) eqn:E'.
    - apply has_true. apply H. now apply has_true.
    - apply has_false. intros Hin. apply has_false in E'. apply E'. now apply H. }
  rewrite E. destruct (has seen' (key_of p)).
  - now apply IH.
  - f_equal. apply IH. intros k. simpl. rewrite H. reflexivity.
Qed.

(** On a list without repeated keys, [dedupe_from] is the filter that drops
    the keys already seen. *)
Lemma dedupe_from_NoDup_filter (pois : list Poi) :
  forall seen,
    NoDup (map key_of pois) ->
    dedupe_from seen pois = filter (fun p => negb (has seen (key_of p))) pois.
Proof.
  induction pois as [|p rest IH]; intros seen Hnd; [reflexivity|].
  inversion Hnd as [|? ? Hp Hrest]; subst. cbn [dedupe_from filter].
  destruct (has seen (key_of p)) eqn:E; cbn [negb].
  - now apply IH.
  - f_equal. rewrite IH by assumption. apply filter_ext_in. intros q Hq.
    f_equal.
    destruct (has seen (key_of q)) eqn:Eq.
    + apply has_true. right. now apply has_true.
    + apply has_false. intros [Hk|Hin].
      * apply Hp. rewrite Hk. now apply in_map.
      * apply has_false in Eq. contradiction.
Qed.

Lemma dedupe_from_app (a b : list Poi) :
  forall seen,
    dedupe_from seen (a ++ b)
    = dedupe_from seen a
      ++ dedupe_from (map key_of (dedupe_from seen a) ++ seen) b.
Proof.
  induction a as [|p rest IH]; intros seen; [reflexivity|].
  cbn [app dedupe_from]. destruct (has seen (key_of p)) eqn:E.
  - apply IH.
  - cbn [app map]. f_equal. rewrite IH. f_equal.
    apply dedupe_from_ext. intros k. rewrite !in_app_iff. simpl.
    rewrite in_app_iff. tauto.
Qed.

Lemma filter_all_true (A : Type) (f : A -> bool) (l : list A) :
  (forall a, In a l -> f a = true) -> filter f l = l.
Proof.
  intros H. induction l as [|a rest IH]; simpl; [reflexivity|].
  rewrite (H a) by now left. f_equal. apply IH. intros b Hb. apply H. now right.
Qed.

Lemma filter_all_false (A : Type) (f : A -> bool) (l : list A) :
  (forall a, In a l -> f a = false) -> filter f l = [].
Proof.
  intros H. induction l as [|a rest IH]; simpl; [reflexivity|].
  rewrite (H a) by now left. apply IH. intros b Hb. apply H. now right.
Qed.

Lemma dedupePois_NoDup_id (pois : list Poi) :
  NoDup (map key_of pois) -> dedupePois pois = pois.
Proof.
  intros H. rewrite dedupePois_from, dedupe_from_NoDup_filter by assumption.
  apply filter_all_true. intros p _. reflexivity.
Qed.

Lemma dedupePois_NoDup (pois : list Poi) : NoDup (map key_of (dedupePois pois)).
Proof. rewrite dedupePois_from. apply dedupe_from_NoDup. Qed.

End LoaderFacts.

(* ================================================================== *)
(** * Part V.  The spatial query                                       *)
(* ================================================================== *)

Module QueryFacts.

Import JS Spec PoiIndex JSFacts GeoFacts.
Local Open Scope R_scope.

(** *** Sorting *)

Lemma sort_insert_perm (A : Type) (cmp : A -> A -> num) (a : A) (l : list A) :
  Permutation (sort_insert cmp a l) (a :: l).
Proof.
  induction l as [|b rest IH]; cbn [sort_insert]; [reflexivity|].
  destruct (gt (cmp a b) (Fin 0)); [|reflexivity].
  rewrite IH. apply perm_swap.
Qed.

Lemma sort_perm (A : Type) (cmp : A -> A -> num) (l : list A) :
  Permutation (sort cmp l) l.
Proof.
  induction l as [|a rest IH]; simpl; [reflexivity|].
  rewrite sort_insert_perm. now constructor.
Qed.

Lemma byDistance_gt (a b : PoiNear) (x y : R) :
  distance_m a = Fin x -> distance_m b = Fin y ->
  gt (byDistance a b) (Fin 0) = Rltb y x.
Proof.
  intros Ha Hb. unfold byDistance. rewrite Ha, Hb, sub_Fin.
  unfold gt, lt. rdec.
Qed.

Lemma dist_le_Fin (a b : PoiNear) (x y : R) :
  distance_m a = Fin x -> distance_m b = Fin y -> (dist_le a b <-> x <= y).
Proof. intros Ha Hb. unfold dist_le. rewrite Ha, Hb. apply le_Fin. Qed.

Lemma dist_le_trans (a b c : PoiNear) :
  finite_distance a -> finite_distance b -> finite_distance c ->
  dist_le a b -> dist_le b c -> dist_le a c.
Proof.
  intros [x [Hx _]] [y [Hy _]] [z [Hz _]].
  rewrite (dist_le_Fin _ _ Hx Hy), (dist_le_Fin _ _ Hy Hz), (dist_le_Fin _ _ Hx Hz).
  lra.
Qed.

Lemma sort_insert_sorted (a : PoiNear) (l : list PoiNear) :
  finite_distance a -> Forall finite_distance l ->
  StronglySorted dist_le l ->
  StronglySorted dist_le (sort_insert byDistance a l).
Proof.
  intros Ha Hl Hs. induction Hs as [|b rest Hrest IH Hb]; cbn [sort_insert].
  - repeat constructor.
  - inversion Hl as [|? ? Hfb Hfrest]; subst.
    destruct Ha as [x [Hx Hx0]]. destruct Hfb as [y [Hy Hy0]].
    rewrite (byDistance_gt _ _ Hx Hy).
    destruct (Rltb y x) eqn:Hyx.
    + apply Rltb_true in Hyx. constructor.
      * now apply IH.
      * eapply Permutation_Forall; [symmetry; apply sort_insert_perm|].
        constructor; [|assumption].
        apply (dist_le_Fin _ _ Hy Hx). lra.
    + apply Rltb_false in Hyx.
      assert (Hab : dist_le a b) by (apply (dist_le_Fin _ _ Hx Hy); lra).
      constructor; [now constructor|]. constructor; [assumption|].
      rewrite Forall_forall in Hb, Hfrest |- *. intros c Hc.
      apply dist_le_trans with b; auto; [exists x; auto | exists y; auto].
Qed.

Lemma sort_finite (l : list PoiNear) :
  Forall finite_distance l -> Forall finite_distance (sort byDistance l).
Proof.
  intros H. eapply Permutation_Forall; [symmetry; apply sort_perm | assumption].
Qed.

(** On finite distances [sort] returns the list in ascending order. *)
Lemma sort_sorted (l : list PoiNear) :
  Forall finite_distance l -> StronglySorted dist_le (sort byDistance l).
Proof.
  induction l as [|a rest IH]; intros H; simpl; [constructor|].
  inversion H; subst.
  apply sort_insert_sorted; auto. now apply sort_finite.
Qed.

Lemma filter_sorted (f : PoiNear -> bool) (l : list PoiNear) :
  StronglySorted dist_le l -> StronglySorted dist_le (filter f l).
Proof.
  induction 1 as [|a rest Hrest IH Ha]; simpl; [constructor|].
  destruct (f a); [|assumption]. constructor; [assumption|].
  rewrite Forall_forall in Ha |- *. intros b Hb. apply filter_In in Hb. now apply Ha.
Qed.

Lemma filter_perm (A : Type) (f : A -> bool) (l l' : list A) :
  Permutation l l' -> Permutation (filter f l) (filter f l').
Proof.
  induction 1; simpl.
  - reflexivity.
  - destruct (f x); [now constructor | assumption].
  - destruct (f x), (f y); try reflexivity. apply perm_swap.
  - etransitivity; eassumption.
Qed.

(** *** [slice(0, topN)] *)

Lemma truncate_IZR (n : Z) : truncate (IZR n) = n.
Proof.
  unfold truncate. destruct (Rltb (IZR n) 0) eqn:H.
  - rewrite <- opp_IZR, ZfloorZ. lia.
  - apply ZfloorZ.
Qed.

Lemma slice0_nat (A : Type) (arr : list A) (n : Z) :
  (0 <= n)%Z -> slice0 arr (Fin (IZR n)) = firstn (Z.to_nat n) arr.
Proof.
  intros Hn. unfold slice0. rewrite truncate_IZR.
  destruct (n <? 0)%Z eqn:E; [lia | reflexivity].
Qed.

Lemma firstn_In (A : Type) (n : nat) (l : list A) (a : A) :
  In a (firstn n l) -> In a l.
Proof.
  intros H. rewrite <- (firstn_skipn n l). apply in_or_app. now left.
Qed.

(** A negative end counts from the end of the array: [slice(0, -k)] drops
    the last [k] elements. *)
Lemma slice0_negative (A : Type) (arr : list A) (k : Z) :
  (0 < k)%Z ->
  slice0 arr (Fin (IZR (- k)))
  = firstn (Z.to_nat (Z.max (Z.of_nat (List.length arr) - k) 0)) arr.
Proof.
  intros Hk. unfold slice0. rewrite truncate_IZR.
  destruct (- k <? 0)%Z eqn:E; [|lia]. reflexivity.
Qed.

Lemma slice0_incl (A : Type) (arr : list A) (end_ : num) (a : A) :
  In a (slice0 arr end_) -> In a arr.
Proof.
  destruct end_; simpl; try easy.
  destruct (truncate x <? 0)%Z; apply firstn_In.
Qed.

Lemma slice0_nil (A : Type) (end_ : num) : slice0 (@nil A) end_ = [].
Proof.
  destruct end_; simpl; try reflexivity.
  destruct (truncate x <? 0)%Z; apply firstn_nil.
Qed.

Lemma hd_error_In (A : Type) (l : list A) (a : A) :
  hd_error l = Some a -> In a l.
Proof. destruct l; simpl; [discriminate|]. intros E; injection E as ->. now left. Qed.

Lemma hd_error_firstn (A : Type) (l : list A) (n : nat) :
  (1 <= n)%nat -> hd_error (firstn n l) = hd_error l.
Proof. destruct n; [lia|]. now destruct l. Qed.

(** *** Distances *)


Lemma withDistances_In (kind : Kind) (arr : list Poi) (lon lat : num) (q : PoiNear) :
  In q (withDistances kind arr lon lat) <->
  exists p, In p arr /\ q = {| poi := p; distance_m := distance_to lon lat p; kind := kind |}.
Proof.
  unfold withDistances. rewrite in_map_iff. split; intros [p [H1 H2]]; exists p; auto.
Qed.

(** Every distance is [NaN] or finite and non-negative. *)
Lemma distance_to_cases (lon lat : num) (p : Poi) :
  distance_to lon lat p = NaN
  \/ exists d : R, distance_to lon lat p = Fin d /\ 0 <= d.
Proof.
  unfold distance_to.
  destruct (haversineMeters_cases lon lat (PoiIndex.lon p) (PoiIndex.lat p))
    as [H|[d [H [H0 _]]]]; [now left | right; now exists d].
Qed.

Lemma distance_to_measured (lon lat : num) (p : Poi) :
  measured lon lat p -> exists d : R, distance_to lon lat p = Fin d /\ 0 <= d.
Proof.
  intros H. destruct (distance_to_cases lon lat p) as [E|E]; [contradiction | exact E].
Qed.



Lemma distance_to_nonfinite_origin (lon lat : num) (p : Poi) :
  isFinite lon && isFinite lat = false -> distance_to lon lat p = NaN.
Proof.
  intros H. apply haversineMeters_nonfinite.
  destruct (isFinite lon), (isFinite lat); simpl in *; congruence.
Qed.

Lemma withDistances_finite (kind : Kind) (arr : list Poi) (lon lat : num) :
  Forall (measured lon lat) arr ->
  Forall finite_distance (withDistances kind arr lon lat).
Proof.
  intros H. rewrite Forall_forall in H |- *. intros q Hq.
  apply withDistances_In in Hq. destruct Hq as [p [Hp ->]].
  apply distance_to_measured. now apply H.
Qed.

(** *** [withinRadius] *)

Lemma withinRadius_In (l : list PoiNear) (radiusMeters : num) (p : PoiNear) :
  In p (withinRadius l radiusMeters) <->
  In p l /\ le (distance_m p) radiusMeters = true.
Proof. apply filter_In. Qed.

Lemma withinRadius_none (l : list PoiNear) (radiusMeters : num) :
  (forall p, In p l -> le (distance_m p) radiusMeters = false) ->
  withinRadius l radiusMeters = [].
Proof.
  intros H. unfold withinRadius. induction l as [|a rest IH]; simpl; [reflexivity|].
  rewrite (H a) by now left. apply IH. intros p Hp. apply H. now right.
Qed.

(** A distance is never below zero: a negative radius keeps nothing. *)
Lemma distance_gt_negative (lon lat : num) (p : Poi) (r : R) :
  r < 0 -> le (distance_to lon lat p) (Fin r) = false.
Proof.
  intros Hr. destruct (distance_to_cases lon lat p) as [->|[d [-> Hd]]].
  - reflexivity.
  - apply Rleb_false. lra.
Qed.

Lemma le_nonfinite_radius (d : num) (r : num) :
  r = NaN \/ r = NInf -> (d = NaN \/ exists x, d = Fin x) -> le d r = false.
Proof.
  intros [-> | ->] [-> | [x ->]]; reflexivity.
Qed.

Lemma sorted_withDistances_In (kind : Kind) (arr : list Poi) (lon lat : num) (q : PoiNear) :
  In q (sort byDistance (withDistances kind arr lon lat)) <->
  exists p, In p arr /\ q = {| poi := p; distance_m := distance_to lon lat p; kind := kind |}.
Proof.
  rewrite <- withDistances_In. split; apply Permutation_in;
    [apply sort_perm | symmetry; apply sort_perm].
Qed.

(** With a non-finite origin every distance is [NaN] and nothing is within
    any radius, whatever order [sort] left the list in. *)
Lemma withinRadius_nonfinite_origin (kind : Kind) (arr : list Poi)
  (lon lat radiusMeters : num) :
  isFinite lon && isFinite lat = false ->
  withinRadius (sort byDistance (withDistances kind arr lon lat)) radiusMeters = [].
Proof.
  intros H. apply withinRadius_none. intros q Hq.
  apply sorted_withDistances_In in Hq. destruct Hq as [p [_ ->]]. simpl.
  now rewrite distance_to_nonfinite_origin.
Qed.

Lemma withinRadius_negative (kind : Kind) (arr : list Poi) (lon lat : num) (r : R) :
  r < 0 ->
  withinRadius (sort byDistance (withDistances kind arr lon lat)) (Fin r) = [].
Proof.
  intros H. apply withinRadius_none. intros q Hq.
  apply sorted_withDistances_In in Hq. destruct Hq as [p [_ ->]]. simpl.
  now apply distance_gt_negative.
Qed.

(** The number of points kept by [withinRadius] is the number of points of
    the layer within the radius. *)
Lemma withinRadius_length (kind : Kind) (arr : list Poi) (lon lat radiusMeters : num) :
  List.length (withinRadius (sort byDistance (withDistances kind arr lon lat))
                            radiusMeters)
  = List.length (inRadius arr lon lat radiusMeters).
Proof.
  unfold withinRadius.
  rewrite (Permutation_length (filter_perm _ (sort_perm byDistance _))).
  unfold withDistances, inRadius. clear.
  induction arr as [|p rest IH]; simpl; [reflexivity|].
  destruct (le (distance_to lon lat p) radiusMeters) eqn:E;
    unfold distance_to in E; rewrite E; simpl; now rewrite IH.
Qed.

Lemma lt_not_le (a b : num) : lt a b = true -> le b a = false.
Proof. destruct a, b; simpl; try congruence; rdec. Qed.

Lemma category_list_negative (kind : Kind) (arr : list Poi) (lon lat topN : num) (r : R) :
  r < 0 -> category_list kind arr lon lat (Fin r) topN = [].
Proof.
  intros H. unfold category_list. rewrite withinRadius_negative by assumption.
  apply slice0_nil.
Qed.

Lemma category_list_nonfinite_origin (kind : Kind) (arr : list Poi)
  (lon lat radiusMeters topN : num) :
  isFinite lon && isFinite lat = false ->
  category_list kind arr lon lat radiusMeters topN = [].
Proof.
  intros H. unfold category_list. rewrite withinRadius_nonfinite_origin by assumption.
  apply slice0_nil.
Qed.

Lemma category_list_degenerate (kind : Kind) (arr : list Poi)
  (lon lat radiusMeters topN : num) :
  degenerate_query lon lat radiusMeters ->
  category_list kind arr lon lat radiusMeters topN = [].
Proof.
  intros [H|[r [-> H]]].
  - now apply category_list_nonfinite_origin.
  - now apply category_list_negative.
Qed.

(** *** The nearest point of the whole layer *)








(** *** What a query surfaces *)

Lemma category_list_In (kind : Kind) (arr : list Poi)
  (lon lat radiusMeters topN : num) (q : PoiNear) :
  In q (category_list kind arr lon lat radiusMeters topN) ->
  In (poi q) arr
  /\ q = {| poi := poi q; distance_m := distance_to lon lat (poi q); kind := kind |}
  /\ le (distance_m q) radiusMeters = true.
Proof.
  unfold category_list. intros H. apply slice0_incl, withinRadius_In in H.
  destruct H as [H Hle]. apply sorted_withDistances_In in H.
  destruct H as [p [Hp ->]]. simpl. auto.
Qed.

Lemma nearbyPois_of_list (k : Kind) (L : Layers) (lon lat radiusMeters topN : num) :
  nearby_list k (nearbyPois_of L lon lat radiusMeters topN)
  = category_list k (layer k L) lon lat radiusMeters topN.
Proof. destruct k; reflexivity. Qed.

Lemma nearbyPois_of_all (L : Layers) (lon lat radiusMeters topN : num) (q : PoiNear) :
  In q (all (nearbyPois_of L lon lat radiusMeters topN)) ->
  exists k, In q (category_list k (layer k L) lon lat radiusMeters topN).
Proof.
  unfold nearbyPois_of; cbn [all]. intros H.
  apply (Permutation_in _ (sort_perm byDistance _)) in H.
  rewrite !in_app_iff in H. destruct H as [H|[H|H]];
    [exists KShelter | exists KSchool | exists KHealth]; exact H.
Qed.

Lemma layer_all_pois (k : Kind) (L : Layers) (p : Poi) :
  In p (layer k L) -> In p (all_pois L).
Proof.
  unfold all_pois. rewrite !in_app_iff. destruct k; simpl; auto.
Qed.

Lemma scorePoint_result_category (k : Kind) (nearby : NearbyResult)
  (lon lat radiusMeters topN : num) :
  category k (scorePoint_result nearby lon lat radiusMeters topN)
  = summary (nearby_list k nearby).
Proof. destruct k; reflexivity. Qed.

Lemma with_diagnostics_category (k : Kind) (res : ScoreResult) (d : Diagnostics) :
  category k (with_diagnostics res d) = category k res.
Proof. destruct k; reflexivity. Qed.

End QueryFacts.

(* ================================================================== *)
(** * Part VI.  The scoring formula                                    *)
(* ================================================================== *)

Module ScoreFacts.

Import JS Spec PoiIndex JSFacts GeoFacts LoaderFacts QueryFacts.
Local Open Scope R_scope.

(** What a normal return of [scorePoint] holds, category by category. *)
Lemma scorePoint_inv (DATA : DataDir) (LAYERS LAYERS' : option Layers) (L : Layers)
  (params : ScoreParams) (res : ScoreResult) :
  loaded DATA LAYERS L ->
  scorePoint DATA params LAYERS = Normal (res, LAYERS') ->
  LAYERS' = Some L
  /\ (forall k, category k res
                = summary (category_list k (layer k L) (sp_lon params) (sp_lat params)
                                         (radius_of params) (topN_of params)))
  /\ score res = clamp01 (rawScore (radius_of params) (res_shelters res)
                                   (res_schools res) (res_healths res))
  /\ rp_weights (res_params res) = WEIGHTS.
Proof.
  intros Hl Hrun. rewrite (scorePoint_run params Hl) in Hrun.
  cbv zeta in Hrun. injection Hrun as <- <-.
  fold (radius_of params) (topN_of params).
  split; [reflexivity|].
  destruct (sp_includeDiagnostics params) as [[|]|]; repeat split;
    try (intros k; rewrite ?with_diagnostics_category, scorePoint_result_category,
           nearbyPois_of_list; reflexivity).
Qed.

(** Once the catalog loads, [scorePoint] returns normally on every query. *)
Lemma scorePoint_returns (DATA : DataDir) (LAYERS : option Layers) (L : Layers)
  (params : ScoreParams) :
  loaded DATA LAYERS L ->
  exists res, scorePoint DATA params LAYERS = Normal (res, Some L).
Proof.
  intros Hl. eexists. apply (scorePoint_run params Hl).
Qed.

Lemma nearbyPois_inv (DATA : DataDir) (LAYERS LAYERS' : option Layers) (L : Layers)
  (lon lat : num) (radiusMeters topN : option num) (res : NearbyResult) :
  loaded DATA LAYERS L ->
  nearbyPois DATA lon lat radiusMeters topN LAYERS = Normal (res, LAYERS') ->
  res = nearbyPois_of L lon lat
          (match radiusMeters with Some r => r | None => Fin 1500 end)
          (match topN with Some n => n | None => Fin 25 end)
  /\ LAYERS' = Some L.
Proof.
  intros Hl Hrun. rewrite (nearbyPois_run _ _ _ _ Hl) in Hrun.
  injection Hrun as <- <-. auto.
Qed.

Lemma countNorm_Fin (n : nat) : countNorm n = Fin (INR n / (INR n + 4)).
Proof.
  unfold countNorm, of_nat, COUNT_SAT_K. rewrite add_Fin.
  pose proof (pos_INR n). apply div_Fin. lra.
Qed.

Lemma countNorm_0 : countNorm 0 = Fin 0.
Proof. rewrite countNorm_Fin. simpl. f_equal. lra. Qed.

Lemma countNorm_bounds (n : nat) : 0 <= INR n / (INR n + 4) < 1.
Proof.
  pose proof (pos_INR n) as Hn.
  assert (H4 : 0 < INR n + 4) by lra. split.
  - apply Rmult_le_pos; [assumption|]. left. now apply Rinv_0_lt_compat.
  - apply (Rmult_lt_reg_r (INR n + 4)); [assumption|].
    unfold Rdiv. rewrite Rmult_assoc, Rinv_l by lra. lra.
Qed.

Lemma countNorm_mono (n m : nat) :
  (n <= m)%nat -> INR n / (INR n + 4) <= INR m / (INR m + 4).
Proof.
  intros H. apply le_INR in H.
  pose proof (pos_INR n) as Hn. pose proof (pos_INR m) as Hm.
  apply (Rmult_le_reg_r ((INR n + 4) * (INR m + 4))); [nra|].
  replace (INR n / (INR n + 4) * ((INR n + 4) * (INR m + 4)))
    with (INR n * (INR m + 4)) by (field; lra).
  replace (INR m / (INR m + 4) * ((INR n + 4) * (INR m + 4)))
    with (INR m * (INR n + 4)) by (field; lra).
  nra.
Qed.

Lemma MIX_PROX_Fin : MIX_PROX = Fin (1 - 0.8).
Proof. unfold MIX_PROX, MIX_COUNTS. apply sub_Fin. Qed.

Lemma clamp01_Fin (x : R) : clamp01 (Fin x) = Fin (Rmax 0 (Rmin 1 x)).
Proof. unfold clamp01. now rewrite min_Fin, max_Fin. Qed.

Lemma clamp01_NaN : clamp01 NaN = NaN.
Proof. reflexivity. Qed.

Lemma clamp01_unit (x : R) : 0 <= x <= 1 -> clamp01 (Fin x) = Fin x.
Proof.
  intros H. rewrite clamp01_Fin. f_equal. unfold Rmax, Rmin; rdec.
Qed.

Lemma clampR_unit (x : R) : 0 <= Rmax 0 (Rmin 1 x) <= 1.
Proof. unfold Rmax, Rmin; rdec. Qed.

(** [clamp01] lets [NaN] through and sends everything else to [0, 1]. *)
Lemma clamp01_cases (a : num) :
  (a = NaN /\ clamp01 a = NaN) \/ unit_interval (clamp01 a).
Proof.
  destruct a as [| | |x].
  - now left.
  - right. exists 1. split; [|lra]. unfold clamp01; simpl; rdec.
  - right. exists 0. split; [|lra]. unfold clamp01; simpl; rdec.
  - right. rewrite clamp01_Fin. eexists; split; [reflexivity|apply clampR_unit].
Qed.

Lemma prox_nonfinite (r d : num) : isFinite d = false -> prox r d = Fin 0.
Proof. intros H. unfold prox. now rewrite H. Qed.

(** The proximity curve for a radius that is finite and not zero. *)
Lemma prox_Fin (r d : R) :
  r <> 0 -> prox (Fin r) (Fin d) = Fin (pow13 (Rmax 0 (Rmin 1 (1 - d / r)))).
Proof.
  intros Hr. unfold prox; simpl isFinite; cbn [negb].
  rewrite div_Fin, sub_Fin, clamp01_Fin by assumption.
  apply pow_13. apply clampR_unit.
Qed.

(** With radius 0 the nearest point at distance 0 gives [0 / 0]. *)
Lemma prox_zero_radius : prox (Fin 0) (Fin 0) = NaN.
Proof.
  unfold prox; simpl isFinite; cbn [negb]. rewrite div_zero_zero.
  change (Math_pow NaN (Fin 1.3) = NaN).
  apply pow_NaN. intros E; apply Fin_inj in E; lra.
Qed.

Lemma pow_unit (a : num) :
  unit_interval a -> unit_interval (Math_pow a (Fin 1.3)).
Proof.
  intros [x [-> Hx]]. rewrite pow_13 by lra. eexists; split; [reflexivity|].
  now apply pow13_unit.
Qed.

(** [prox] returns [NaN] or a value of the unit interval. *)
Lemma prox_cases (r d : num) : prox r d = NaN \/ unit_interval (prox r d).
Proof.
  unfold prox. destruct (negb (isFinite d)).
  - right. exists 0. split; [reflexivity|lra].
  - cbv zeta. destruct (clamp01_cases (sub (Fin 1) (div d r))) as [[_ ->]|H].
    + left. apply pow_NaN. intros E; apply Fin_inj in E; lra.
    + right. now apply pow_unit.
Qed.

(** The mix of the two signals is a number of the unit interval. *)
Lemma mix_unit (n : nat) (p : R) :
  0 <= p <= 1 -> 0 <= 0.8 * (INR n / (INR n + 4)) + (1 - 0.8) * p <= 1.
Proof. intros Hp. pose proof (countNorm_bounds n). lra. Qed.

(** The category score is the product of the weight and the mix, an
    infinity where that product overflows. *)
Lemma categoryScore_overflow (w : R) (r : num) (n : nat) (d : num) (p : R) :
  prox r d = Fin p -> 0 <= p <= 1 ->
  categoryScore (Fin w) r n d
  = overflow (w * (0.8 * (INR n / (INR n + 4)) + (1 - 0.8) * p)).
Proof.
  intros Hp Hu. unfold categoryScore. rewrite Hp, countNorm_Fin, MIX_PROX_Fin.
  unfold MIX_COUNTS. pose proof (countNorm_bounds n) as Hc.
  pose proof OVERFLOW_gt as Ho.
  rewrite (@mul_Fin 0.8) by lra. rewrite (@mul_Fin (1 - 0.8)) by lra.
  rewrite add_Fin. reflexivity.
Qed.

Lemma categoryScore_Fin (w : R) (r : num) (n : nat) (d : num) (p : R) :
  prox r d = Fin p -> 0 <= p <= 1 -> 0 <= w < OVERFLOW ->
  categoryScore (Fin w) r n d
  = Fin (w * (0.8 * (INR n / (INR n + 4)) + (1 - 0.8) * p)).
Proof.
  intros Hp Hu Hw. rewrite (@categoryScore_overflow w r n d p Hp Hu).
  apply overflow_Fin. pose proof (mix_unit n Hu) as Hm. nra.
Qed.

Lemma categoryScore_NaN (w r : num) (n : nat) (d : num) :
  prox r d = NaN -> categoryScore w r n d = NaN.
Proof.
  intros Hp. unfold categoryScore. rewrite Hp, mul_NaN_r, add_NaN_r.
  apply mul_NaN_r.
Qed.

(** *** Bounds *)

(** The nearest distance of a category list: none, or a finite non-negative
    distance within the radius. *)
Lemma nearest_distance_category (kind : Kind) (arr : list Poi)
  (lon lat radiusMeters topN : num) :
  let c := summary (category_list kind arr lon lat radiusMeters topN) in
  (nearest c = None /\ nearest_distance c = PInf)
  \/ exists d : R, nearest_distance c = Fin d /\ 0 <= d
                   /\ le (Fin d) radiusMeters = true.
Proof.
  cbv zeta. unfold nearest_distance, summary; cbn [nearest].
  destruct (hd_error (category_list kind arr lon lat radiusMeters topN))
    as [q|] eqn:Hq; [right | now left].
  apply hd_error_In, category_list_In in Hq. destruct Hq as (_ & Hq & Hle).
  destruct (distance_to_cases lon lat (poi q)) as [E|[d [E Hd]]];
    rewrite Hq in Hle |- *; cbn [distance_m] in *; rewrite E in *.
  - discriminate.
  - exists d. auto.
Qed.

(** Within a radius that is not 0 the proximity sub-score is in [0, 1]. *)
Lemma prox_in_radius (radiusMeters : num) (d : R) :
  0 <= d -> le (Fin d) radiusMeters = true -> radiusMeters <> Fin 0 ->
  unit_interval (prox radiusMeters (Fin d)).
Proof.
  intros Hd Hle Hr. destruct radiusMeters as [| | |r]; try discriminate.
  - unfold prox; cbn. exists (pow13 (Rmax 0 (Rmin 1 (1 + - 0)))).
    split; [|apply pow13_unit, clampR_unit].
    change (Math_pow (clamp01 (Fin (1 + - 0))) (Fin 1.3) = Fin (pow13 (Rmax 0 (Rmin 1 (1 + - 0))))).
    rewrite clamp01_Fin. apply pow_13, clampR_unit.
  - assert (r <> 0) by congruence. rewrite prox_Fin by assumption.
    eexists; split; [reflexivity|]. apply pow13_unit, clampR_unit.
Qed.

Lemma categoryScore_bounds (w : R) (kind : Kind) (arr : list Poi)
  (lon lat radiusMeters topN : num) :
  0 <= w <= 1 -> radiusMeters <> Fin 0 ->
  let c := summary (category_list kind arr lon lat radiusMeters topN) in
  exists s : R,
    categoryScore (Fin w) radiusMeters (count c) (nearest_distance c) = Fin s
    /\ 0 <= s <= w.
Proof.
  intros Hw Hr c. pose proof OVERFLOW_gt as Ho.
  assert (Hp : unit_interval (prox radiusMeters (nearest_distance c))).
  { destruct (nearest_distance_category kind arr lon lat radiusMeters topN)
      as [[_ E]|[d (E & Hd & Hle)]]; fold c in E; rewrite E.
    - exists 0. split; [reflexivity|lra].
    - now apply prox_in_radius. }
  destruct Hp as [p [Hp Hp01]].
  rewrite (@categoryScore_Fin w _ (count c) _ p Hp Hp01) by lra.
  eexists; split; [reflexivity|].
  pose proof (countNorm_bounds (count c)). nra.
Qed.

(** For every radius other than 0 the total is in [0, 1], and the final
    [clamp01] leaves the sum of the three category scores as it is. *)
Lemma score_bounded (L : Layers) (lon lat radiusMeters topN : num) :
  radiusMeters <> Fin 0 ->
  let res := scorePoint_result (nearbyPois_of L lon lat radiusMeters topN)
                               lon lat radiusMeters topN in
  unit_interval (score res)
  /\ score res = rawScore radiusMeters (res_shelters res) (res_schools res)
                          (res_healths res).
Proof.
  intros Hr res.
  assert (E : score res = clamp01 (rawScore radiusMeters (res_shelters res)
                                           (res_schools res) (res_healths res)))
    by reflexivity.
  rewrite E. unfold rawScore. cbv zeta.
  change (res_shelters res) with (category KShelter res).
  change (res_schools res) with (category KSchool res).
  change (res_healths res) with (category KHealth res).
  unfold res. rewrite !scorePoint_result_category, !nearbyPois_of_list.
  destruct (@categoryScore_bounds 0.6 KShelter (layer KShelter L) lon lat
              radiusMeters topN ltac:(lra) Hr) as [s [Es Hs]].
  destruct (@categoryScore_bounds 0.25 KSchool (layer KSchool L) lon lat
              radiusMeters topN ltac:(lra) Hr) as [c [Ec Hc]].
  destruct (@categoryScore_bounds 0.15 KHealth (layer KHealth L) lon lat
              radiusMeters topN ltac:(lra) Hr) as [h [Eh Hh]].
  cbv zeta in Es, Ec, Eh. unfold WEIGHTS; cbn [w_shelter w_school w_health].
  rewrite Es, Ec, Eh, !add_Fin, clamp01_unit by lra.
  split; [|reflexivity]. eexists; split; [reflexivity|lra].
Qed.

(** *** Monotonicity *)

Lemma clampR_mono (a b : R) : a <= b -> Rmax 0 (Rmin 1 a) <= Rmax 0 (Rmin 1 b).
Proof. intros H. unfold Rmax, Rmin; rdec. Qed.

Lemma div_le_pos (x y r : R) : 0 < r -> x <= y -> x / r <= y / r.
Proof.
  intros Hr Hxy. unfold Rdiv. apply Rmult_le_compat_r; [|assumption].
  left. now apply Rinv_0_lt_compat.
Qed.

Lemma div_nonpos (x r : R) : r < 0 -> 0 <= x -> x / r <= 0.
Proof.
  intros Hr Hx. unfold Rdiv.
  assert (/ r < 0) by now apply Rinv_lt_0_compat. nra.
Qed.

Lemma prox_inf_radius (r : num) (d : R) :
  r = PInf \/ r = NInf -> prox r (Fin d) = Fin 1.
Proof.
  intros Hr. unfold prox; simpl isFinite; cbn [negb].
  replace (div (Fin d) r) with (Fin 0) by (destruct Hr; subst; reflexivity).
  rewrite sub_Fin, clamp01_Fin, pow_13 by apply clampR_unit.
  replace (Rmax 0 (Rmin 1 (1 - 0))) with 1 by (unfold Rmax, Rmin; rdec).
  now rewrite pow13_1.
Qed.

Lemma prox_zero_radius_pos (d : R) : 0 < d -> prox (Fin 0) (Fin d) = Fin 0.
Proof.
  intros Hd. unfold prox; simpl isFinite; cbn [negb].
  replace (div (Fin d) (Fin 0)) with PInf by (simpl; rdec).
  change (sub (Fin 1) PInf) with NInf.
  replace (clamp01 NInf) with (Fin 0) by (unfold clamp01; simpl; rdec).
  rewrite pow_13 by lra. now rewrite pow13_0.
Qed.

Lemma prox_NaN_radius (d : R) : prox NaN (Fin d) = NaN.
Proof.
  unfold prox; simpl isFinite; cbn [negb]. change (div (Fin d) NaN) with NaN.
  apply pow_NaN. intros E; apply Fin_inj in E; lra.
Qed.

Lemma lt_unit_zero (a : num) :
  a = NaN \/ unit_interval a -> lt a (Fin 0) = false.
Proof.
  intros [->|[x [-> Hx]]]; [reflexivity|]. apply Rltb_false. lra.
Qed.

(** A greater nearest distance never gives a greater proximity sub-score. *)
Lemma prox_antitone (r d1 d2 : num) :
  is_distance d1 -> is_distance d2 -> le d1 d2 = true ->
  lt (prox r d1) (prox r d2) = false.
Proof.
  intros H1 [->|[x2 [-> Hx2]]] Hle.
  - rewrite (prox_nonfinite r PInf) by reflexivity.
    apply lt_unit_zero, prox_cases.
  - destruct H1 as [->|[x1 [-> Hx1]]]; [discriminate|].
    apply le_Fin in Hle.
    destruct r as [| | |r].
    + now rewrite !prox_NaN_radius.
    + rewrite !prox_inf_radius by auto. apply Rltb_false. lra.
    + rewrite !prox_inf_radius by auto. apply Rltb_false. lra.
    + destruct (Req_dec_T r 0) as [->|Hr].
      * destruct (Req_dec_T x1 0) as [->|Hx].
        -- now rewrite prox_zero_radius.
        -- rewrite !prox_zero_radius_pos by lra. apply Rltb_false. lra.
      * rewrite !prox_Fin by assumption. apply Rltb_false.
        destruct (Rlt_dec 0 r) as [Hpos|Hneg].
        -- apply pow13_mono. split; [apply clampR_unit|].
           apply clampR_mono. pose proof (div_le_pos Hpos Hle). lra.
        -- assert (Hr' : r < 0) by lra.
           pose proof (div_nonpos Hr' Hx1). pose proof (div_nonpos Hr' Hx2).
           replace (Rmax 0 (Rmin 1 (1 - x1 / r))) with 1 by (unfold Rmax, Rmin; rdec).
           replace (Rmax 0 (Rmin 1 (1 - x2 / r))) with 1 by (unfold Rmax, Rmin; rdec).
           lra.
Qed.

Lemma prox_positive_radius (r : R) (d : num) :
  0 < r -> is_distance d -> unit_interval (prox (Fin r) d).
Proof.
  intros Hr [->|[x [-> Hx]]].
  - exists 0. split; [reflexivity|lra].
  - rewrite prox_Fin by lra. eexists; split; [reflexivity|].
    apply pow13_unit, clampR_unit.
Qed.

Lemma prox_antitone_pos (r : R) (d1 d2 : num) :
  0 < r -> is_distance d1 -> is_distance d2 -> le d1 d2 = true ->
  le (prox (Fin r) d2) (prox (Fin r) d1) = true.
Proof.
  intros Hr H1 H2 Hle.
  pose proof (prox_antitone (Fin r) H1 H2 Hle) as Hlt.
  destruct (prox_positive_radius Hr H1) as [p1 [E1 _]].
  destruct (prox_positive_radius Hr H2) as [p2 [E2 _]].
  rewrite E1, E2 in *. apply Rltb_false in Hlt. now apply le_Fin.
Qed.

(** More points within the radius never give a smaller category score. *)
Lemma categoryScore_mono (w : R) (r d : num) (n1 n2 : nat) :
  0 <= w -> (n1 <= n2)%nat ->
  lt (categoryScore (Fin w) r n2 d) (categoryScore (Fin w) r n1 d) = false
  /\ (prox r d <> NaN ->
      le (categoryScore (Fin w) r n1 d) (categoryScore (Fin w) r n2 d) = true).
Proof.
  intros Hw Hn. destruct (prox_cases r d) as [E|[p [E Hp]]].
  - rewrite !(categoryScore_NaN _ _ _ _ E). split; [reflexivity | congruence].
  - rewrite (@categoryScore_overflow w r n1 d p E Hp).
    rewrite (@categoryScore_overflow w r n2 d p E Hp).
    pose proof (countNorm_mono Hn) as Hc.
    assert (H : w * (0.8 * (INR n1 / (INR n1 + 4)) + (1 - 0.8) * p)
                <= w * (0.8 * (INR n2 / (INR n2 + 4)) + (1 - 0.8) * p)) by nra.
    apply overflow_mono in H.
    split; [now apply le_lt_false | intros _; exact H].
Qed.

(** *** The proximity sub-score and the whole layer *)




(** *** Empty categories *)

Lemma categoryScore_empty (w : R) (r : num) : categoryScore (Fin w) r 0 PInf = Fin 0.
Proof.
  rewrite (@categoryScore_overflow w r 0 PInf 0) by (now apply prox_nonfinite || lra).
  pose proof OVERFLOW_pos. simpl INR.
  replace (w * (0.8 * (0 / (0 + 4)) + (1 - 0.8) * 0)) with 0 by (unfold Rdiv; ring).
  apply overflow_Fin. lra.
Qed.

Lemma rawScore_empty (r : num) :
  rawScore r (summary []) (summary []) (summary []) = Fin 0.
Proof.
  unfold rawScore, summary, nearest_distance, WEIGHTS; cbv zeta.
  cbn [count nearest hd_error List.length w_shelter w_school w_health].
  rewrite !categoryScore_empty, !add_Fin. f_equal. lra.
Qed.

(** A degenerate query is answered with three empty categories and the
    score 0. *)
Lemma scorePoint_degenerate (DATA : DataDir) (LAYERS LAYERS' : option Layers)
  (L : Layers) (params : ScoreParams) (res : ScoreResult) :
  loaded DATA LAYERS L ->
  scorePoint DATA params LAYERS = Normal (res, LAYERS') ->
  degenerate_query (sp_lon params) (sp_lat params) (radius_of params) ->
  (forall k, category k res = {| count := 0; nearest := None |})
  /\ score res = Fin 0.
Proof.
  intros Hl Hrun Hd.
  destruct (@scorePoint_inv _ _ _ _ _ _ Hl Hrun) as (_ & Hc & Hs & _).
  assert (Hk : forall k, category k res = summary []).
  { intros k. rewrite Hc, category_list_degenerate by assumption. reflexivity. }
  split; [exact Hk|].
  rewrite Hs.
  change (res_shelters res) with (category KShelter res).
  change (res_schools res) with (category KSchool res).
  change (res_healths res) with (category KHealth res).
  rewrite !Hk, rawScore_empty. apply clamp01_unit. lra.
Qed.

Lemma nearbyPois_of_degenerate (L : Layers) (lon lat radiusMeters topN : num) :
  degenerate_query lon lat radiusMeters ->
  let res := nearbyPois_of L lon lat radiusMeters topN in
  shelters res = [] /\ schools res = [] /\ healths res = [] /\ all res = [].
Proof.
  intros Hd. unfold nearbyPois_of; cbn [shelters schools healths all].
  fold (category_list KShelter (L_shelter L) lon lat radiusMeters topN).
  fold (category_list KSchool (L_school L) lon lat radiusMeters topN).
  fold (category_list KHealth (L_health L) lon lat radiusMeters topN).
  rewrite !category_list_degenerate by assumption. auto.
Qed.

End ScoreFacts.

(* ================================================================== *)
(** * Part VII.  The earlier engine of score.ts                        *)
(* ================================================================== *)

Module ScoreTsFacts.

Import JS JSFacts.
Local Open Scope R_scope.

(** With a point within the radius, [avail] is the capped count and does
    not look at the nearest distance. *)
Lemma avail_counted (n : nat) (nearest_m : option num) (softCap : R) :
  softCap <> 0 ->
  ScoreTs.avail (S n) nearest_m (Fin softCap)
  = Fin (Rmin 1 (INR (S n) / softCap)).
Proof.
  intros Hc. unfold ScoreTs.avail, of_nat, gt, lt.
  pose proof (pos_INR n). rewrite S_INR.
  replace (Rltb 0 (INR n + 1)) with true by (symmetry; apply Rltb_true; lra).
  rewrite div_Fin, min_Fin by assumption. reflexivity.
Qed.


End ScoreTsFacts.

(* ================================================================== *)
(** * Part VIII.  The claims of the specification                      *)
(* ================================================================== *)

Import JSString JS Spec PoiIndex JSFacts GeoFacts LoaderFacts QueryFacts ScoreFacts.
Local Open Scope string_scope.
Local Open Scope list_scope.
Local Open Scope R_scope.

(** ** Sample catalogs *)

Lemma only_shelters_loaded (nm : string) (x y : R) :
  String.eqb (trim nm) EmptyString = false ->
  loaded (Sample.only_shelters [Sample.feature_at nm (Fin x) (Fin y)]) None
         (Sample.shelters_catalog [Sample.poi_at (trim nm) (Fin x) (Fin y)]).
Proof.
  intros Hn. split; [|now left]. apply ensureLoaded_fresh.
  exists [Sample.poi_at (trim nm) (Fin x) (Fin y)], [], [], [].
  repeat split; try reflexivity.
  unfold Sample.only_shelters, readGeoPoints; cbn [FILES_shelter features].
  unfold readFeatures, readFeature, Sample.feature_at; cbn -[trim].
  rewrite Hn. reflexivity.
Qed.

Lemma sample_category_list (nm : string) (x y r : R) :
  -180 <= y <= 180 -> 0 <= r ->
  category_list KShelter [Sample.poi_at nm (Fin x) (Fin y)] (Fin x) (Fin y)
                (Fin r) (Fin 25)
  = [ {| poi := Sample.poi_at nm (Fin x) (Fin y); distance_m := Fin 0;
         kind := KShelter |} ].
Proof.
  intros Hy Hr. unfold category_list, withDistances; cbn [map Sample.poi_at lon lat].
  rewrite haversineMeters_self by now apply in_range_ordinary.
  cbn [sort fold_right sort_insert withinRadius filter distance_m].
  replace (le (Fin 0) (Fin r)) with true by (symmetry; apply le_Fin; lra).
  rewrite (slice0_nat _ (n := 25)) by lia. reflexivity.
Qed.

Lemma empty_category_list (kind : Kind) (lon lat radiusMeters topN : num) :
  category_list kind [] lon lat radiusMeters topN = [].
Proof. unfold category_list; cbn. apply slice0_nil. Qed.

Lemma shelters_loaded (feats : list Feature) (pois : list Poi) :
  readFeatures feats = pois -> NoDup (map key_of pois) ->
  loaded (Sample.only_shelters feats) None (Sample.shelters_catalog pois).
Proof.
  intros Hr Hnd. split; [|now left]. apply ensureLoaded_fresh.
  exists pois, [], [], []. repeat split; try reflexivity.
  unfold Sample.only_shelters, readGeoPoints; cbn [FILES_shelter features].
  rewrite Hr. f_equal. now apply dedupePois_NoDup_id.
Qed.

Lemma two_layers_loaded (fs fc : list Feature) (ps pc : list Poi) :
  readFeatures fs = ps -> NoDup (map key_of ps) ->
  readFeatures fc = pc -> NoDup (map key_of pc) ->
  loaded (Sample.shelters_and_schools fs fc) None (Sample.two_layer_catalog ps pc).
Proof.
  intros Hs Hns Hc Hnc. split; [|now left]. apply ensureLoaded_fresh.
  exists ps, pc, [], []. repeat split; try reflexivity.
  - unfold Sample.shelters_and_schools, readGeoPoints; cbn [FILES_shelter features].
    rewrite Hs. f_equal. now apply dedupePois_NoDup_id.
  - unfold Sample.shelters_and_schools, readGeoPoints; cbn [FILES_school features].
    rewrite Hc. f_equal. now apply dedupePois_NoDup_id.
Qed.

(** The keys of a list of sample points differ by their names. *)
Ltac distinct_keys :=
  repeat (constructor; [simpl; intuition discriminate|]); constructor.

Lemma three_shelters_loaded :
  loaded (Sample.only_shelters Sample.three_features) None
         (Sample.shelters_catalog Sample.three_points).
Proof. apply shelters_loaded; [reflexivity | distinct_keys]. Qed.

Lemma shelters_and_schools_loaded :
  loaded (Sample.shelters_and_schools Sample.three_features Sample.two_school_features)
         None
         (Sample.two_layer_catalog Sample.three_points Sample.two_schools).
Proof.
  apply two_layers_loaded; try reflexivity; distinct_keys.
Qed.

(** The distance from the origin (0, 0) to a point due north of it. *)
Lemma distance_north (nm : string) (y : R) :
  0 <= y <= 180 ->
  distance_to (Fin 0) (Fin 0) (Sample.poi_at nm (Fin 0) (Fin y))
  = Fin (Sample.north y).
Proof.
  intros Hy. unfold distance_to, Sample.poi_at; cbn [lon lat].
  rewrite haversineMeters_Fin
    by (apply ordinary_no_overflow; apply in_range_ordinary; lra).
  rewrite great_circle_meridian by lra.
  unfold Sample.north. do 3 f_equal. lra.
Qed.

Lemma north_measured (nm : string) (y : R) :
  0 <= y <= 180 ->
  measured (Fin 0) (Fin 0) (Sample.poi_at nm (Fin 0) (Fin y)).
Proof.
  intros Hy. unfold measured. rewrite distance_north by assumption. discriminate.
Qed.

Lemma withDistances_north (k : Kind) (nm : string) (y : R) (rest : list Poi) :
  0 <= y <= 180 ->
  withDistances k (Sample.poi_at nm (Fin 0) (Fin y) :: rest) (Fin 0) (Fin 0)
  = Sample.near_at k nm y :: withDistances k rest (Fin 0) (Fin 0).
Proof.
  intros Hy. unfold withDistances at 1; cbn [map]. f_equal.
  unfold Sample.near_at. f_equal. now apply distance_north.
Qed.

(** Decides the comparisons of the sample distances, with [3 < PI <= 4]. *)
Ltac north_cmp :=
  let Hlo := fresh in let Hhi := fresh in
  pose proof PI2_3_2 as Hlo; pose proof PI_4 as Hhi;
  unfold Sample.near_at, byDistance, gt, lt, le, sub, add, neg,
         Sample.north, toRadR in *;
  cbn [distance_m] in *; rdec.

Lemma three_points_measured :
  Forall (measured (Fin 0) (Fin 0)) Sample.three_points.
Proof. repeat constructor; apply north_measured; lra. Qed.

Lemma two_schools_measured :
  Forall (measured (Fin 0) (Fin 0)) Sample.two_schools.
Proof. repeat constructor; apply north_measured; lra. Qed.

(** The three shelters in ascending order of distance. *)
Lemma three_points_sorted (k : Kind) :
  sort byDistance (withDistances k Sample.three_points (Fin 0) (Fin 0))
  = [Sample.near_at k "Near" 0.001; Sample.near_at k "Far" 0.004;
     Sample.near_at k "Out" 0.02].
Proof.
  unfold Sample.three_points.
  rewrite !withDistances_north by lra. cbn [withDistances map].
  cbn [sort fold_right sort_insert].
  replace (gt (byDistance (Sample.near_at k "Out" 0.02) (Sample.near_at k "Near" 0.001))
              (Fin 0)) with true by north_cmp.
  cbn [sort_insert].
  replace (gt (byDistance (Sample.near_at k "Far" 0.004) (Sample.near_at k "Near" 0.001))
              (Fin 0)) with true by north_cmp.
  replace (gt (byDistance (Sample.near_at k "Far" 0.004) (Sample.near_at k "Out" 0.02))
              (Fin 0)) with false by north_cmp.
  reflexivity.
Qed.

Lemma two_schools_sorted (k : Kind) :
  sort byDistance (withDistances k Sample.two_schools (Fin 0) (Fin 0))
  = [Sample.near_at k "Lower" 0.002; Sample.near_at k "Upper" 0.003].
Proof.
  unfold Sample.two_schools.
  rewrite !withDistances_north by lra. cbn [withDistances map].
  cbn [sort fold_right sort_insert].
  replace (gt (byDistance (Sample.near_at k "Upper" 0.003) (Sample.near_at k "Lower" 0.002))
              (Fin 0)) with true by north_cmp.
  reflexivity.
Qed.

(** Within 1500 m of the origin: the two nearer shelters; within 3000 m:
    all three; within 200 m: the nearest only. *)
Lemma three_points_within (k : Kind) (r : R) :
  (200 <= r <= 400 ->
   withinRadius (sort byDistance (withDistances k Sample.three_points (Fin 0) (Fin 0)))
                (Fin r)
   = [Sample.near_at k "Near" 0.001])
  /\ (600 <= r <= 2000 ->
      withinRadius (sort byDistance (withDistances k Sample.three_points (Fin 0) (Fin 0)))
                   (Fin r)
      = [Sample.near_at k "Near" 0.001; Sample.near_at k "Far" 0.004])
  /\ (3000 <= r ->
      withinRadius (sort byDistance (withDistances k Sample.three_points (Fin 0) (Fin 0)))
                   (Fin r)
      = [Sample.near_at k "Near" 0.001; Sample.near_at k "Far" 0.004;
         Sample.near_at k "Out" 0.02]).
Proof.
  rewrite three_points_sorted. unfold withinRadius; cbn [filter].
  repeat split; intros Hr.
  - replace (le (distance_m (Sample.near_at k "Near" 0.001)) (Fin r)) with true
      by north_cmp.
    replace (le (distance_m (Sample.near_at k "Far" 0.004)) (Fin r)) with false
      by north_cmp.
    replace (le (distance_m (Sample.near_at k "Out" 0.02)) (Fin r)) with false
      by north_cmp.
    reflexivity.
  - replace (le (distance_m (Sample.near_at k "Near" 0.001)) (Fin r)) with true
      by north_cmp.
    replace (le (distance_m (Sample.near_at k "Far" 0.004)) (Fin r)) with true
      by north_cmp.
    replace (le (distance_m (Sample.near_at k "Out" 0.02)) (Fin r)) with false
      by north_cmp.
    reflexivity.
  - replace (le (distance_m (Sample.near_at k "Near" 0.001)) (Fin r)) with true
      by north_cmp.
    replace (le (distance_m (Sample.near_at k "Far" 0.004)) (Fin r)) with true
      by north_cmp.
    replace (le (distance_m (Sample.near_at k "Out" 0.02)) (Fin r)) with true
      by north_cmp.
    reflexivity.
Qed.

(** The same in the order of the file, before the sort. *)
Lemma three_points_inRadius (r : R) :
  (200 <= r <= 400 ->
   inRadius Sample.three_points (Fin 0) (Fin 0) (Fin r)
   = [Sample.poi_at "Near" (Fin 0) (Fin 0.001)])
  /\ (600 <= r <= 2000 ->
      inRadius Sample.three_points (Fin 0) (Fin 0) (Fin r)
      = [Sample.poi_at "Far" (Fin 0) (Fin 0.004);
         Sample.poi_at "Near" (Fin 0) (Fin 0.001)])
  /\ (3000 <= r ->
      inRadius Sample.three_points (Fin 0) (Fin 0) (Fin r) = Sample.three_points).
Proof.
  unfold inRadius, Sample.three_points; cbn [filter].
  rewrite !distance_north by lra.
  repeat split; intros Hr.
  - replace (le (Fin (Sample.north 0.004)) (Fin r)) with false by north_cmp.
    replace (le (Fin (Sample.north 0.02)) (Fin r)) with false by north_cmp.
    replace (le (Fin (Sample.north 0.001)) (Fin r)) with true by north_cmp.
    reflexivity.
  - replace (le (Fin (Sample.north 0.004)) (Fin r)) with true by north_cmp.
    replace (le (Fin (Sample.north 0.02)) (Fin r)) with false by north_cmp.
    replace (le (Fin (Sample.north 0.001)) (Fin r)) with true by north_cmp.
    reflexivity.
  - replace (le (Fin (Sample.north 0.004)) (Fin r)) with true by north_cmp.
    replace (le (Fin (Sample.north 0.02)) (Fin r)) with true by north_cmp.
    replace (le (Fin (Sample.north 0.001)) (Fin r)) with true by north_cmp.
    reflexivity.
Qed.

Lemma two_schools_within (k : Kind) (r : R) :
  600 <= r ->
  withinRadius (sort byDistance (withDistances k Sample.two_schools (Fin 0) (Fin 0)))
               (Fin r)
  = [Sample.near_at k "Lower" 0.002; Sample.near_at k "Upper" 0.003].
Proof.
  intros Hr. rewrite two_schools_sorted. unfold withinRadius; cbn [filter].
  replace (le (distance_m (Sample.near_at k "Lower" 0.002)) (Fin r)) with true
    by north_cmp.
  replace (le (distance_m (Sample.near_at k "Upper" 0.003)) (Fin r)) with true
    by north_cmp.
  reflexivity.
Qed.


(** One shelter, at the origin of the query, default radius: count 1 and
    proximity 1 give 0.6 * (0.8 * 1/5 + 0.2 * 1) = 0.216. *)
Example scorePoint_one_shelter :
  exists res : ScoreResult,
    scorePoint (Sample.only_shelters [Sample.feature_at "A" (Fin 139.767) (Fin 35.681)])
               (Sample.query (Fin 139.767) (Fin 35.681) None) None
    = Normal (res, Some (Sample.shelters_catalog
                           [Sample.poi_at "A" (Fin 139.767) (Fin 35.681)]))
    /\ count (res_shelters res) = 1%nat
    /\ score res = Fin 0.216.
Proof.
  assert (Hl : loaded (Sample.only_shelters
                         [Sample.feature_at "A" (Fin 139.767) (Fin 35.681)])
                      None
                      (Sample.shelters_catalog
                         [Sample.poi_at "A" (Fin 139.767) (Fin 35.681)]))
    by (apply (only_shelters_loaded "A" 139.767 35.681); reflexivity).
  destruct (scorePoint_returns (Sample.query (Fin 139.767) (Fin 35.681) None) Hl)
    as [res Hrun].
  exists res. split; [exact Hrun|].
  destruct (@scorePoint_inv _ _ _ _ _ _ Hl Hrun) as (_ & Hc & Hs & _).
  pose proof (Hc KShelter) as Hsh. pose proof (Hc KSchool) as Hsc.
  pose proof (Hc KHealth) as Hhe.
  unfold radius_of, topN_of, Sample.query, Sample.shelters_catalog in Hsh, Hsc, Hhe.
  cbn [layer category L_shelter L_school L_health sp_lon sp_lat sp_radiusMeters sp_topN]
    in Hsh, Hsc, Hhe.
  rewrite (sample_category_list "A" 139.767 (y := 35.681) (r := 1500)) in Hsh by lra.
  rewrite empty_category_list in Hsc, Hhe.
  split; [now rewrite Hsh|].
  rewrite Hs, Hsh, Hsc, Hhe. unfold rawScore, WEIGHTS. cbv zeta.
  cbn [w_shelter w_school w_health].
  unfold summary at 1 2, nearest_distance at 1.
  cbn [count nearest hd_error distance_m List.length].
  change (radius_of (Sample.query (Fin 139.767) (Fin 35.681) None)) with (Fin 1500).
  pose proof OVERFLOW_gt as Ho.
  rewrite (@categoryScore_Fin 0.6 (Fin 1500) 1 (Fin 0) (pow13 (Rmax 0 (Rmin 1 (1 - 0 / 1500)))))
    by (apply prox_Fin || apply pow13_unit, clampR_unit || idtac; lra).
  change (summary []) with {| count := 0; nearest := @None PoiNear |}.
  unfold nearest_distance; cbn [count nearest].
  rewrite !categoryScore_empty, !add_Fin.
  replace (Rmax 0 (Rmin 1 (1 - 0 / 1500))) with 1 by (unfold Rmax, Rmin; rdec).
  rewrite pow13_1. simpl INR. rewrite clamp01_unit by lra. f_equal. lra.
Qed.



(** ** C9 *)




(** ** C6 *)

(** C6, counterexample.  A feature at longitude 200, latitude 95 is loaded
    into the shelter layer: the catalog holds a point outside
    [-180, 180] x [-90, 90]. *)
Lemma C6_counterexample :
  exists (L : Layers) (p : Poi),
    ensureLoaded (Sample.only_shelters [Sample.feature_at "X" (Fin 200) (Fin 95)]) None
    = Normal (L, Some L)
    /\ In p (all_pois L)
    /\ ~ in_range p.
Proof.
  exists (Sample.shelters_catalog [Sample.poi_at "X" (Fin 200) (Fin 95)]).
  exists (Sample.poi_at "X" (Fin 200) (Fin 95)).
  split; [|split].
  - apply (only_shelters_loaded "X" 200 95). reflexivity.
  - now left.
  - intros (x & y & Hx & Hy & Hxr & Hyr). simpl in Hx. apply Fin_inj in Hx. lra.
Qed.

(** C6, amended.  Every point of a loaded catalog has a finite longitude and
    a finite latitude and a name that is not empty; a feature with a
    coordinate that is not a finite number is dropped by the loader; and
    every point that [nearbyPois] lists or [scorePoint] reports as nearest
    is a point of the catalog, hence finite.  (The loader does not compare
    the coordinates with [-180, 180] and [-90, 90].) *)
Theorem C6_loaded_points_are_finite
  (DATA : DataDir) (LAYERS : option Layers) (L : Layers) :
  loaded DATA LAYERS L ->
  (forall p, In p (all_pois L) -> finite_poi p /\ name p <> EmptyString)
  /\ (forall f, Number_isFinite (coordinate 0 f) = false
                \/ Number_isFinite (coordinate 1 f) = false ->
                readFeature f = None)
  /\ (forall lon lat radiusMeters topN res LAYERS' q,
         nearbyPois DATA lon lat radiusMeters topN LAYERS = Normal (res, LAYERS') ->
         In q (all res) -> In (poi q) (all_pois L) /\ finite_poi (poi q))
  /\ (forall params res LAYERS' k q,
         scorePoint DATA params LAYERS = Normal (res, LAYERS') ->
         nearest (category k res) = Some q ->
         In (poi q) (all_pois L) /\ finite_poi (poi q)).
Proof.
  intros Hl.
  assert (Hfin : forall p, In p (all_pois L) -> finite_poi p /\ name p <> EmptyString)
    by (intros p Hp; eapply loaded_finite; [exact Hl | exact Hp]).
  assert (Hcat : forall k lon lat r n q,
             In q (category_list k (layer k L) lon lat r n) ->
             In (poi q) (all_pois L) /\ finite_poi (poi q)).
  { intros k lon lat r n q Hq. apply category_list_In in Hq.
    destruct Hq as [Hq _]. apply layer_all_pois in Hq.
    split; [assumption | now apply Hfin]. }
  split; [exact Hfin|]. split; [exact readFeature_nonfinite|]. split.
  - intros lon lat r n res LAYERS' q Hrun Hq.
    destruct (@nearbyPois_inv _ _ _ _ _ _ _ _ _ Hl Hrun) as [-> _].
    apply nearbyPois_of_all in Hq. destruct Hq as [k Hq]. eapply Hcat; eassumption.
  - intros params res LAYERS' k q Hrun Hq.
    destruct (@scorePoint_inv _ _ _ _ _ _ Hl Hrun) as (_ & Hc & _). rewrite Hc in Hq.
    unfold summary in Hq; cbn [nearest] in Hq.
    eapply Hcat. apply hd_error_In in Hq. eassumption.
Qed.

Lemma C6_witness :
  loaded (Sample.only_shelters [Sample.feature_at "X" (Fin 200) (Fin 95)]) None
         (Sample.shelters_catalog [Sample.poi_at "X" (Fin 200) (Fin 95)])
  /\ finite_poi (Sample.poi_at "X" (Fin 200) (Fin 95))
  /\ name (Sample.poi_at "X" (Fin 200) (Fin 95)) <> EmptyString.
Proof.
  assert (Hl : loaded (Sample.only_shelters [Sample.feature_at "X" (Fin 200) (Fin 95)])
                      None
                      (Sample.shelters_catalog [Sample.poi_at "X" (Fin 200) (Fin 95)]))
    by (apply (only_shelters_loaded "X" 200 95); reflexivity).
  split; [exact Hl|].
  apply (proj1 (C6_loaded_points_are_finite Hl)). now left.
Defined.

(** ** C8 *)



(** ** C7 *)

(** C7, counterexample.  With radius 0 and a shelter at the origin itself,
    [nearbyPois] returns that shelter: the sequence is not empty. *)
Lemma C7_counterexample :
  exists res : NearbyResult,
    nearbyPois (Sample.only_shelters [Sample.feature_at "A" (Fin 0) (Fin 0)])
               (Fin 0) (Fin 0) (Some (Fin 0)) None None
    = Normal (res, Some (Sample.shelters_catalog [Sample.poi_at "A" (Fin 0) (Fin 0)]))
    /\ shelters res = [ {| poi := Sample.poi_at "A" (Fin 0) (Fin 0);
                           distance_m := Fin 0; kind := KShelter |} ].
Proof.
  eexists. split.
  - apply nearbyPois_run. apply (only_shelters_loaded "A" 0 0). reflexivity.
  - unfold nearbyPois_of; cbn [shelters Sample.shelters_catalog L_shelter].
    apply (sample_category_list "A" 0 (y := 0) (r := 0)); lra.
Qed.

(** C7, amended.  A point at exactly the radius is kept by [withinRadius]
    and a point strictly farther is dropped; a negative radius makes
    [nearbyPois] return empty sequences, without an error; with radius 0
    the points kept are exactly those at distance 0. *)
Theorem C7_radius_boundary :
  (forall (sorted : list PoiNear) (r : R) (p : PoiNear),
      In p sorted -> distance_m p = Fin r -> In p (withinRadius sorted (Fin r)))
  /\ (forall (sorted : list PoiNear) (radiusMeters : num) (p : PoiNear),
         lt radiusMeters (distance_m p) = true ->
         ~ In p (withinRadius sorted radiusMeters))
  /\ (forall (DATA : DataDir) (LAYERS : option Layers) (L : Layers)
             (lon lat : num) (r : R) (topN : option num),
         loaded DATA LAYERS L -> r < 0 ->
         exists res : NearbyResult,
           nearbyPois DATA lon lat (Some (Fin r)) topN LAYERS = Normal (res, Some L)
           /\ shelters res = [] /\ schools res = [] /\ healths res = []
           /\ all res = [])
  /\ (forall (kind : Kind) (arr : list Poi) (lon lat : num) (q : PoiNear),
         In q (withinRadius (sort byDistance (withDistances kind arr lon lat)) (Fin 0))
         <-> In q (sort byDistance (withDistances kind arr lon lat))
             /\ distance_m q = Fin 0).
Proof.
  split; [|split; [|split]].
  - intros sorted r p Hp Hd. apply withinRadius_In. split; [assumption|].
    rewrite Hd. apply le_Fin. lra.
  - intros sorted r p Hlt Hin. apply withinRadius_In in Hin.
    destruct Hin as [_ Hle]. apply lt_not_le in Hlt. congruence.
  - intros DATA LAYERS L lon lat r topN Hl Hr. eexists. split.
    + apply nearbyPois_run. exact Hl.
    + unfold nearbyPois_of; cbn [shelters schools healths all].
      fold (category_list KShelter (L_shelter L) lon lat (Fin r)
              (match topN with Some n => n | None => Fin 25 end)).
      fold (category_list KSchool (L_school L) lon lat (Fin r)
              (match topN with Some n => n | None => Fin 25 end)).
      fold (category_list KHealth (L_health L) lon lat (Fin r)
              (match topN with Some n => n | None => Fin 25 end)).
      rewrite !category_list_negative by assumption. auto.
  - intros kind arr lon lat q. rewrite withinRadius_In. split.
    + intros [Hin Hle]. split; [assumption|].
      pose proof Hin as Hin'. apply sorted_withDistances_In in Hin'.
      destruct Hin' as [p [_ ->]]. cbn [distance_m] in *.
      destruct (distance_to_cases lon lat p) as [E|[d [E Hd]]]; rewrite E in *.
      * discriminate.
      * apply le_Fin in Hle. f_equal. lra.
    + intros [Hin Hd]. split; [assumption|]. rewrite Hd. apply le_Fin. lra.
Qed.

Lemma C7_witness :
  In {| poi := Sample.poi_at "A" (Fin 0) (Fin 0); distance_m := Fin 1500;
        kind := KShelter |}
     (withinRadius [ {| poi := Sample.poi_at "A" (Fin 0) (Fin 0);
                        distance_m := Fin 1500; kind := KShelter |} ] (Fin 1500))
  /\ ~ In {| poi := Sample.poi_at "A" (Fin 0) (Fin 0); distance_m := Fin 2000;
             kind := KShelter |}
          (withinRadius [ {| poi := Sample.poi_at "A" (Fin 0) (Fin 0);
                             distance_m := Fin 2000; kind := KShelter |} ] (Fin 1500))
  /\ exists res : NearbyResult,
       nearbyPois Sample.no_data (Fin 0) (Fin 0) (Some (Fin (-1))) None None
       = Normal (res, Some Sample.empty_catalog)
       /\ shelters res = [] /\ schools res = [] /\ healths res = [] /\ all res = [].
Proof.
  split; [|split].
  - apply (proj1 C7_radius_boundary); [now left | reflexivity].
  - apply (proj1 (proj2 C7_radius_boundary)). apply lt_Fin. lra.
  - apply (proj1 (proj2 (proj2 C7_radius_boundary))
             Sample.no_data None Sample.empty_catalog (Fin 0) (Fin 0) (-1) None
             no_data_loaded).
    lra.
Defined.

(** ** C10 *)



(** ** C4 *)

(** C4, the failing input.  With radius 0 and a shelter at the origin itself
    the shelter is within the radius at distance 0, [prox] computes
    [0 / 0], and the total score is [NaN]: not a number of [0, 1]. *)
Theorem C4_score_NaN_at_radius_zero :
  exists res : ScoreResult,
    scorePoint (Sample.only_shelters [Sample.feature_at "A" (Fin 0) (Fin 0)])
               (Sample.query (Fin 0) (Fin 0) (Some (Fin 0))) None
    = Normal (res, Some (Sample.shelters_catalog [Sample.poi_at "A" (Fin 0) (Fin 0)]))
    /\ count (res_shelters res) = 1%nat
    /\ score res = NaN
    /\ ~ unit_interval (score res).
Proof.
  assert (Hl : loaded (Sample.only_shelters [Sample.feature_at "A" (Fin 0) (Fin 0)])
                      None
                      (Sample.shelters_catalog [Sample.poi_at "A" (Fin 0) (Fin 0)]))
    by (apply (only_shelters_loaded "A" 0 0); reflexivity).
  destruct (scorePoint_returns (Sample.query (Fin 0) (Fin 0) (Some (Fin 0))) Hl)
    as [res Hrun].
  exists res. split; [exact Hrun|].
  destruct (@scorePoint_inv _ _ _ _ _ _ Hl Hrun) as (_ & Hc & Hs & _).
  pose proof (Hc KShelter) as Hsh.
  unfold radius_of, topN_of, Sample.query, Sample.shelters_catalog in Hsh.
  cbn [layer category L_shelter sp_lon sp_lat sp_radiusMeters sp_topN] in Hsh.
  rewrite (sample_category_list "A" 0 (y := 0) (r := 0)) in Hsh by lra.
  assert (Hscore : score res = NaN).
  { rewrite Hs. unfold rawScore. cbv zeta. rewrite Hsh.
    unfold summary, nearest_distance; cbn [count nearest hd_error distance_m List.length].
    rewrite (categoryScore_NaN _ _ _ _ prox_zero_radius). reflexivity. }
  split; [now rewrite Hsh|]. split; [exact Hscore|].
  rewrite Hscore. intros [x [E _]]. discriminate.
Qed.

(** ** C2 *)

(** C2, counterexample.  For the origin ([NaN], 95) and the radius -1,
    three invalid inputs at once, [scorePoint] does not fail: it returns a
    result with score 0. *)
Lemma C2_counterexample :
  exists res : ScoreResult,
    scorePoint (Sample.only_shelters [Sample.feature_at "A" (Fin 0) (Fin 0)])
               (Sample.query NaN (Fin 95) (Some (Fin (-1)))) None
    = Normal (res, Some (Sample.shelters_catalog [Sample.poi_at "A" (Fin 0) (Fin 0)]))
    /\ score res = Fin 0.
Proof.
  assert (Hl : loaded (Sample.only_shelters [Sample.feature_at "A" (Fin 0) (Fin 0)])
                      None
                      (Sample.shelters_catalog [Sample.poi_at "A" (Fin 0) (Fin 0)]))
    by (apply (only_shelters_loaded "A" 0 0); reflexivity).
  destruct (scorePoint_returns (Sample.query NaN (Fin 95) (Some (Fin (-1)))) Hl)
    as [res Hrun].
  exists res. split; [exact Hrun|].
  eapply scorePoint_degenerate; [exact Hl | exact Hrun | now left].
Qed.

(** C2, amended.  [scorePoint] and [nearbyPois] validate nothing: the only
    error either can throw is the one [ensureLoaded] throws while reading the
    data files, whatever the query; once the catalog loads both return
    normally on every query, and for an origin that is not finite or a
    negative radius they return empty categories (and the score 0).  The
    rejection of a longitude or latitude that is not finite is done by the
    HTTP routes, which answer 400 without calling the engine. *)
Theorem C2_engine_validates_nothing :
  (forall (DATA : DataDir) (LAYERS : option Layers) (params : ScoreParams) (e : string),
      scorePoint DATA params LAYERS = Throw e -> ensureLoaded DATA LAYERS = Throw e)
  /\ (forall (DATA : DataDir) (LAYERS : option Layers) (lon lat : num)
             (radiusMeters topN : option num) (e : string),
         nearbyPois DATA lon lat radiusMeters topN LAYERS = Throw e ->
         ensureLoaded DATA LAYERS = Throw e)
  /\ (forall (DATA : DataDir) (LAYERS : option Layers) (L : Layers)
             (params : ScoreParams),
         loaded DATA LAYERS L ->
         exists res : ScoreResult,
           scorePoint DATA params LAYERS = Normal (res, Some L)
           /\ (degenerate_query (sp_lon params) (sp_lat params) (radius_of params) ->
               (forall k, category k res = {| count := 0; nearest := None |})
               /\ score res = Fin 0))
  /\ (forall (DATA : DataDir) (LAYERS : option Layers) (L : Layers)
             (lon lat radiusMeters : num) (topN : option num),
         loaded DATA LAYERS L ->
         exists res : NearbyResult,
           nearbyPois DATA lon lat (Some radiusMeters) topN LAYERS = Normal (res, Some L)
           /\ (degenerate_query lon lat radiusMeters ->
               shelters res = [] /\ schools res = [] /\ healths res = []
               /\ all res = []))
  /\ (forall (DATA : DataDir) (LAYERS : option Layers) (lon lat radius : num),
         isFinite lon && isFinite lat = false ->
         score_route DATA lon lat radius LAYERS
         = (Status _ 400 "lon and lat are required numbers", LAYERS)
         /\ nearby_route DATA lon lat radius LAYERS
            = (Status _ 400 "lon and lat are required numbers", LAYERS)).
Proof.
  split; [exact scorePoint_throw|]. split; [exact nearbyPois_throw|].
  split; [|split].
  - intros DATA LAYERS L params Hl.
    destruct (scorePoint_returns params Hl) as [res Hrun]. exists res.
    split; [exact Hrun|]. intros Hd.
    eapply scorePoint_degenerate; [exact Hl | exact Hrun | exact Hd].
  - intros DATA LAYERS L lon lat radiusMeters topN Hl. eexists. split.
    + apply nearbyPois_run. exact Hl.
    + apply nearbyPois_of_degenerate.
  - intros DATA LAYERS lon lat radius H. unfold score_route, nearby_route.
    destruct (isFinite lon), (isFinite lat); simpl in H; try discriminate;
      split; reflexivity.
Qed.

Lemma C2_witness :
  (exists res : ScoreResult,
      scorePoint Sample.no_data (Sample.query (Fin 200) (Fin 95) (Some (Fin (-1)))) None
      = Normal (res, Some Sample.empty_catalog)
      /\ score res = Fin 0)
  /\ ensureLoaded Sample.broken_data None = Throw "SyntaxError"
  /\ score_route Sample.no_data NaN (Fin 0) (Fin 1500) None
     = (Status _ 400 "lon and lat are required numbers", None).
Proof.
  split; [|split].
  - destruct (proj1 (proj2 (proj2 C2_engine_validates_nothing))
                Sample.no_data None Sample.empty_catalog
                (Sample.query (Fin 200) (Fin 95) (Some (Fin (-1)))) no_data_loaded)
      as [res [Hrun Hd]].
    exists res. split; [exact Hrun|].
    apply Hd. right. exists (-1). split; [reflexivity | lra].
  - apply (proj1 C2_engine_validates_nothing Sample.broken_data None
             (Sample.query (Fin 0) (Fin 0) None)).
    reflexivity.
  - apply (proj2 (proj2 (proj2 (proj2 C2_engine_validates_nothing)))
             Sample.no_data None NaN (Fin 0) (Fin 1500)).
    reflexivity.
Defined.

(** ** C3 *)

(** C3, counterexample.  The result of the engine with the default
    configuration reports the shelter weight 0.6, not 0.5. *)
Lemma C3_counterexample :
  exists res : ScoreResult,
    scorePoint Sample.no_data (Sample.query (Fin 0) (Fin 0) None) None
    = Normal (res, Some Sample.empty_catalog)
    /\ w_shelter (rp_weights (res_params res)) = Fin 0.6
    /\ w_shelter (rp_weights (res_params res)) <> Fin 0.5.
Proof.
  destruct (scorePoint_returns (Sample.query (Fin 0) (Fin 0) None) no_data_loaded)
    as [res Hrun].
  exists res. split; [exact Hrun|].
  rewrite (@scorePoint_weights _ _ _ _ _ Hrun). split; [reflexivity|].
  cbn. intros E. apply Fin_inj in E. lra.
Qed.

(** C3, amended.  The weights of the scoring engine of poi-index.ts are
    shelter 0.6, school 0.25, health 0.15, and every [ScoreResult] it returns
    reports them in [params.weights]; they sum to 1.  The weights 0.5, 0.3,
    0.2 are those of the earlier engine of score.ts, which reports them in
    [weights]. *)
Theorem C3_default_weights :
  WEIGHTS = {| w_shelter := Fin 0.6; w_school := Fin 0.25; w_health := Fin 0.15 |}
  /\ JS.add (JS.add (w_shelter WEIGHTS) (w_school WEIGHTS)) (w_health WEIGHTS) = Fin 1
  /\ (forall (DATA : DataDir) (LAYERS LAYERS' : option Layers)
             (params : ScoreParams) (res : ScoreResult),
         scorePoint DATA params LAYERS = Normal (res, LAYERS') ->
         rp_weights (res_params res)
         = {| w_shelter := Fin 0.6; w_school := Fin 0.25; w_health := Fin 0.15 |})
  /\ (forall (shelter_points school_points health_points : list ScoreTs.POI)
             (lon lat : num) (radiusMeters : option num),
         ScoreTs.weights
           (ScoreTs.scorePoint shelter_points school_points health_points
                               lon lat radiusMeters)
         = {| ScoreTs.shelters := Fin 0.5; ScoreTs.schools := Fin 0.3;
              ScoreTs.healths := Fin 0.2 |}).
Proof.
  split; [reflexivity|]. split; [|split].
  - unfold WEIGHTS; cbn [w_shelter w_school w_health]. rewrite !add_Fin.
    f_equal. lra.
  - intros DATA LAYERS LAYERS' params res Hrun.
    apply (@scorePoint_weights _ _ _ _ _ Hrun).
  - reflexivity.
Qed.

Lemma C3_witness :
  exists res : ScoreResult,
    scorePoint Sample.no_data (Sample.query (Fin 0) (Fin 0) None) None
    = Normal (res, Some Sample.empty_catalog)
    /\ rp_weights (res_params res)
       = {| w_shelter := Fin 0.6; w_school := Fin 0.25; w_health := Fin 0.15 |}.
Proof.
  destruct (scorePoint_returns (Sample.query (Fin 0) (Fin 0) None) no_data_loaded)
    as [res Hrun].
  exists res. split; [exact Hrun|].
  exact (proj1 (proj2 (proj2 C3_default_weights)) _ _ _ _ _ Hrun).
Defined.

(** ** C5 *)

(** C5.  With the nearest distance fixed, a greater in-radius count never
    gives a smaller category score (and the count sub-score is 0 at count 0
    and increases with the count); with the count fixed, a greater nearest
    distance never gives a greater proximity sub-score.  Whenever the
    sub-scores are numbers (as they are for every positive radius) they are
    ordered by [<=]; the one case where they are not is the [NaN] of radius
    0, which no comparison orders. *)
Theorem C5_score_monotone :
  (forall (w : R) (radiusMeters d : num) (n1 n2 : nat),
      0 <= w -> (n1 <= n2)%nat ->
      lt (categoryScore (Fin w) radiusMeters n2 d)
         (categoryScore (Fin w) radiusMeters n1 d) = false
      /\ (prox radiusMeters d <> NaN ->
          le (categoryScore (Fin w) radiusMeters n1 d)
             (categoryScore (Fin w) radiusMeters n2 d) = true))
  /\ countNorm 0 = Fin 0
  /\ (forall n1 n2 : nat,
         (n1 <= n2)%nat -> le (countNorm n1) (countNorm n2) = true)
  /\ (forall radiusMeters d1 d2 : num,
         is_distance d1 -> is_distance d2 -> le d1 d2 = true ->
         lt (prox radiusMeters d1) (prox radiusMeters d2) = false
         /\ (forall r : R, radiusMeters = Fin r -> 0 < r ->
             le (prox radiusMeters d2) (prox radiusMeters d1) = true)).
Proof.
  split; [exact categoryScore_mono|]. split; [exact countNorm_0|]. split.
  - intros n1 n2 Hn. rewrite !countNorm_Fin. apply le_Fin. now apply countNorm_mono.
  - intros radiusMeters d1 d2 H1 H2 Hle. split.
    + now apply prox_antitone.
    + intros r -> Hr. now apply prox_antitone_pos.
Qed.

Lemma C5_witness :
  lt (categoryScore (Fin 0.6) (Fin 1500) 3 (Fin 100))
     (categoryScore (Fin 0.6) (Fin 1500) 2 (Fin 100)) = false
  /\ le (prox (Fin 1500) (Fin 200)) (prox (Fin 1500) (Fin 100)) = true.
Proof.
  split.
  - apply (proj1 C5_score_monotone 0.6 (Fin 1500) (Fin 100) 2%nat 3%nat); [lra | lia].
  - assert (H1 : is_distance (Fin 100)) by (right; exists 100; split; [reflexivity | lra]).
    assert (H2 : is_distance (Fin 200)) by (right; exists 200; split; [reflexivity | lra]).
    assert (Hle : le (Fin 100) (Fin 200) = true) by (apply le_Fin; lra).
    apply (proj2 (proj2 (proj2 (proj2 C5_score_monotone)) (Fin 1500) (Fin 100) (Fin 200)
                    H1 H2 Hle) 1500); [reflexivity | lra].
Defined.

(** ** C1 *)




(* ================================================================== *)
(** * Part IX.  Further properties of poi-index.ts                     *)
(* ================================================================== *)

Import SpecMore.

(** ** The lists of [nearbyPois] *)

Lemma firstn_sorted (n : nat) (l : list PoiNear) :
  StronglySorted dist_le l -> StronglySorted dist_le (firstn n l).
Proof.
  intros H. revert n. induction H as [|a rest Hrest IH Ha]; intros [|n]; simpl;
    try constructor.
  - apply IH.
  - rewrite Forall_forall in Ha |- *. intros b Hb. apply Ha.
    eapply firstn_In. exact Hb.
Qed.

Lemma slice0_sorted (l : list PoiNear) (end_ : num) :
  StronglySorted dist_le l -> StronglySorted dist_le (slice0 l end_).
Proof.
  intros H. destruct end_; simpl; try constructor; try assumption.
  destruct (truncate x <? 0)%Z; now apply firstn_sorted.
Qed.

Lemma slice0_length (A : Type) (l : list A) (end_ : num) :
  (List.length (slice0 l end_) <= List.length l)%nat.
Proof.
  destruct end_; simpl; try lia.
  destruct (truncate x <? 0)%Z; rewrite length_firstn; lia.
Qed.

Lemma category_list_sorted (kind : Kind) (arr : list Poi)
  (lon lat radiusMeters topN : num) :
  Forall (measured lon lat) arr ->
  StronglySorted dist_le (category_list kind arr lon lat radiusMeters topN).
Proof.
  intros Hfin. unfold category_list. apply slice0_sorted, filter_sorted, sort_sorted.
  now apply withDistances_finite.
Qed.

(** A point within the radius has a distance that is a number. *)
Lemma category_list_finite (kind : Kind) (arr : list Poi)
  (lon lat radiusMeters topN : num) :
  Forall finite_distance (category_list kind arr lon lat radiusMeters topN).
Proof.
  apply Forall_forall. intros q Hq.
  apply category_list_In in Hq. destruct Hq as (Hp & Eq & Hle).
  rewrite Eq in Hle |- *. cbn [distance_m] in *. unfold finite_distance; cbn [distance_m].
  destruct (distance_to_cases lon lat (poi q)) as [E|[x [E Hx]]].
  - rewrite E in Hle. discriminate.
  - now exists x.
Qed.

Lemma category_list_length (kind : Kind) (arr : list Poi)
  (lon lat radiusMeters topN : num) :
  (List.length (category_list kind arr lon lat radiusMeters topN)
   <= List.length arr)%nat.
Proof.
  unfold category_list. etransitivity; [apply slice0_length|].
  rewrite withinRadius_length. unfold inRadius. apply filter_length_le.
Qed.

(** The sample shelters and schools as [nearbyPois] lists them with the
    default radius and list cap. *)
Lemma three_points_list (k : Kind) (n : Z) :
  (2 <= n)%Z ->
  category_list k Sample.three_points (Fin 0) (Fin 0) (Fin 1500) (Fin (IZR n))
  = [Sample.near_at k "Near" 0.001; Sample.near_at k "Far" 0.004].
Proof.
  intros Hn. unfold category_list.
  rewrite (proj1 (proj2 (three_points_within k 1500))) by lra.
  rewrite slice0_nat by lia.
  destruct (Z.to_nat n) as [|[|m]] eqn:E; [lia | lia |].
  cbn [firstn]. now rewrite firstn_nil.
Qed.

Lemma two_schools_list (k : Kind) (n : Z) :
  (2 <= n)%Z ->
  category_list k Sample.two_schools (Fin 0) (Fin 0) (Fin 1500) (Fin (IZR n))
  = [Sample.near_at k "Lower" 0.002; Sample.near_at k "Upper" 0.003].
Proof.
  intros Hn. unfold category_list.
  rewrite two_schools_within by lra.
  rewrite slice0_nat by lia.
  destruct (Z.to_nat n) as [|[|m]] eqn:E; [lia | lia |].
  cbn [firstn]. now rewrite firstn_nil.
Qed.

(** X1.  Each category list that [nearbyPois] returns holds points of the
    layer of that category, tagged with the category and with their distance
    to the origin, which is within the radius, and is no longer than the
    layer.  When every point of the layer has a distance from the origin
    that is a number, the list is in ascending order of distance. *)
Theorem nearbyPois_lists_ascending
  (DATA : DataDir) (LAYERS : option Layers) (L : Layers)
  (lon lat : num) (radiusMeters topN : option num) :
  loaded DATA LAYERS L ->
  exists res : NearbyResult,
    nearbyPois DATA lon lat radiusMeters topN LAYERS = Normal (res, Some L)
    /\ forall k : Kind,
        (List.length (nearby_list k res) <= List.length (layer k L))%nat
        /\ (forall q : PoiNear,
               In q (nearby_list k res) ->
               In (poi q) (layer k L)
               /\ kind q = k
               /\ distance_m q = distance_to lon lat (poi q)
               /\ le (distance_m q)
                     (match radiusMeters with Some r => r | None => Fin 1500 end)
                  = true)
        /\ (Forall (measured lon lat) (layer k L) ->
            StronglySorted dist_le (nearby_list k res)).
Proof.
  intros Hl. eexists. split; [apply nearbyPois_run; exact Hl|].
  intros k. rewrite nearbyPois_of_list. split; [|split].
  - apply category_list_length.
  - intros q Hq. apply category_list_In in Hq. destruct Hq as (Hp & Eq & Hle).
    repeat split; try assumption; rewrite Eq; reflexivity.
  - apply category_list_sorted.
Qed.

(** Three shelters, in the file at 445 m, 2224 m and 111 m: the list holds
    the one at 111 m and then the one at 445 m. *)
Lemma nearbyPois_lists_ascending_witness :
  exists res : NearbyResult,
    nearbyPois (Sample.only_shelters Sample.three_features)
               (Fin 0) (Fin 0) None None None
    = Normal (res, Some (Sample.shelters_catalog Sample.three_points))
    /\ StronglySorted dist_le (shelters res)
    /\ shelters res
       = [Sample.near_at KShelter "Near" 0.001; Sample.near_at KShelter "Far" 0.004].
Proof.
  destruct (@nearbyPois_lists_ascending
              (Sample.only_shelters Sample.three_features) None
              (Sample.shelters_catalog Sample.three_points)
              (Fin 0) (Fin 0) None None)
    as [res [Hrun Hk]].
  - exact three_shelters_loaded.
  - exists res. split; [exact Hrun|]. split.
    + exact (proj2 (proj2 (Hk KShelter)) three_points_measured).
    + rewrite (nearbyPois_run (Fin 0) (Fin 0) None None three_shelters_loaded) in Hrun.
      injection Hrun as <-.
      change (shelters ?r) with (nearby_list KShelter r).
      rewrite nearbyPois_of_list.
      exact (@three_points_list KShelter 25 ltac:(lia)).
Defined.

(** X2.  The combined list [all] of [nearbyPois] is, for a finite origin, the
    three category lists merged: a permutation of their concatenation, in
    ascending order of distance. *)
Theorem nearbyPois_all_merged
  (DATA : DataDir) (LAYERS : option Layers) (L : Layers)
  (lon lat : R) (radiusMeters topN : option num) :
  loaded DATA LAYERS L ->
  exists res : NearbyResult,
    nearbyPois DATA (Fin lon) (Fin lat) radiusMeters topN LAYERS = Normal (res, Some L)
    /\ Permutation (all res) (shelters res ++ schools res ++ healths res)
    /\ StronglySorted dist_le (all res).
Proof.
  intros Hl. eexists. split; [apply nearbyPois_run; exact Hl|].
  unfold nearbyPois_of; cbn [all shelters schools healths].
  split; [apply sort_perm|]. apply sort_sorted.
  set (r := match radiusMeters with Some r => r | None => Fin 1500 end).
  set (n := match topN with Some n => n | None => Fin 25 end).
  fold (category_list KShelter (L_shelter L) (Fin lon) (Fin lat) r n).
  fold (category_list KSchool (L_school L) (Fin lon) (Fin lat) r n).
  fold (category_list KHealth (L_health L) (Fin lon) (Fin lat) r n).
  rewrite !Forall_app. repeat split; apply category_list_finite.
Qed.

(** Shelters at 111 m and 445 m, schools at 222 m and 334 m: the combined
    list takes them in turn. *)
Lemma nearbyPois_all_merged_witness :
  exists res : NearbyResult,
    nearbyPois (Sample.shelters_and_schools Sample.three_features
                                            Sample.two_school_features)
               (Fin 0) (Fin 0) None None None
    = Normal (res, Some (Sample.two_layer_catalog Sample.three_points
                                                  Sample.two_schools))
    /\ StronglySorted dist_le (all res)
    /\ Permutation (all res) (shelters res ++ schools res ++ healths res)
    /\ all res
       = [Sample.near_at KShelter "Near" 0.001; Sample.near_at KSchool "Lower" 0.002;
          Sample.near_at KSchool "Upper" 0.003; Sample.near_at KShelter "Far" 0.004].
Proof.
  destruct (@nearbyPois_all_merged
              (Sample.shelters_and_schools Sample.three_features
                                           Sample.two_school_features) None
              (Sample.two_layer_catalog Sample.three_points Sample.two_schools)
              0 0 None None)
    as [res [Hrun [Hp Hs]]].
  - exact shelters_and_schools_loaded.
  - exists res. split; [exact Hrun|]. split; [exact Hs|]. split; [exact Hp|].
    rewrite (nearbyPois_run (Fin 0) (Fin 0) None None shelters_and_schools_loaded)
      in Hrun.
    injection Hrun as <-.
    unfold nearbyPois_of; cbn [all Sample.two_layer_catalog L_shelter L_school L_health].
    fold (category_list KShelter Sample.three_points (Fin 0) (Fin 0) (Fin 1500) (Fin 25)).
    fold (category_list KSchool Sample.two_schools (Fin 0) (Fin 0) (Fin 1500) (Fin 25)).
    fold (category_list KHealth [] (Fin 0) (Fin 0) (Fin 1500) (Fin 25)).
    rewrite (@three_points_list KShelter 25), (@two_schools_list KSchool 25),
      empty_category_list by lia.
    cbn [app sort fold_right sort_insert].
    replace (gt (byDistance (Sample.near_at KSchool "Lower" 0.002)
                            (Sample.near_at KSchool "Upper" 0.003)) (Fin 0))
      with false by north_cmp.
    cbn [sort_insert].
    replace (gt (byDistance (Sample.near_at KShelter "Far" 0.004)
                            (Sample.near_at KSchool "Lower" 0.002)) (Fin 0))
      with true by north_cmp.
    replace (gt (byDistance (Sample.near_at KShelter "Far" 0.004)
                            (Sample.near_at KSchool "Upper" 0.003)) (Fin 0))
      with true by north_cmp.
    cbn [sort_insert].
    replace (gt (byDistance (Sample.near_at KShelter "Near" 0.001)
                            (Sample.near_at KSchool "Lower" 0.002)) (Fin 0))
      with false by north_cmp.
    reflexivity.
Defined.

(** ** Ties *)

Lemma near_at_distance_true (d : num) (q : PoiNear) :
  near_at_distance d q = true <-> distance_m q = d.
Proof.
  unfold near_at_distance. destruct (num_eq_dec (distance_m q) d); split; intros; easy.
Qed.

Lemma near_at_distance_lt (a b : PoiNear) (x y : R) :
  distance_m a = Fin x -> distance_m b = Fin y -> y < x ->
  near_at_distance (Fin x) b = false.
Proof.
  intros Ha Hb Hlt. unfold near_at_distance.
  destruct (num_eq_dec (distance_m b) (Fin x)) as [E|]; [|reflexivity].
  rewrite Hb in E. apply Fin_inj in E. lra.
Qed.

(** Inserting [a] puts it in front of every element at the same distance. *)
Lemma sort_insert_at_distance (d : num) (a : PoiNear) (s : list PoiNear) :
  finite_distance a -> Forall finite_distance s ->
  filter (near_at_distance d) (sort_insert byDistance a s)
  = if near_at_distance d a then a :: filter (near_at_distance d) s
    else filter (near_at_distance d) s.
Proof.
  intros [x [Hx _]] Hs. induction s as [|b rest IH]; cbn [sort_insert].
  - reflexivity.
  - inversion Hs as [|? ? [y [Hy _]] Hrest]; subst.
    rewrite (byDistance_gt _ _ Hx Hy).
    destruct (Rltb y x) eqn:Hyx.
    + apply Rltb_true in Hyx. cbn [filter]. rewrite (IH Hrest).
      destruct (near_at_distance d a) eqn:Ea; [|reflexivity].
      apply near_at_distance_true in Ea. rewrite Hx in Ea. subst d.
      now rewrite (near_at_distance_lt _ _ Hx Hy Hyx).
    + reflexivity.
Qed.

(** [sort] is stable: the points at one distance keep their order. *)
Lemma sort_stable (d : num) (l : list PoiNear) :
  Forall finite_distance l ->
  filter (near_at_distance d) (sort byDistance l) = filter (near_at_distance d) l.
Proof.
  induction l as [|a rest IH]; intros H; [reflexivity|].
  inversion H; subst. cbn [sort fold_right]. fold (sort byDistance rest).
  rewrite sort_insert_at_distance by (try assumption; now apply sort_finite).
  cbn [filter]. now rewrite IH.
Qed.

Lemma le_false_mono (x y : R) (r : num) :
  x <= y -> le (Fin x) r = false -> le (Fin y) r = false.
Proof.
  intros Hxy. destruct r as [| | |r]; simpl; try congruence.
  intros H. apply Rleb_false in H. apply Rleb_false. lra.
Qed.

(** The first point within the radius of a list in ascending order is the
    head of the list. *)
Lemma withinRadius_head (s : list PoiNear) (radiusMeters : num) (q : PoiNear) :
  Forall finite_distance s -> StronglySorted dist_le s ->
  hd_error (withinRadius s radiusMeters) = Some q ->
  exists rest, s = q :: rest.
Proof.
  intros Hf Hs. destruct s as [|h t]; [discriminate|].
  cbn [withinRadius filter]. destruct (le (distance_m h) radiusMeters) eqn:Hh.
  - intros E; injection E as ->. now exists t.
  - intros Hq. exfalso. apply hd_error_In in Hq. apply filter_In in Hq.
    destruct Hq as [Hin Hle].
    inversion Hs as [|? ? _ Hall]; subst. rewrite Forall_forall in Hall, Hf.
    destruct (Hf h (or_introl eq_refl)) as [x [Ex _]].
    destruct (Hf q (or_intror Hin)) as [y [Ey _]].
    pose proof (Hall q Hin) as Hhq. unfold dist_le in Hhq.
    rewrite Ex, Ey in Hhq. apply le_Fin in Hhq.
    rewrite Ex in Hh. rewrite Ey in Hle.
    rewrite (le_false_mono radiusMeters Hhq Hh) in Hle. discriminate.
Qed.

Lemma find_hd_filter (A : Type) (f : A -> bool) (l : list A) :
  find f l = hd_error (filter f l).
Proof.
  induction l as [|a rest IH]; simpl; [reflexivity|]. now destruct (f a).
Qed.

Lemma withDistances_filter (kind : Kind) (arr : list Poi) (lon lat d : num) :
  filter (near_at_distance d) (withDistances kind arr lon lat)
  = withDistances kind (filter (at_distance lon lat d) arr) lon lat.
Proof.
  unfold withDistances. induction arr as [|p rest IH]; simpl; [reflexivity|].
  unfold near_at_distance at 1, at_distance at 1, distance_to; cbn [distance_m].
  destruct (num_eq_dec _ d); simpl; now rewrite IH.
Qed.

Lemma tie_shelters_loaded :
  loaded (Sample.only_shelters Sample.tie_features) None
         (Sample.shelters_catalog Sample.tie_points).
Proof. apply shelters_loaded; [reflexivity | distinct_keys]. Qed.

Lemma tie_points_measured :
  Forall (measured (Fin 0) (Fin 0)) Sample.tie_points.
Proof. repeat constructor; apply north_measured; lra. Qed.

(** X3.  With a list cap of at least 1, [scorePoint] reports a nearest point
    for a category exactly when a point of the layer lies within the radius.
    When every point of the layer has a distance from the origin that is a
    number, the nearest point reported is a point of the layer at the least
    distance from the origin, and among the points at that distance it is
    the first in the order of the catalog. *)
Theorem scorePoint_nearest_first_of_ties
  (DATA : DataDir) (LAYERS : option Layers) (L : Layers) (params : ScoreParams)
  (n : Z) :
  loaded DATA LAYERS L ->
  topN_of params = Fin (IZR n) -> (1 <= n)%Z ->
  exists res : ScoreResult,
    scorePoint DATA params LAYERS = Normal (res, Some L)
    /\ forall k : Kind,
        (nearest (category k res) = None
         <-> inRadius (layer k L) (sp_lon params) (sp_lat params) (radius_of params)
             = [])
        /\ (Forall (measured (sp_lon params) (sp_lat params)) (layer k L) ->
            forall q : PoiNear,
              nearest (category k res) = Some q ->
              (forall p, In p (layer k L) ->
                         le (distance_m q)
                            (distance_to (sp_lon params) (sp_lat params) p) = true)
              /\ find (at_distance (sp_lon params) (sp_lat params) (distance_m q))
                      (layer k L)
                 = Some (poi q)).
Proof.
  intros Hl Htop Hn.
  destruct (scorePoint_returns params Hl) as [res Hrun]. exists res.
  split; [exact Hrun|]. intros k.
  destruct (@scorePoint_inv _ _ _ _ _ _ Hl Hrun) as (_ & Hc & _).
  rewrite Hc, Htop. unfold category_list, summary.
  cbn [nearest]. rewrite slice0_nat, hd_error_firstn by lia.
  set (lon := sp_lon params). set (lat := sp_lat params).
  split.
  - pose proof (withinRadius_length k (layer k L) lon lat (radius_of params)) as Hlen.
    destruct (withinRadius _ _) as [|q0 rest];
      destruct (inRadius _ _ _ _) as [|p0 rest']; try discriminate Hlen;
      cbn [hd_error]; split; intros; congruence.
  - intros Hfin q Hq.
    pose proof (withDistances_finite k Hfin) as Hf.
    pose proof (sort_sorted Hf) as Hs. pose proof (sort_finite Hf) as Hf'.
    destruct (withinRadius_head _ Hf' Hs Hq) as [rest Es].
    split.
    + intros p Hp.
      assert (Hin : In {| poi := p; distance_m := distance_to lon lat p; kind := k |}
                       (sort byDistance (withDistances k (layer k L) lon lat))).
      { apply sorted_withDistances_In. now exists p. }
      rewrite Es in Hin, Hs. destruct Hin as [E|Hin].
      * rewrite E. cbn [distance_m].
        destruct (distance_to_measured (proj1 (Forall_forall _ _) Hfin p Hp))
          as [d [-> _]]. apply le_Fin. lra.
      * inversion Hs as [|? ? _ Hall]; subst. rewrite Forall_forall in Hall.
        exact (Hall _ Hin).
    + rewrite find_hd_filter.
      pose proof (sort_stable (distance_m q) Hf) as Hst.
      rewrite Es in Hst. cbn [filter] in Hst.
      replace (near_at_distance (distance_m q) q) with true in Hst
        by (symmetry; now apply near_at_distance_true).
      rewrite withDistances_filter in Hst.
      destruct (filter (at_distance lon lat (distance_m q)) (layer k L))
        as [|p ps]; [discriminate|].
      cbn in Hst. injection Hst as Hq' _. rewrite Hq'. reflexivity.
Qed.

(** Three shelters, in the file at 445 m, at 111 m and again at 111 m: the
    nearest reported is the second of the file, the first of the two at
    111 m. *)
Lemma scorePoint_nearest_first_of_ties_witness :
  exists (res : ScoreResult) (q : PoiNear),
    scorePoint (Sample.only_shelters Sample.tie_features)
               (Sample.query (Fin 0) (Fin 0) None) None
    = Normal (res, Some (Sample.shelters_catalog Sample.tie_points))
    /\ nearest (res_shelters res) = Some q
    /\ poi q = Sample.poi_at "First" (Fin 0) (Fin 0.001).
Proof.
  destruct (@scorePoint_nearest_first_of_ties
              (Sample.only_shelters Sample.tie_features) None
              (Sample.shelters_catalog Sample.tie_points)
              (Sample.query (Fin 0) (Fin 0) None) 25)
    as [res [Hrun Hk]].
  - exact tie_shelters_loaded.
  - reflexivity.
  - lia.
  - exists res. destruct (Hk KShelter) as [Hnone Hq].
    cbn [layer category Sample.shelters_catalog L_shelter Sample.query sp_lon sp_lat]
      in Hnone, Hq.
    destruct (nearest (res_shelters res)) as [q|].
    + exists q. split; [exact Hrun|]. split; [reflexivity|].
      destruct (Hq tie_points_measured q eq_refl) as [Hmin Hfind].
      pose proof (Hmin (Sample.poi_at "First" (Fin 0) (Fin 0.001))
                       ltac:(right; now left)) as Hle.
      rewrite distance_north in Hle by lra.
      pose proof (find_some _ _ Hfind) as [Hp Hd].
      unfold at_distance in Hd.
      destruct (num_eq_dec (distance_to (Fin 0) (Fin 0) (poi q)) (distance_m q)) as [E|];
        [clear Hd | discriminate].
      rewrite <- E in Hle, Hfind.
      destruct Hp as [Hp|[Hp|[Hp|[]]]]; rewrite <- Hp in Hle, Hfind |- *.
      * exfalso. rewrite distance_north in Hle by lra. revert Hle. north_cmp.
      * reflexivity.
      * unfold Sample.tie_points in Hfind. cbn [find] in Hfind.
        unfold at_distance in Hfind. rewrite !distance_north in Hfind by lra.
        destruct (num_eq_dec (Fin (Sample.north 0.004)) (Fin (Sample.north 0.001)))
          as [E'|_].
        -- exfalso. apply Fin_inj in E'. revert E'. north_cmp.
        -- destruct (num_eq_dec (Fin (Sample.north 0.001)) (Fin (Sample.north 0.001)))
             as [_|N]; [|now contradiction N].
           injection Hfind as Hf. now rewrite Hf.
    + exfalso. pose proof (proj1 Hnone eq_refl) as H0.
      change (radius_of (Sample.query (Fin 0) (Fin 0) None)) with (Fin 1500) in H0.
      unfold inRadius, Sample.tie_points in H0. cbn [filter] in H0.
      rewrite !distance_north in H0 by lra.
      replace (le (Fin (Sample.north 0.004)) (Fin 1500)) with true in H0 by north_cmp.
      discriminate.
Defined.

(** ** Counts and the radius *)

Lemma category_count (kind : Kind) (arr : list Poi) (lon lat radiusMeters : num) (n : Z) :
  (0 <= n)%Z ->
  count (summary (category_list kind arr lon lat radiusMeters (Fin (IZR n))))
  = Nat.min (List.length (inRadius arr lon lat radiusMeters)) (Z.to_nat n).
Proof.
  intros Hn. unfold category_list, summary; cbn [count].
  rewrite slice0_nat, length_firstn, withinRadius_length by assumption.
  apply Nat.min_comm.
Qed.

Lemma filter_length_mono (A : Type) (f g : A -> bool) (l : list A) :
  (forall a, f a = true -> g a = true) ->
  (List.length (filter f l) <= List.length (filter g l))%nat.
Proof.
  intros H. induction l as [|a rest IH]; simpl; [lia|].
  destruct (f a) eqn:Ef.
  - rewrite (H a Ef). simpl. lia.
  - destruct (g a); simpl; lia.
Qed.

Lemma le_radius_mono (d : num) (r1 r2 : R) :
  r1 <= r2 -> le d (Fin r1) = true -> le d (Fin r2) = true.
Proof.
  intros Hr. destruct d as [| | |x]; simpl; try congruence.
  intros H. apply Rleb_true in H. apply Rleb_true. lra.
Qed.

(** X4.  With the origin and the list cap fixed, a greater radius never gives a
    smaller count, in any category. *)
Theorem count_monotone_in_radius
  (DATA : DataDir) (LAYERS : option Layers) (L : Layers)
  (p1 p2 : ScoreParams) (r1 r2 : R) (n : Z) :
  loaded DATA LAYERS L ->
  sp_lon p1 = sp_lon p2 -> sp_lat p1 = sp_lat p2 ->
  topN_of p1 = Fin (IZR n) -> topN_of p2 = Fin (IZR n) -> (0 <= n)%Z ->
  radius_of p1 = Fin r1 -> radius_of p2 = Fin r2 -> r1 <= r2 ->
  exists res1 res2 : ScoreResult,
    scorePoint DATA p1 LAYERS = Normal (res1, Some L)
    /\ scorePoint DATA p2 (Some L) = Normal (res2, Some L)
    /\ forall k : Kind, (count (category k res1) <= count (category k res2))%nat.
Proof.
  intros Hl Hlon Hlat Ht1 Ht2 Hn Hr1 Hr2 Hr.
  destruct (scorePoint_returns p1 Hl) as [res1 Hrun1].
  destruct (scorePoint_returns p2 (loaded_after Hl)) as [res2 Hrun2].
  exists res1, res2. split; [exact Hrun1|]. split; [exact Hrun2|]. intros k.
  destruct (@scorePoint_inv _ _ _ _ _ _ Hl Hrun1) as (_ & Hc1 & _).
  destruct (@scorePoint_inv _ _ _ _ _ _ (loaded_after Hl) Hrun2) as (_ & Hc2 & _).
  rewrite Hc1, Hc2, Ht1, Ht2, Hr1, Hr2, Hlon, Hlat, !category_count by assumption.
  apply Nat.min_le_compat_r. unfold inRadius. apply filter_length_mono.
  intros p. now apply le_radius_mono.
Qed.

(** Three shelters at 111 m, 445 m and 2224 m: one within 200 m, two
    within 1500 m. *)
Lemma count_monotone_in_radius_witness :
  exists res1 res2 : ScoreResult,
    scorePoint (Sample.only_shelters Sample.three_features)
               (Sample.query (Fin 0) (Fin 0) (Some (Fin 200))) None
    = Normal (res1, Some (Sample.shelters_catalog Sample.three_points))
    /\ scorePoint (Sample.only_shelters Sample.three_features)
                  (Sample.query (Fin 0) (Fin 0) (Some (Fin 1500)))
                  (Some (Sample.shelters_catalog Sample.three_points))
       = Normal (res2, Some (Sample.shelters_catalog Sample.three_points))
    /\ (count (res_shelters res1) <= count (res_shelters res2))%nat
    /\ count (res_shelters res1) = 1%nat
    /\ count (res_shelters res2) = 2%nat.
Proof.
  destruct (@count_monotone_in_radius
              (Sample.only_shelters Sample.three_features) None
              (Sample.shelters_catalog Sample.three_points)
              (Sample.query (Fin 0) (Fin 0) (Some (Fin 200)))
              (Sample.query (Fin 0) (Fin 0) (Some (Fin 1500))) 200 1500 25)
    as [res1 [res2 [H1 [H2 Hk]]]];
    try reflexivity; try exact three_shelters_loaded; try lia; try lra.
  exists res1, res2. split; [exact H1|]. split; [exact H2|].
  split; [exact (Hk KShelter)|].
  destruct (@scorePoint_inv _ _ _ _ _ _ three_shelters_loaded H1) as (_ & Hc1 & _).
  destruct (@scorePoint_inv _ _ _ _ _ _ (loaded_after three_shelters_loaded) H2)
    as (_ & Hc2 & _).
  specialize (Hc1 KShelter). specialize (Hc2 KShelter).
  cbn [category layer Sample.shelters_catalog L_shelter Sample.query sp_lon sp_lat]
    in Hc1, Hc2.
  change (topN_of (Sample.query (Fin 0) (Fin 0) (Some (Fin 200)))) with (Fin (IZR 25))
    in Hc1.
  change (topN_of (Sample.query (Fin 0) (Fin 0) (Some (Fin 1500)))) with (Fin (IZR 25))
    in Hc2.
  change (radius_of (Sample.query (Fin 0) (Fin 0) (Some (Fin 200)))) with (Fin 200)
    in Hc1.
  change (radius_of (Sample.query (Fin 0) (Fin 0) (Some (Fin 1500)))) with (Fin 1500)
    in Hc2.
  rewrite Hc1, Hc2, !category_count by lia.
  rewrite (proj1 (three_points_inRadius 200)) by lra.
  rewrite (proj1 (proj2 (three_points_inRadius 1500))) by lra.
  split; reflexivity.
Defined.

(** ** The floor and the ceiling of the score *)

(** X5.  Against a catalog without any point every query scores 0, with three
    empty categories, whatever the origin and the radius. *)
Theorem score_zero_on_empty_catalog
  (DATA : DataDir) (LAYERS : option Layers) (L : Layers) (params : ScoreParams) :
  loaded DATA LAYERS L -> all_pois L = [] ->
  exists res : ScoreResult,
    scorePoint DATA params LAYERS = Normal (res, Some L)
    /\ (forall k, category k res = {| count := 0; nearest := None |})
    /\ score res = Fin 0.
Proof.
  intros Hl Hempty.
  destruct (scorePoint_returns params Hl) as [res Hrun]. exists res.
  split; [exact Hrun|].
  destruct (@scorePoint_inv _ _ _ _ _ _ Hl Hrun) as (_ & Hc & Hs & _).
  assert (Hk : forall k, category k res = summary []).
  { intros k. rewrite Hc.
    replace (layer k L) with (@nil Poi); [now rewrite empty_category_list|].
    unfold all_pois in Hempty. apply app_eq_nil in Hempty. destruct Hempty as [E1 E2].
    apply app_eq_nil in E2. destruct E2 as [E2 E3]. now destruct k. }
  split; [exact Hk|]. rewrite Hs.
  change (res_shelters res) with (category KShelter res).
  change (res_schools res) with (category KSchool res).
  change (res_healths res) with (category KHealth res).
  rewrite !Hk, rawScore_empty. apply clamp01_unit. lra.
Qed.

Lemma score_zero_on_empty_catalog_witness :
  exists res : ScoreResult,
    scorePoint Sample.no_data (Sample.query (Fin 0) (Fin 0) (Some (Fin 0))) None
    = Normal (res, Some Sample.empty_catalog)
    /\ score res = Fin 0.
Proof.
  destruct (@score_zero_on_empty_catalog Sample.no_data None Sample.empty_catalog
              (Sample.query (Fin 0) (Fin 0) (Some (Fin 0))) no_data_loaded eq_refl)
    as [res [Hrun [_ Hs]]].
  exists res. split; [exact Hrun | exact Hs].
Defined.

Lemma categoryScore_capped (w : R) (kind : Kind) (arr : list Poi)
  (lon lat radiusMeters : num) (n : Z) :
  0 <= w <= 1 -> radiusMeters <> Fin 0 -> (0 <= n)%Z ->
  let c := summary (category_list kind arr lon lat radiusMeters (Fin (IZR n))) in
  exists s : R,
    categoryScore (Fin w) radiusMeters (count c) (nearest_distance c) = Fin s
    /\ 0 <= s <= w * (0.8 * (IZR n / (IZR n + 4)) + 0.2).
Proof.
  intros Hw Hr Hn c.
  assert (Hp : unit_interval (prox radiusMeters (nearest_distance c))).
  { destruct (nearest_distance_category kind arr lon lat radiusMeters (Fin (IZR n)))
      as [[_ E]|[d (E & Hd & Hle)]]; fold c in E; rewrite E.
    - exists 0. split; [reflexivity|lra].
    - now apply prox_in_radius. }
  destruct Hp as [p [Hp Hp01]]. pose proof OVERFLOW_gt as Ho.
  rewrite (@categoryScore_Fin w _ (count c) _ p Hp Hp01) by lra.
  eexists; split; [reflexivity|].
  pose proof (countNorm_bounds (count c)) as Hb.
  assert (Hc : INR (count c) / (INR (count c) + 4) <= IZR n / (IZR n + 4)).
  { unfold c. rewrite category_count by assumption.
    set (m := Nat.min _ _).
    assert (Hm : (m <= Z.to_nat n)%nat) by apply Nat.le_min_r.
    apply countNorm_mono in Hm.
    now rewrite (INR_IZR_INZ (Z.to_nat n)), Z2Nat.id in Hm by assumption. }
  split; [nra|]. apply Rmult_le_compat_l; [lra|]. lra.
Qed.

(** X6.  For a radius other than 0 and a list cap [topN] that is a non-negative
    integer, the score is at most [0.8 * topN / (topN + 4) + 0.2], hence
    strictly below 1: no location reaches the full score. *)
Theorem score_below_one
  (DATA : DataDir) (LAYERS : option Layers) (L : Layers) (params : ScoreParams) (n : Z) :
  loaded DATA LAYERS L ->
  radius_of params <> Fin 0 ->
  topN_of params = Fin (IZR n) -> (0 <= n)%Z ->
  exists (res : ScoreResult) (s : R),
    scorePoint DATA params LAYERS = Normal (res, Some L)
    /\ score res = Fin s
    /\ 0 <= s <= 0.8 * (IZR n / (IZR n + 4)) + 0.2
    /\ s < 1.
Proof.
  intros Hl Hr Htop Hn.
  destruct (scorePoint_returns params Hl) as [res Hrun]. exists res.
  destruct (@scorePoint_inv _ _ _ _ _ _ Hl Hrun) as (_ & Hc & Hs & _).
  change (res_shelters res) with (category KShelter res) in Hs.
  change (res_schools res) with (category KSchool res) in Hs.
  change (res_healths res) with (category KHealth res) in Hs.
  rewrite !Hc, Htop in Hs. unfold rawScore in Hs. cbv zeta in Hs.
  destruct (@categoryScore_capped 0.6 KShelter (layer KShelter L) (sp_lon params)
              (sp_lat params) (radius_of params) n ltac:(lra) Hr Hn) as [s [Es Hs1]].
  destruct (@categoryScore_capped 0.25 KSchool (layer KSchool L) (sp_lon params)
              (sp_lat params) (radius_of params) n ltac:(lra) Hr Hn) as [c [Ec Hc1]].
  destruct (@categoryScore_capped 0.15 KHealth (layer KHealth L) (sp_lon params)
              (sp_lat params) (radius_of params) n ltac:(lra) Hr Hn) as [h [Eh Hh1]].
  cbv zeta in Es, Ec, Eh. unfold WEIGHTS in Hs; cbn [w_shelter w_school w_health] in Hs.
  rewrite Es, Ec, Eh, !add_Fin in Hs.
  assert (Hn4 : 0 <= IZR n / (IZR n + 4) < 1).
  { assert (0 <= IZR n) by now apply IZR_le.
    split.
    - apply Rmult_le_pos; [assumption|]. left. apply Rinv_0_lt_compat. lra.
    - apply (Rmult_lt_reg_r (IZR n + 4)); [lra|].
      unfold Rdiv. rewrite Rmult_assoc, Rinv_l by lra. lra. }
  rewrite clamp01_unit in Hs by lra.
  exists (s + c + h). split; [exact Hrun|]. split; [exact Hs|]. lra.
Qed.

Lemma score_below_one_witness :
  exists (res : ScoreResult) (s : R),
    scorePoint (Sample.only_shelters [Sample.feature_at "A" (Fin 0) (Fin 0)])
               (Sample.query (Fin 0) (Fin 0) None) None
    = Normal (res, Some (Sample.shelters_catalog [Sample.poi_at "A" (Fin 0) (Fin 0)]))
    /\ score res = Fin s /\ s < 1.
Proof.
  destruct (@score_below_one
              (Sample.only_shelters [Sample.feature_at "A" (Fin 0) (Fin 0)]) None
              (Sample.shelters_catalog [Sample.poi_at "A" (Fin 0) (Fin 0)])
              (Sample.query (Fin 0) (Fin 0) None) 25)
    as [res [s [Hrun [Hs [_ Hlt]]]]].
  - apply (only_shelters_loaded "A" 0 0). reflexivity.
  - intros E. apply Fin_inj in E. lra.
  - reflexivity.
  - lia.
  - exists res, s. auto.
Defined.

(** ** The list cap outside the non-negative integers *)

Lemma truncate_nonneg (x : R) : 0 <= x -> truncate x = Zfloor x.
Proof.
  intros Hx. unfold truncate.
  replace (Rltb x 0) with false by (symmetry; apply Rltb_false; lra). reflexivity.
Qed.

Lemma Zfloor_nonneg (x : R) : 0 <= x -> (0 <= Zfloor x)%Z.
Proof. intros Hx. apply (Zfloor_lub 0). exact Hx. Qed.

Lemma withinRadius_withDistances (kind : Kind) (arr : list Poi)
  (lon lat radiusMeters : num) :
  withinRadius (withDistances kind arr lon lat) radiusMeters
  = withDistances kind (inRadius arr lon lat radiusMeters) lon lat.
Proof.
  unfold withinRadius, withDistances, inRadius.
  induction arr as [|p rest IH]; simpl; [reflexivity|].
  fold (distance_to lon lat p). destruct (le (distance_to lon lat p) radiusMeters);
    simpl; now rewrite IH.
Qed.

(** The points within the radius, whatever the order of the sort. *)
Lemma withinRadius_perm (kind : Kind) (arr : list Poi) (lon lat radiusMeters : num) :
  Permutation
    (withinRadius (sort byDistance (withDistances kind arr lon lat)) radiusMeters)
    (withDistances kind (inRadius arr lon lat radiusMeters) lon lat).
Proof.
  rewrite <- withinRadius_withDistances. unfold withinRadius.
  apply filter_perm, sort_perm.
Qed.

Lemma sorted_app (l1 l2 : list PoiNear) (a b : PoiNear) :
  StronglySorted dist_le (l1 ++ l2) -> In a l1 -> In b l2 -> dist_le a b.
Proof.
  induction l1 as [|x rest IH]; intros Hs Ha Hb; [destruct Ha|].
  cbn [app] in Hs. apply StronglySorted_inv in Hs. destruct Hs as [Hs Hall].
  destruct Ha as [->|Ha]; [|now apply IH].
  rewrite Forall_forall in Hall. apply Hall, in_or_app. now right.
Qed.

(** X7.  [scorePoint] hands [topN] to [slice] as it is.  Let [full] be the
    points of the layer within the radius, each with its distance, as the
    sort has left them: in ascending order of distance when every point of
    the layer has a distance that is a number.  A cap that is not negative
    is truncated to an integer and keeps that many entries from the front of
    [full]; [NaN] and [-Infinity] empty the category; [Infinity] keeps all
    of [full]; a negative integer [-j] does not empty the category but
    drops the last [j] entries of [full], the farthest, and reports the
    rest. *)
Theorem scorePoint_topN_edge_cases
  (DATA : DataDir) (LAYERS : option Layers) (L : Layers) (params : ScoreParams) :
  loaded DATA LAYERS L ->
  exists res : ScoreResult,
    scorePoint DATA params LAYERS = Normal (res, Some L)
    /\ forall k : Kind,
      exists full : list PoiNear,
        Permutation full
          (withDistances k
             (inRadius (layer k L) (sp_lon params) (sp_lat params) (radius_of params))
             (sp_lon params) (sp_lat params))
        /\ (Forall (measured (sp_lon params) (sp_lat params)) (layer k L) ->
            StronglySorted dist_le full)
        /\ (forall x : R, topN_of params = Fin x -> 0 <= x ->
              category k res = summary (firstn (Z.to_nat (Zfloor x)) full))
        /\ (topN_of params = NaN \/ topN_of params = NInf ->
            category k res = summary [])
        /\ (topN_of params = PInf -> category k res = summary full)
        /\ (forall j : Z, topN_of params = Fin (IZR (- j)) -> (0 < j)%Z ->
              exists kept dropped : list PoiNear,
                full = kept ++ dropped
                /\ List.length dropped = Nat.min (Z.to_nat j) (List.length full)
                /\ category k res = summary kept
                /\ (Forall (measured (sp_lon params) (sp_lat params)) (layer k L) ->
                    forall a b, In a kept -> In b dropped -> dist_le a b)).
Proof.
  intros Hl. destruct (scorePoint_returns params Hl) as [res Hrun]. exists res.
  split; [exact Hrun|]. intros k.
  destruct (@scorePoint_inv _ _ _ _ _ _ Hl Hrun) as (_ & Hc & _).
  rewrite Hc. unfold category_list.
  exists (withinRadius
            (sort byDistance
               (withDistances k (layer k L) (sp_lon params) (sp_lat params)))
            (radius_of params)).
  set (l := withinRadius _ _).
  assert (Hs : Forall (measured (sp_lon params) (sp_lat params)) (layer k L) ->
               StronglySorted dist_le l)
    by (intros Hm; apply filter_sorted, sort_sorted; now apply withDistances_finite).
  split; [apply withinRadius_perm|]. split; [exact Hs|].
  split; [|split; [|split]].
  - intros x -> Hx. unfold slice0. rewrite truncate_nonneg by assumption.
    pose proof (Zfloor_nonneg Hx).
    destruct (Zfloor x <? 0)%Z eqn:E; [lia | reflexivity].
  - intros [-> | ->]; reflexivity.
  - intros ->. reflexivity.
  - intros j -> Hj. rewrite slice0_negative by assumption.
    set (m := Z.to_nat (Z.max (Z.of_nat (List.length l) - j) 0)).
    exists (firstn m l), (skipn m l).
    split; [symmetry; apply firstn_skipn|]. split; [rewrite length_skipn; lia|].
    split; [reflexivity|].
    intros Hm a b Ha Hb. apply (@sorted_app (firstn m l) (skipn m l)); try assumption.
    rewrite firstn_skipn. now apply Hs.
Qed.

(** Three shelters within 3000 m.  The cap 2.5 keeps two of them; the cap
    -1 keeps two as well, and the one it drops is no nearer than those it
    keeps. *)
Lemma scorePoint_topN_edge_cases_witness :
  exists res1 res2 : ScoreResult,
    scorePoint (Sample.only_shelters Sample.three_features)
               (Sample.capped_query (Fin 0) (Fin 0) (Fin 3000) (Fin 2.5)) None
    = Normal (res1, Some (Sample.shelters_catalog Sample.three_points))
    /\ count (res_shelters res1) = 2%nat
    /\ scorePoint (Sample.only_shelters Sample.three_features)
                  (Sample.capped_query (Fin 0) (Fin 0) (Fin 3000) (Fin (IZR (- (1))))) None
       = Normal (res2, Some (Sample.shelters_catalog Sample.three_points))
    /\ exists kept dropped : list PoiNear,
         res_shelters res2 = summary kept
         /\ List.length kept = 2%nat /\ List.length dropped = 1%nat
         /\ forall a b, In a kept -> In b dropped -> dist_le a b.
Proof.
  assert (Hw : inRadius Sample.three_points (Fin 0) (Fin 0) (Fin 3000)
               = Sample.three_points)
    by (apply three_points_inRadius; lra).
  destruct (@scorePoint_topN_edge_cases
              (Sample.only_shelters Sample.three_features) None
              (Sample.shelters_catalog Sample.three_points)
              (Sample.capped_query (Fin 0) (Fin 0) (Fin 3000) (Fin 2.5))
              three_shelters_loaded)
    as [res1 [Hrun1 Hk1]].
  destruct (@scorePoint_topN_edge_cases
              (Sample.only_shelters Sample.three_features) None
              (Sample.shelters_catalog Sample.three_points)
              (Sample.capped_query (Fin 0) (Fin 0) (Fin 3000) (Fin (IZR (- (1)))))
              three_shelters_loaded)
    as [res2 [Hrun2 Hk2]].
  exists res1, res2. split; [exact Hrun1|].
  destruct (Hk1 KShelter) as (full1 & Hp1 & _ & Hx & _).
  destruct (Hk2 KShelter) as (full2 & Hp2 & _ & _ & _ & _ & Hj).
  cbn [layer category Sample.shelters_catalog L_shelter Sample.capped_query
       sp_lon sp_lat] in Hp1, Hp2, Hx, Hj.
  change (radius_of (Sample.capped_query (Fin 0) (Fin 0) (Fin 3000) (Fin 2.5)))
    with (Fin 3000) in Hp1.
  change (radius_of (Sample.capped_query (Fin 0) (Fin 0) (Fin 3000) (Fin (IZR (- (1))))))
    with (Fin 3000) in Hp2.
  rewrite Hw in Hp1, Hp2.
  apply Permutation_length in Hp1, Hp2.
  unfold withDistances, Sample.three_points in Hp1, Hp2. cbn [map List.length] in Hp1, Hp2.
  split.
  - rewrite (Hx 2.5 eq_refl) by lra. cbn [summary count].
    rewrite length_firstn, Hp1.
    replace (Zfloor 2.5) with 2%Z; [reflexivity|].
    symmetry. apply Zfloor_eq. simpl. lra.
  - split; [exact Hrun2|].
    destruct (Hj 1%Z eq_refl ltac:(lia)) as (kept & dropped & Ef & Hd & Hs & Hfar).
    exists kept, dropped. split; [exact Hs|].
    rewrite Hp2 in Hd. change (Nat.min (Z.to_nat 1) 3) with 1%nat in Hd.
    rewrite Ef, length_app, Hd in Hp2.
    split; [lia|]. split; [exact Hd|].
    apply Hfar. exact three_points_measured.
Defined.

(** ** The catalog is read once *)

Lemma scorePoint_cached (DATA : DataDir) (L : Layers) (params : ScoreParams) :
  scorePoint DATA params (Some L)
  = Normal (match sp_includeDiagnostics params with
            | Some true =>
                with_diagnostics
                  (scorePoint_result
                     (nearbyPois_of L (sp_lon params) (sp_lat params)
                                    (radius_of params) (topN_of params))
                     (sp_lon params) (sp_lat params) (radius_of params) (topN_of params))
                  (diagnostics_of L)
            | _ =>
                scorePoint_result
                  (nearbyPois_of L (sp_lon params) (sp_lat params)
                                 (radius_of params) (topN_of params))
                  (sp_lon params) (sp_lat params) (radius_of params) (topN_of params)
            end, Some L).
Proof.
  unfold scorePoint, nearbyPois, bind, ret. rewrite ensureLoaded_cached.
  destruct (sp_includeDiagnostics params) as [[|]|]; reflexivity.
Qed.

(** X8.  After a call that loaded the catalog, every later call answers from the
    catalog in memory: it returns what the first call returned for the same
    query, whatever the data files have become in the meantime, even
    unreadable. *)
Theorem catalog_is_read_once
  (DATA : DataDir) (LAYERS : option Layers) (L : Layers) (params : ScoreParams) :
  loaded DATA LAYERS L ->
  exists res : ScoreResult,
    scorePoint DATA params LAYERS = Normal (res, Some L)
    /\ forall DATA' : DataDir,
        scorePoint DATA' params (Some L) = Normal (res, Some L)
        /\ nearbyPois DATA' (sp_lon params) (sp_lat params)
                      (sp_radiusMeters params) (sp_topN params) (Some L)
           = nearbyPois DATA (sp_lon params) (sp_lat params)
                        (sp_radiusMeters params) (sp_topN params) LAYERS.
Proof.
  intros Hl. eexists. split; [apply (scorePoint_run params Hl)|].
  intros DATA'. split.
  - rewrite scorePoint_cached. reflexivity.
  - rewrite (nearbyPois_run _ _ _ _ Hl). unfold nearbyPois, bind, ret.
    now rewrite ensureLoaded_cached.
Qed.

Lemma catalog_is_read_once_witness :
  exists res : ScoreResult,
    scorePoint Sample.no_data (Sample.query (Fin 0) (Fin 0) None) None
    = Normal (res, Some Sample.empty_catalog)
    /\ scorePoint Sample.broken_data (Sample.query (Fin 0) (Fin 0) None)
                  (Some Sample.empty_catalog)
       = Normal (res, Some Sample.empty_catalog).
Proof.
  destruct (@catalog_is_read_once Sample.no_data None Sample.empty_catalog
              (Sample.query (Fin 0) (Fin 0) None) no_data_loaded)
    as [res [Hrun Hany]].
  exists res. split; [exact Hrun|]. exact (proj1 (Hany Sample.broken_data)).
Defined.

(** ** The HTTP routes *)

Lemma scorePoint_load_error (DATA : DataDir) (LAYERS : option Layers)
  (params : ScoreParams) (e : string) :
  ensureLoaded DATA LAYERS = Throw e -> scorePoint DATA params LAYERS = Throw e.
Proof.
  intros H. unfold scorePoint, nearbyPois, bind. now rewrite H.
Qed.

Lemma nearbyPois_load_error (DATA : DataDir) (LAYERS : option Layers)
  (lon lat : num) (radiusMeters topN : option num) (e : string) :
  ensureLoaded DATA LAYERS = Throw e ->
  nearbyPois DATA lon lat radiusMeters topN LAYERS = Throw e.
Proof.
  intros H. unfold nearbyPois, bind. now rewrite H.
Qed.

(** X9.  For a finite longitude and latitude, [GET /score] answers with the result
    of [scorePoint] at the given radius, or at 1500 when the radius is not a
    finite number, and leaves the catalog in memory; when the data files do
    not load it answers 500 with the error and leaves [LAYERS] as it was, so
    that the next request tries again.  [GET /nearby] does the same with
    [nearbyPois]. *)
Theorem routes_answer
  (DATA : DataDir) (LAYERS : option Layers) (lon lat : R) (radius : num) :
  (forall L : Layers,
      loaded DATA LAYERS L ->
      (exists res : ScoreResult,
          scorePoint DATA
            (Sample.query (Fin lon) (Fin lat)
                          (Some (if isFinite radius then radius else Fin 1500))) LAYERS
          = Normal (res, Some L)
          /\ score_route DATA (Fin lon) (Fin lat) radius LAYERS = (Json res, Some L))
      /\ (exists res : NearbyResult,
             nearbyPois DATA (Fin lon) (Fin lat)
                        (Some (if isFinite radius then radius else Fin 1500)) None LAYERS
             = Normal (res, Some L)
             /\ nearby_route DATA (Fin lon) (Fin lat) radius LAYERS = (Json res, Some L)))
  /\ (forall e : string,
         ensureLoaded DATA LAYERS = Throw e ->
         score_route DATA (Fin lon) (Fin lat) radius LAYERS = (Status _ 500 e, LAYERS)
         /\ nearby_route DATA (Fin lon) (Fin lat) radius LAYERS = (Status _ 500 e, LAYERS)).
Proof.
  split.
  - intros L Hl. split.
    + destruct (scorePoint_returns
                  (Sample.query (Fin lon) (Fin lat)
                                (Some (if isFinite radius then radius else Fin 1500))) Hl)
        as [res Hrun].
      exists res. split; [exact Hrun|].
      unfold score_route; cbn [isFinite negb orb].
      unfold Sample.query in Hrun. now rewrite Hrun.
    + eexists. split; [apply nearbyPois_run; exact Hl|].
      unfold nearby_route; cbn [isFinite negb orb].
      now rewrite (nearbyPois_run _ _ _ _ Hl).
  - intros e He. split.
    + unfold score_route; cbn [isFinite negb orb].
      now rewrite (@scorePoint_load_error _ _ _ _ He).
    + unfold nearby_route; cbn [isFinite negb orb].
      now rewrite (@nearbyPois_load_error _ _ _ _ _ _ _ He).
Qed.

Lemma routes_answer_witness :
  (exists res : ScoreResult,
      score_route Sample.no_data (Fin 0) (Fin 0) NaN None
      = (Json res, Some Sample.empty_catalog))
  /\ score_route Sample.broken_data (Fin 0) (Fin 0) (Fin 1500) None
     = (Status _ 500 "SyntaxError", None).
Proof.
  split.
  - destruct (proj1 (proj1 (@routes_answer Sample.no_data None 0 0 NaN)
                       Sample.empty_catalog no_data_loaded))
      as [res [_ Hroute]].
    exists res. exact Hroute.
  - apply (proj2 (@routes_answer Sample.broken_data None 0 0 (Fin 1500))
             "SyntaxError"%string).
    reflexivity.
Defined.

(** ** Deduplication and the merge of the health layers *)

Lemma dedupe_from_keeps_key (pois : list Poi) :
  forall seen p, In p pois -> ~ In (key_of p) seen ->
                 exists q, In q (dedupe_from seen pois) /\ key_of q = key_of p.
Proof.
  induction pois as [|a rest IH]; intros seen p Hin Hnew; [destruct Hin|].
  cbn [dedupe_from]. destruct (has seen (key_of a)) eqn:E.
  - destruct Hin as [->|Hin].
    + apply has_true in E. contradiction.
    + now apply IH.
  - destruct (Key_eq_dec (key_of a) (key_of p)) as [Ek|Ek].
    + exists a. split; [now left | assumption].
    + destruct Hin as [->|Hin]; [contradiction|].
      destruct (IH (key_of a :: seen) p Hin) as [q [Hq Hk]].
      * intros [H|H]; [contradiction | now apply Hnew].
      * exists q. split; [now right | assumption].
Qed.

(** X10.  What [dedupePois] returns has pairwise distinct (name, longitude,
    latitude) triples, still holds a point for every triple of the input,
    and is left unchanged by a second pass. *)
Theorem dedupePois_idempotent (pois : list Poi) :
  NoDup (map key_of (dedupePois pois))
  /\ (forall p, In p pois ->
                exists q, In q (dedupePois pois) /\ key_of q = key_of p)
  /\ (forall q, In q (dedupePois pois) -> In q pois)
  /\ dedupePois (dedupePois pois) = dedupePois pois.
Proof.
  split; [apply dedupePois_NoDup|]. split; [|split].
  - intros p Hp. rewrite dedupePois_from. apply dedupe_from_keeps_key; auto.
  - intros q. apply dedupePois_In.
  - apply dedupePois_NoDup_id, dedupePois_NoDup.
Qed.

Lemma dedupePois_idempotent_witness :
  exists q, In q (dedupePois [Sample.poi_at "A" (Fin 1) (Fin 2);
                              Sample.poi_at "A" (Fin 1) (Fin 2)])
            /\ key_of q = key_of (Sample.poi_at "A" (Fin 1) (Fin 2)).
Proof.
  apply (proj1 (proj2 (dedupePois_idempotent
                         [Sample.poi_at "A" (Fin 1) (Fin 2);
                          Sample.poi_at "A" (Fin 1) (Fin 2)]))).
  now left.
Defined.

Lemma readGeoPoints_NoDup (file : DataFile) (pois : list Poi) :
  readGeoPoints file = Normal pois -> NoDup (map key_of pois).
Proof.
  destruct file as [| | | |raw]; simpl; intros E; try discriminate;
    injection E as <-; try constructor; apply dedupePois_NoDup.
Qed.

Lemma key_is_new_has (a : list Poi) (p : Poi) :
  key_is_new a p = negb (has (map key_of a) (key_of p)).
Proof.
  unfold key_is_new. f_equal.
  destruct (has (map key_of a) (key_of p)) eqn:E.
  - apply has_true, in_map_iff in E. destruct E as [q [Hk Hq]].
    apply existsb_exists. exists q. split; [assumption|]. now apply has_key_true.
  - apply has_false in E. destruct (existsb _ a) eqn:Ex; [|reflexivity].
    apply existsb_exists in Ex. destruct Ex as [q [Hq Hk]].
    apply has_key_true in Hk. exfalso. apply E. rewrite <- Hk. now apply in_map.
Qed.

(** X11.  The merged health layer is the list of the points of health.geojson, in
    their order, followed by the points of hospitals.geojson whose (name,
    longitude, latitude) triple is not among them.  When the two files hold
    the same features, as the layer builder writes them, the layer is the
    list of the points of health.geojson: the copy adds nothing. *)
Theorem health_layer_is_ordered_merge
  (DATA : DataDir) (L : Layers) (LAYERS' : option Layers) :
  ensureLoaded DATA None = Normal (L, LAYERS') ->
  exists healthA healthB : list Poi,
    readGeoPoints (FILES_health DATA) = Normal healthA
    /\ readGeoPoints (FILES_hospital DATA) = Normal healthB
    /\ L_health L = healthA ++ filter (key_is_new healthA) healthB
    /\ (FILES_hospital DATA = FILES_health DATA -> L_health L = healthA).
Proof.
  intros H. apply ensureLoaded_fresh in H.
  destruct H as (s & c & a & b & _ & _ & Ha & Hb & -> & _).
  exists a, b. split; [exact Ha|]. split; [exact Hb|].
  pose proof (readGeoPoints_NoDup _ Ha) as Hna.
  pose proof (readGeoPoints_NoDup _ Hb) as Hnb.
  assert (E : dedupePois (a ++ b) = a ++ filter (key_is_new a) b).
  { rewrite dedupePois_from, dedupe_from_app.
    rewrite <- !dedupePois_from, (@dedupePois_NoDup_id _ Hna), app_nil_r.
    f_equal. rewrite dedupe_from_NoDup_filter by assumption.
    apply filter_ext. intros p. now rewrite key_is_new_has. }
  cbn [L_health]. split; [exact E|].
  intros Hsame. rewrite Hsame, Ha in Hb. injection Hb as <-.
  rewrite E. replace (filter (key_is_new a) a) with (@nil Poi); [apply app_nil_r|].
  symmetry. apply filter_all_false. intros p Hp. unfold key_is_new.
  replace (existsb (has_key (key_of p)) a) with true; [reflexivity|].
  symmetry. apply existsb_exists. exists p. split; [assumption|].
  now apply has_key_true.
Qed.

Lemma health_layer_is_ordered_merge_witness :
  L_health {| L_shelter := []; L_school := [];
              L_health := dedupePois ([Sample.poi_at "H" (Fin 1) (Fin 2)]
                                      ++ [Sample.poi_at "H" (Fin 1) (Fin 2)]) |}
  = [Sample.poi_at "H" (Fin 1) (Fin 2)].
Proof.
  destruct (@health_layer_is_ordered_merge
              (alias_data [Sample.feature_at "H" (Fin 1) (Fin 2)])
              {| L_shelter := []; L_school := [];
                 L_health := dedupePois ([Sample.poi_at "H" (Fin 1) (Fin 2)]
                                         ++ [Sample.poi_at "H" (Fin 1) (Fin 2)]) |}
              (Some {| L_shelter := []; L_school := [];
                       L_health := dedupePois ([Sample.poi_at "H" (Fin 1) (Fin 2)]
                                               ++ [Sample.poi_at "H" (Fin 1) (Fin 2)]) |}))
    as [a [b [Ha [Hb [_ Hsame]]]]].
  - apply ensureLoaded_fresh.
    exists [], [], [Sample.poi_at "H" (Fin 1) (Fin 2)],
           [Sample.poi_at "H" (Fin 1) (Fin 2)].
    repeat split; reflexivity.
  - rewrite (Hsame eq_refl). injection Ha as <-. reflexivity.
Defined.

(** ** Names *)

Module StringFacts.

Import JSString.
Local Open Scope list_scope.
Local Open Scope string_scope.

Lemma sapp_nil_r (s : string) : s ++ EmptyString = s.
Proof. induction s; simpl; congruence. Qed.

Lemma sapp_assoc (a b c : string) : (a ++ b) ++ c = a ++ b ++ c.
Proof. induction a; simpl; congruence. Qed.

Lemma slength_app (a b : string) :
  String.length (a ++ b) = (String.length a + String.length b)%nat.
Proof. induction a; simpl; congruence. Qed.

Lemma reverse_app (a b : string) : reverse (a ++ b) = reverse b ++ reverse a.
Proof.
  induction a as [|c a IH]; simpl.
  - now rewrite sapp_nil_r.
  - now rewrite IH, sapp_assoc.
Qed.

Lemma reverse_involutive (s : string) : reverse (reverse s) = s.
Proof.
  induction s as [|c s IH]; simpl; [reflexivity|].
  rewrite reverse_app, IH. reflexivity.
Qed.

Lemma reverse_length (s : string) : String.length (reverse s) = String.length s.
Proof.
  induction s as [|c s IH]; simpl; [reflexivity|].
  rewrite slength_app, IH. simpl. lia.
Qed.

Lemma strip_prefix_app (p s r : string) :
  strip_prefix p s = Some r -> s = p ++ r.
Proof.
  revert s. induction p as [|a p IH]; intros s; simpl.
  - intros E. now injection E as ->.
  - destruct s as [|b s]; [discriminate|].
    destruct (Ascii.eqb_spec a b) as [->|]; [|discriminate].
    intros E. f_equal. now apply IH.
Qed.

Lemma strip_prefix_ext (p s r post : string) :
  strip_prefix p s = Some r -> strip_prefix p (s ++ post) = Some (r ++ post).
Proof.
  revert s. induction p as [|a p IH]; intros s; simpl.
  - intros E. now injection E as ->.
  - destruct s as [|b s]; [discriminate|]. simpl.
    destruct (Ascii.eqb a b); [apply IH | discriminate].
Qed.

Lemma strip_one_Some (ps : list string) (s r : string) :
  strip_one ps s = Some r -> exists p, In p ps /\ s = p ++ r.
Proof.
  induction ps as [|p ps IH]; simpl; [discriminate|].
  destruct (strip_prefix p s) as [r'|] eqn:E.
  - intros E'. injection E' as ->. exists p. split; [now left|].
    now apply strip_prefix_app.
  - intros H. destruct (IH H) as [q [Hq Hs]]. exists q. auto.
Qed.

(** If no pattern starts a string, none starts a prefix of it. *)
Lemma strip_one_ext (ps : list string) (s post : string) :
  strip_one ps (s ++ post) = None -> strip_one ps s = None.
Proof.
  induction ps as [|p ps IH]; simpl; [reflexivity|].
  destruct (strip_prefix p (s ++ post)) eqn:E; [discriminate|].
  destruct (strip_prefix p s) eqn:E2; [|exact IH].
  apply strip_prefix_ext with (post := post) in E2. congruence.
Qed.

Lemma strip_one_empty (ps : list string) :
  Forall (fun p => p <> EmptyString) ps -> strip_one ps EmptyString = None.
Proof.
  induction 1 as [|p ps Hp _ IH]; simpl; [reflexivity|].
  destruct p; [contradiction|]. exact IH.
Qed.

Lemma strip_all_id (fuel : nat) (ps : list string) (s : string) :
  strip_one ps s = None -> strip_all fuel ps s = s.
Proof. intros H. destruct fuel; simpl; [reflexivity|]. now rewrite H. Qed.

(** With fuel for every character of the string, nothing is left to
    strip. *)
Lemma strip_all_fixed (ps : list string) :
  Forall (fun p => p <> EmptyString) ps ->
  forall (fuel : nat) (s : string),
    (String.length s <= fuel)%nat ->
    strip_one ps (strip_all fuel ps s) = None.
Proof.
  intros Hne. induction fuel as [|fuel IH]; intros s Hlen; simpl.
  - destruct s; [|simpl in Hlen; lia]. now apply strip_one_empty.
  - destruct (strip_one ps s) as [r|] eqn:E; [|exact E].
    apply IH. destruct (@strip_one_Some _ _ _ E) as [p [Hp ->]].
    rewrite Forall_forall in Hne. specialize (Hne p Hp).
    rewrite slength_app in Hlen. destruct p; [contradiction|]. simpl in Hlen. lia.
Qed.

(** What is left is the end of the string. *)
Lemma strip_all_suffix (ps : list string) (fuel : nat) (s : string) :
  exists pre, s = pre ++ strip_all fuel ps s.
Proof.
  revert s. induction fuel as [|fuel IH]; intros s; simpl.
  - now exists EmptyString.
  - destruct (strip_one ps s) as [r|] eqn:E; [|now exists EmptyString].
    destruct (@strip_one_Some _ _ _ E) as [p [_ ->]].
    destruct (IH r) as [pre Hpre]. exists (p ++ pre).
    rewrite sapp_assoc. now rewrite <- Hpre.
Qed.

Lemma white_space_nonempty : Forall (fun p => p <> EmptyString) white_space.
Proof. repeat constructor; discriminate. Qed.

Lemma reversed_white_space_nonempty :
  Forall (fun p => p <> EmptyString) (map reverse white_space).
Proof. repeat constructor; discriminate. Qed.

(** A white-space character at the start of a string is the one that is
    stripped: no other starts with the same bytes. *)
Lemma strip_one_white_space (w s : string) :
  In w white_space -> strip_one white_space (w ++ s) = Some s.
Proof.
  intros H. repeat (destruct H as [<-|H]; [reflexivity|]). destruct H.
Qed.

Lemma white_space_length (w : string) :
  In w white_space -> (1 <= String.length w)%nat.
Proof.
  intros H. repeat (destruct H as [<-|H]; [simpl; lia|]). destruct H.
Qed.

End StringFacts.

Import JSString StringFacts.

Lemma starts_with_space_false (s : string) :
  starts_with_space s = false <-> strip_one white_space s = None.
Proof.
  unfold starts_with_space. destruct (strip_one white_space s); split; congruence.
Qed.

Lemma ends_with_space_false (s : string) :
  ends_with_space s = false <-> strip_one (map reverse white_space) (reverse s) = None.
Proof.
  unfold ends_with_space.
  destruct (strip_one (map reverse white_space) (reverse s)); split; congruence.
Qed.

Lemma trimStart_no_space (s : string) : starts_with_space (trimStart s) = false.
Proof.
  apply starts_with_space_false. unfold trimStart.
  apply strip_all_fixed; [apply white_space_nonempty | lia].
Qed.

Lemma trimEnd_no_space (s : string) : ends_with_space (trimEnd s) = false.
Proof.
  apply ends_with_space_false. unfold trimEnd. rewrite reverse_involutive.
  apply strip_all_fixed; [apply reversed_white_space_nonempty|].
  rewrite reverse_length. lia.
Qed.

(** [trimEnd] returns a start of the string. *)
Lemma trimEnd_prefix (s : string) : exists post, s = (trimEnd s ++ post)%string.
Proof.
  unfold trimEnd.
  destruct (strip_all_suffix (map reverse white_space) (String.length s) (reverse s))
    as [pre Hpre].
  exists (reverse pre). rewrite <- reverse_app, <- Hpre.
  symmetry. apply reverse_involutive.
Qed.

Lemma trim_no_space (s : string) :
  starts_with_space (trim s) = false /\ ends_with_space (trim s) = false.
Proof.
  unfold trim. split; [|apply trimEnd_no_space].
  apply starts_with_space_false.
  destruct (trimEnd_prefix (trimStart s)) as [post Hpost].
  apply (@strip_one_ext _ _ post). rewrite <- Hpost.
  apply starts_with_space_false, trimStart_no_space.
Qed.

Lemma trim_idempotent (s : string) : trim (trim s) = trim s.
Proof.
  destruct (trim_no_space s) as [Hs He].
  apply starts_with_space_false in Hs. apply ends_with_space_false in He.
  unfold trim at 1. unfold trimStart. rewrite (@strip_all_id _ _ _ Hs).
  unfold trimEnd. rewrite (@strip_all_id _ _ _ He). apply reverse_involutive.
Qed.

Lemma trimStart_blank (s : string) :
  blank s ->
  forall fuel, (String.length s <= fuel)%nat ->
               strip_all fuel white_space s = EmptyString.
Proof.
  induction 1 as [|w s Hw Hs IH]; intros fuel Hlen.
  - now destruct fuel.
  - rewrite slength_app in Hlen. pose proof (@white_space_length w Hw).
    destruct fuel as [|fuel]; [lia|]. cbn [strip_all].
    rewrite (@strip_one_white_space w s Hw). apply IH. lia.
Qed.

Lemma trim_blank (s : string) : blank s -> trim s = EmptyString.
Proof.
  intros H. unfold trim, trimStart. now rewrite (@trimStart_blank s H (String.length s)) by lia.
Qed.

Lemma readFeature_name (f : Feature) (p : Poi) :
  readFeature f = Some p ->
  name p = trim (feature_name f) /\ name p <> EmptyString.
Proof.
  unfold readFeature. destruct (geometry f) as [g|]; [|discriminate].
  destruct (negb (g_type g =? "Point")%string); [discriminate|].
  destruct (negb _ || negb _)%bool; [discriminate|].
  cbv zeta. fold (feature_name f).
  destruct (String.eqb (trim (feature_name f)) EmptyString) eqn:Hn; [discriminate|].
  intros E; injection E as <-. cbn [name].
  apply String.eqb_neq in Hn. auto.
Qed.

(** X12.  The name of a point that the loader keeps is the name of its
    feature with the white space of ECMAScript trimmed off both ends: it is
    not empty, neither begins nor ends with a white-space character, and
    trimming it again changes nothing.  A feature whose name is missing,
    empty or made of white space only is dropped. *)
Theorem loaded_names_are_trimmed :
  (forall (f : Feature) (p : Poi),
      readFeature f = Some p ->
      name p = trim (feature_name f)
      /\ name p <> EmptyString
      /\ starts_with_space (name p) = false
      /\ ends_with_space (name p) = false
      /\ trim (name p) = name p)
  /\ (forall f : Feature, blank (feature_name f) -> readFeature f = None)
  /\ (forall (file : DataFile) (pois : list Poi) (p : Poi),
         readGeoPoints file = Normal pois -> In p pois ->
         name p <> EmptyString
         /\ starts_with_space (name p) = false
         /\ ends_with_space (name p) = false).
Proof.
  assert (H1 : forall (f : Feature) (p : Poi),
             readFeature f = Some p ->
             name p = trim (feature_name f)
             /\ name p <> EmptyString
             /\ starts_with_space (name p) = false
             /\ ends_with_space (name p) = false
             /\ trim (name p) = name p).
  { intros f p Hf. destruct (@readFeature_name _ _ Hf) as [E Hne].
    split; [exact E|]. split; [exact Hne|]. rewrite E.
    destruct (trim_no_space (feature_name f)) as [Hs He].
    split; [exact Hs|]. split; [exact He|]. apply trim_idempotent. }
  split; [exact H1|]. split.
  - intros f Hb. destruct (readFeature f) as [p|] eqn:Hf; [|reflexivity].
    destruct (@readFeature_name _ _ Hf) as [E Hne].
    rewrite (@trim_blank _ Hb) in E. contradiction.
  - intros file pois p Hr Hin.
    assert (Hf : exists f, readFeature f = Some p).
    { destruct file as [| | | |raw]; simpl in Hr; try discriminate;
        injection Hr as <-; try (now destruct Hin).
      apply dedupePois_In, readFeatures_In in Hin. destruct Hin as [f [_ Hf]].
      now exists f. }
    destruct Hf as [f Hf]. destruct (H1 f p Hf) as (_ & Hne & Hs & He & _). auto.
Qed.

(** A name between an ideographic space and a no-break space is kept
    without them; a name that is an ideographic space is dropped. *)
Lemma loaded_names_are_trimmed_witness :
  readFeature (Sample.feature_at Sample.padded_name (Fin 0) (Fin 0.001))
  = Some (Sample.poi_at "Town Hall" (Fin 0) (Fin 0.001))
  /\ trim (Sample.padded_name) = "Town Hall"%string
  /\ starts_with_space "Town Hall" = false
  /\ readFeature (Sample.feature_at Sample.blank_name (Fin 0) (Fin 0.001)) = None.
Proof.
  assert (Hr : readFeature (Sample.feature_at Sample.padded_name (Fin 0) (Fin 0.001))
               = Some (Sample.poi_at "Town Hall" (Fin 0) (Fin 0.001)))
    by reflexivity.
  destruct (proj1 loaded_names_are_trimmed _ _ Hr) as (Hn & _ & Hs & _).
  split; [exact Hr|]. split; [symmetry; exact Hn|]. split; [exact Hs|].
  apply (proj1 (proj2 loaded_names_are_trimmed)).
  change (blank (Sample.blank_name ++ EmptyString)%string).
  apply blank_space; [|apply blank_empty].
  unfold Sample.blank_name, white_space. simpl. tauto.
Defined.

(** ** Symmetry of the distance *)

Lemma hav_a_sym (lon1 lat1 lon2 lat2 : R) :
  hav_a lon1 lat1 lon2 lat2 = hav_a lon2 lat2 lon1 lat1.
Proof.
  unfold hav_a, toRadR.
  replace ((lat1 - lat2) * PI / 180 / 2) with (- ((lat2 - lat1) * PI / 180 / 2)) by lra.
  replace ((lon1 - lon2) * PI / 180 / 2) with (- ((lon2 - lon1) * PI / 180 / 2)) by lra.
  rewrite !sin_neg. ring.
Qed.

Lemma no_overflow_sym (lon1 lat1 lon2 lat2 : R) :
  no_overflow lon1 lat1 lon2 lat2 -> no_overflow lon2 lat2 lon1 lat1.
Proof.
  unfold no_overflow, converts. intros (H1 & H2 & H3 & H4).
  repeat split; lra.
Qed.

(** X13.  The distance from a point to another is the distance back, for all
    arguments: both are the same number, or both are [NaN]. *)
Theorem haversineMeters_symmetric (lon1 lat1 lon2 lat2 : num) :
  haversineMeters lon1 lat1 lon2 lat2 = haversineMeters lon2 lat2 lon1 lat1.
Proof.
  destruct (isFinite lon1 && isFinite lat1 && isFinite lon2 && isFinite lat2) eqn:H.
  - destruct lon1 as [| | |x1], lat1 as [| | |y1], lon2 as [| | |x2], lat2 as [| | |y2];
      try discriminate.
    destruct (no_overflow_dec x1 y1 x2 y2) as [Hn|Hn].
    + rewrite !haversineMeters_Fin; [|now apply no_overflow_sym | exact Hn].
      unfold great_circle. now rewrite hav_a_sym.
    + rewrite !haversineMeters_overflow; [reflexivity | | exact Hn].
      intros Hn'. apply Hn. now apply no_overflow_sym.
  - rewrite !haversineMeters_nonfinite; [reflexivity | | assumption].
    destruct (isFinite lon1), (isFinite lat1), (isFinite lon2), (isFinite lat2);
      simpl in *; congruence.
Qed.

(* ================================================================== *)
(** * Part X.  Further properties of score.ts                          *)
(* ================================================================== *)

Import ScoreTsSpec ScoreTsFacts.

(** The term [a] is [NaN], or a number between 0 and 1. *)
Lemma haversine_a_cases (lon1 lat1 lon2 lat2 : num) :
  haversine_a lon1 lat1 lon2 lat2 = NaN
  \/ exists a : R, haversine_a lon1 lat1 lon2 lat2 = Fin a /\ 0 <= a <= 1.
Proof.
  destruct (isFinite lon1 && isFinite lat1 && isFinite lon2 && isFinite lat2) eqn:H.
  - destruct lon1 as [| | |x1], lat1 as [| | |y1], lon2 as [| | |x2], lat2 as [| | |y2];
      try discriminate.
    destruct (no_overflow_dec x1 y1 x2 y2) as [Hn|Hn].
    + right. eexists. split; [now apply haversine_a_Fin | apply hav_a_bounds].
    + left. apply haversine_a_NaN. rewrite !sub_Fin.
      destruct (converts_dec y1) as [H1|H1];
        [|now rewrite (toRad_overflow H1)].
      destruct (converts_dec y2) as [H2|H2];
        [|now rewrite (toRad_overflow H2), andb_false_r].
      destruct (converts_dec (y2 - y1)) as [H3|H3];
        [|now rewrite (toRad_overflow H3), andb_false_r].
      destruct (converts_dec (x2 - x1)) as [H4|H4];
        [|now rewrite (toRad_overflow H4), andb_false_r].
      destruct Hn. exact (conj H1 (conj H2 (conj H3 H4))).
  - left. apply haversine_a_NaN.
    destruct (isFinite lat1) eqn:H1.
    + destruct (isFinite lat2) eqn:H2.
      * assert (Hl : isFinite (sub lon2 lon1) = false).
        { destruct (isFinite lon1) eqn:H3.
          - apply sub_nonfinite_l. now destruct (isFinite lon2).
          - now apply sub_nonfinite_r. }
        rewrite (toRad_nonfinite _ Hl). apply andb_false_r.
      * rewrite (toRad_nonfinite _ H2). now rewrite andb_false_r.
    + now rewrite (toRad_nonfinite _ H1).
Qed.

(** In exact arithmetic the term [a] does not exceed 1, and the distance of
    score.ts, which does not clamp, is the distance of poi-index.ts. *)
Lemma legacy_haversine_eq (lon1 lat1 lon2 lat2 : num) :
  ScoreTs.haversineMeters lon1 lat1 lon2 lat2
  = haversineMeters lon1 lat1 lon2 lat2.
Proof.
  change (ScoreTs.haversineMeters lon1 lat1 lon2 lat2)
    with (JS.mul (JS.mul (Fin 2) ScoreTs.R)
            (Math_asin (Math_sqrt (haversine_a lon1 lat1 lon2 lat2)))).
  unfold haversineMeters, haversine_of_a.
  destruct (haversine_a_cases lon1 lat1 lon2 lat2) as [->|[a [-> Ha]]];
    [reflexivity|].
  unfold Math_sqrt.
  replace (Rltb a 0) with false by (symmetry; apply Rltb_false; lra).
  rewrite min_Fin.
  replace (Rmin 1 (sqrt a)) with (sqrt a); [reflexivity|].
  assert (sqrt a <= 1) by (rewrite <- sqrt_1; apply sqrt_le_1; lra).
  unfold Rmin. rdec.
Qed.

Lemma legacy_haversine_Fin (lon1 lat1 lon2 lat2 : R) :
  no_overflow lon1 lat1 lon2 lat2 ->
  ScoreTs.haversineMeters (Fin lon1) (Fin lat1) (Fin lon2) (Fin lat2)
  = Fin (great_circle lon1 lat1 lon2 lat2).
Proof. intros H. rewrite legacy_haversine_eq. now apply haversineMeters_Fin. Qed.

Lemma legacy_distance_cases (lon lat : num) (p : ScoreTs.POI) :
  ScoreTsSpec.distance_to lon lat p = NaN
  \/ exists d : R, ScoreTsSpec.distance_to lon lat p = Fin d /\ 0 <= d.
Proof.
  unfold ScoreTsSpec.distance_to. rewrite legacy_haversine_eq.
  destruct (haversineMeters_cases lon lat (ScoreTs.lon p) (ScoreTs.lat p))
    as [H|[d [H [H0 _]]]]; [now left | right; now exists d].
Qed.

Lemma legacy_distance_measured (lon lat : num) (p : ScoreTs.POI) :
  ScoreTsSpec.measured lon lat p ->
  exists d : R, ScoreTsSpec.distance_to lon lat p = Fin d /\ 0 <= d.
Proof.
  intros H. destruct (legacy_distance_cases lon lat p) as [E|E]; [contradiction|exact E].
Qed.

(** Points of ordinary magnitude have a distance that is a number. *)
Lemma legacy_ordinary_measured (lon lat x y : R) (p : ScoreTs.POI) :
  ScoreTs.lon p = Fin x -> ScoreTs.lat p = Fin y ->
  ordinary lon -> ordinary lat -> ordinary x -> ordinary y ->
  ScoreTsSpec.measured (Fin lon) (Fin lat) p.
Proof.
  intros Ex Ey H1 H2 H3 H4. unfold ScoreTsSpec.measured, ScoreTsSpec.distance_to.
  rewrite Ex, Ey, legacy_haversine_Fin by now apply ordinary_no_overflow.
  discriminate.
Qed.

(** The distance from the origin (0, 0) to a point due north of it. *)
Lemma legacy_distance_north (nm : string) (y : R) :
  0 <= y <= 180 ->
  ScoreTsSpec.distance_to (Fin 0) (Fin 0) (ScoreTsSpec.point nm 0 y)
  = Fin (Sample.north y).
Proof.
  intros Hy. unfold ScoreTsSpec.distance_to, ScoreTsSpec.point;
    cbn [ScoreTs.lon ScoreTs.lat].
  rewrite legacy_haversine_Fin
    by (apply ordinary_no_overflow; apply in_range_ordinary; lra).
  rewrite great_circle_meridian by lra.
  unfold Sample.north. do 3 f_equal. lra.
Qed.

Lemma legacy_north_measured (nm : string) (y : R) :
  0 <= y <= 180 ->
  ScoreTsSpec.measured (Fin 0) (Fin 0) (ScoreTsSpec.point nm 0 y).
Proof.
  intros Hy. unfold ScoreTsSpec.measured. rewrite legacy_distance_north by assumption.
  discriminate.
Qed.

(** The latitude [2^1023] is too large for the conversion to radians. *)
Lemma legacy_distance_beyond (nm : string) :
  ScoreTsSpec.distance_to (Fin 0) (Fin 0) (ScoreTsSpec.point nm 0 (2 ^ 1023)) = NaN.
Proof.
  unfold ScoreTsSpec.distance_to, ScoreTsSpec.point; cbn [ScoreTs.lon ScoreTs.lat].
  rewrite legacy_haversine_eq. apply haversineMeters_overflow.
  intros (_ & [_ H] & _).
  pose proof PI2_3_2 as Hpi. pose proof OVERFLOW_lt as Hlt.
  assert (2 ^ 1024 <= 2 ^ 1023 * PI); [|lra].
  change (2 ^ 1024) with (2 * 2 ^ 1023).
  assert (0 < 2 ^ 1023) by (apply pow_lt; lra). nra.
Qed.

(** ** [nearest] of score.ts *)

(** The loop of [nearest], started from a running pair with a finite
    distance: it ends with the least distance seen, on the first point that
    reached it. *)
Lemma nearest_loop (lon lat : num) (rest : list ScoreTs.POI) :
  Forall (ScoreTsSpec.measured lon lat) rest ->
  forall (b : ScoreTs.POI) (db : R),
  exists (best : ScoreTs.POI) (d : R),
    fold_left (ScoreTs.nearest_step lon lat) rest (b, Fin db)
    = (best, Fin d)
    /\ d <= db
    /\ (forall q, In q rest ->
          exists dq, ScoreTsSpec.distance_to lon lat q = Fin dq /\ d <= dq)
    /\ ((best = b /\ d = db)
        \/ (ScoreTsSpec.distance_to lon lat best = Fin d /\ d < db
            /\ find (ScoreTsSpec.at_distance lon lat (Fin d)) rest
               = Some best)).
Proof.
  induction 1 as [|p rest Hp Hrest IH]; intros b db.
  - exists b, db. cbn. repeat split; [lra | intros q [] | left; split; reflexivity].
  - destruct (legacy_distance_measured Hp) as [x [Ex Hx]].
    cbn [fold_left]. unfold ScoreTs.nearest_step at 2.
    fold (ScoreTsSpec.distance_to lon lat p). rewrite Ex.
    cbn [snd JS.lt]. unfold Rltb. destruct (Rlt_dec x db) as [Hlt|Hge].
    + destruct (IH p x) as (best & d & Hrun & Hle & Hall & Hcase).
      exists best, d. split; [exact Hrun|]. split; [lra|]. split.
      * intros q [<-|Hq]; [exists x; split; [exact Ex | exact Hle] | exact (Hall q Hq)].
      * right. destruct Hcase as [[-> ->]|(Hd & Hlt' & Hfind)].
        -- split; [exact Ex|]. split; [exact Hlt|].
           cbn [find]. unfold ScoreTsSpec.at_distance at 1. rewrite Ex.
           destruct (num_eq_dec (Fin x) (Fin x)); [reflexivity | congruence].
        -- split; [exact Hd|]. split; [lra|].
           cbn [find]. unfold ScoreTsSpec.at_distance at 1. rewrite Ex.
           destruct (num_eq_dec (Fin x) (Fin d)) as [E|_]; [|exact Hfind].
           apply Fin_inj in E. lra.
    + destruct (IH b db) as (best & d & Hrun & Hle & Hall & Hcase).
      exists best, d. split; [exact Hrun|]. split; [exact Hle|]. split.
      * intros q [<-|Hq]; [exists x; split; [exact Ex | lra] | exact (Hall q Hq)].
      * destruct Hcase as [Hsame|(Hd & Hlt' & Hfind)]; [left; exact Hsame|].
        right. split; [exact Hd|]. split; [exact Hlt'|].
        cbn [find]. unfold ScoreTsSpec.at_distance at 1. rewrite Ex.
        destruct (num_eq_dec (Fin x) (Fin d)) as [E|_]; [|exact Hfind].
        apply Fin_inj in E. lra.
Qed.

(** What [nearest] returns on a layer of points whose distances are
    numbers. *)
Lemma nearest_spec (lon lat : num) (p0 : ScoreTs.POI) (rest : list ScoreTs.POI) :
  Forall (ScoreTsSpec.measured lon lat) (p0 :: rest) ->
  exists (best : ScoreTs.POI) (d : R),
    ScoreTs.nearest (p0 :: rest) lon lat
    = Some {| ScoreTs.poi := best; ScoreTs.distance_m := Math_round (Fin d) |}
    /\ 0 <= d
    /\ ScoreTsSpec.distance_to lon lat best = Fin d
    /\ (forall q, In q (p0 :: rest) ->
          exists dq, ScoreTsSpec.distance_to lon lat q = Fin dq /\ d <= dq)
    /\ find (ScoreTsSpec.at_distance lon lat (Fin d)) (p0 :: rest)
       = Some best.
Proof.
  intros Hall. inversion Hall as [|? ? Hp0 Hrest]; subst.
  destruct (legacy_distance_measured Hp0) as [x0 [E0 H0]].
  destruct (nearest_loop Hrest p0 x0) as (best & d & Hrun & Hle & Hmin & Hcase).
  exists best, d. unfold ScoreTs.nearest.
  fold (ScoreTsSpec.distance_to lon lat p0). rewrite E0. cbv zeta.
  rewrite Hrun.
  assert (Hbest : ScoreTsSpec.distance_to lon lat best = Fin d).
  { destruct Hcase as [[-> ->]|[Hd _]]; assumption. }
  split; [reflexivity|]. split.
  { destruct (legacy_distance_cases lon lat best) as [E|[d' [Ed' Hd']]];
      [congruence|].
    rewrite Hbest in Ed'. apply Fin_inj in Ed'. lra. }
  split; [exact Hbest|]. split.
  - intros q [<-|Hq]; [exists x0; split; [exact E0 | exact Hle] | exact (Hmin q Hq)].
  - cbn [find]. unfold ScoreTsSpec.at_distance at 1. rewrite E0.
    destruct Hcase as [[-> ->]|(_ & Hlt & Hfind)].
    + destruct (num_eq_dec (Fin x0) (Fin x0)); [reflexivity | congruence].
    + destruct (num_eq_dec (Fin x0) (Fin d)) as [E|_]; [|exact Hfind].
      apply Fin_inj in E. lra.
Qed.

(** Once the running distance is [NaN], no point replaces the running
    one. *)
Lemma nearest_loop_NaN (lon lat : num) (rest : list ScoreTs.POI) (b : ScoreTs.POI) :
  fold_left (ScoreTs.nearest_step lon lat) rest (b, NaN) = (b, NaN).
Proof.
  induction rest as [|p rest IH]; [reflexivity|].
  cbn [fold_left]. unfold ScoreTs.nearest_step at 2. cbn [snd].
  replace (JS.lt (ScoreTs.haversineMeters lon lat (ScoreTs.lon p) (ScoreTs.lat p)) NaN)
    with false by (now destruct (ScoreTs.haversineMeters _ _ _ _)).
  exact IH.
Qed.

(** X14.  (score.ts, [nearest]).  [nearest] returns null exactly on the
    empty layer.  On a layer whose points all have a distance from the
    origin that is a number, it returns a point of the layer whose distance
    [d] is the least of the layer, the first such point in layer order (a
    later point at the same distance does not replace it, the test being
    [d < bestD]), with [distance_m] the rounding [Math.round d] of that
    distance.  When the distance of the first point of the layer is [NaN],
    that point is returned with the distance [NaN], whatever follows it: no
    comparison with [NaN] holds. *)
Theorem legacy_nearest_is_first_minimum
    (points : list ScoreTs.POI) (lon lat : num) :
  (ScoreTs.nearest points lon lat = None <-> points = [])
  /\ (Forall (ScoreTsSpec.measured lon lat) points -> points <> [] ->
      exists (best : ScoreTs.POI) (d : R),
        ScoreTs.nearest points lon lat
        = Some {| ScoreTs.poi := best; ScoreTs.distance_m := Math_round (Fin d) |}
        /\ In best points
        /\ 0 <= d
        /\ ScoreTsSpec.distance_to lon lat best = Fin d
        /\ (forall q, In q points ->
              exists dq,
                ScoreTsSpec.distance_to lon lat q = Fin dq /\ d <= dq)
        /\ find (ScoreTsSpec.at_distance lon lat (Fin d)) points
           = Some best)
  /\ (forall (p0 : ScoreTs.POI) (rest : list ScoreTs.POI),
         points = p0 :: rest ->
         ScoreTsSpec.distance_to lon lat p0 = NaN ->
         ScoreTs.nearest points lon lat
         = Some {| ScoreTs.poi := p0; ScoreTs.distance_m := NaN |}).
Proof.
  split; [|split].
  - destruct points as [|p0 rest]; [split; reflexivity|].
    unfold ScoreTs.nearest. destruct (fold_left _ _ _). split; discriminate.
  - intros Hall Hne. destruct points as [|p0 rest]; [contradiction|].
    destruct (nearest_spec Hall) as (best & d & Hrun & Hd & Hbest & Hmin & Hfind).
    exists best, d. split; [exact Hrun|]. split.
    { apply find_some in Hfind. tauto. }
    auto.
  - intros p0 rest -> H0. unfold ScoreTs.nearest.
    fold (ScoreTsSpec.distance_to lon lat p0). rewrite H0. cbv zeta.
    now rewrite nearest_loop_NaN.
Qed.

(** Three points, in the layer at 445 m, at 111 m and again at 111 m: the
    nearest is the second of the layer.  And a layer that starts with a
    point at latitude [2^1023]: that point is the nearest reported, before
    the one at 111 m. *)
Lemma legacy_nearest_is_first_minimum_witness :
  (exists d : R,
      ScoreTs.nearest ScoreTsSpec.tie_layer (Fin 0) (Fin 0)
      = Some {| ScoreTs.poi := ScoreTsSpec.point "First" 0 0.001;
                ScoreTs.distance_m := Math_round (Fin d) |}
      /\ d = Sample.north 0.001)
  /\ ScoreTs.nearest ScoreTsSpec.far_out_layer (Fin 0) (Fin 0)
     = Some {| ScoreTs.poi := ScoreTsSpec.point "Beyond" 0 (2 ^ 1023);
               ScoreTs.distance_m := NaN |}.
Proof.
  split.
  - destruct (@legacy_nearest_is_first_minimum ScoreTsSpec.tie_layer (Fin 0) (Fin 0))
      as (_ & H & _).
    destruct H as (best & d & Hrun & Hin & _ & Hd & Hmin & Hfind).
    + repeat constructor; apply legacy_north_measured; lra.
    + discriminate.
    + exists d.
      destruct (Hmin (ScoreTsSpec.point "First" 0 0.001) ltac:(right; now left))
        as [dq [Eq Hle]].
      rewrite legacy_distance_north in Eq by lra. apply Fin_inj in Eq. subst dq.
      assert (Ed : d = Sample.north 0.001).
      { destruct Hin as [Hb|[Hb|[Hb|[]]]]; rewrite <- Hb in Hd;
          rewrite legacy_distance_north in Hd by lra; apply Fin_inj in Hd;
          [|congruence|congruence].
        exfalso. revert Hle. rewrite <- Hd. north_cmp. }
      split; [|exact Ed]. rewrite Hrun. do 2 f_equal.
      subst d. unfold ScoreTsSpec.tie_layer in Hfind. cbn [find] in Hfind.
      unfold ScoreTsSpec.at_distance in Hfind.
      rewrite !legacy_distance_north in Hfind by lra.
      destruct (num_eq_dec (Fin (Sample.north 0.004)) (Fin (Sample.north 0.001)))
        as [E'|_].
      * exfalso. apply Fin_inj in E'. revert E'. north_cmp.
      * destruct (num_eq_dec (Fin (Sample.north 0.001)) (Fin (Sample.north 0.001)))
          as [_|N]; [|now contradiction N].
        now injection Hfind as <-.
  - apply (proj2 (proj2 (@legacy_nearest_is_first_minimum
                           ScoreTsSpec.far_out_layer (Fin 0) (Fin 0)))
             (ScoreTsSpec.point "Beyond" 0 (2 ^ 1023))
             [ScoreTsSpec.point "Near" 0 0.001]).
    + reflexivity.
    + apply legacy_distance_beyond.
Defined.

(** ** The score of score.ts *)





Lemma avail_saturated (n : nat) (nearest_m : option num) (softCap : R) :
  0 < softCap -> softCap <= INR n ->
  ScoreTs.avail n nearest_m (Fin softCap) = Fin 1.
Proof.
  intros Hc Hn. destruct n as [|n]; [simpl in Hn; lra|].
  rewrite avail_counted by lra. f_equal.
  assert (1 <= INR (S n) / softCap).
  { apply (Rmult_le_reg_r softCap); [assumption|].
    unfold Rdiv. rewrite Rmult_assoc, Rinv_l by lra. lra. }
  unfold Rmin. rdec.
Qed.

(** X15.  (score.ts, [scorePoint]).  The counts saturate at the soft caps: as soon
    as the result reports at least 1 shelter, 3 schools and 2 health points
    within the radius, the score is exactly 1, for every origin and radius
    and whatever the distances are. *)
Theorem legacy_score_saturates
    (shelters schools healths : list ScoreTs.POI)
    (lon lat : num) (radiusMeters : option num) :
  let res := ScoreTs.scorePoint shelters schools healths lon lat radiusMeters in
  (1 <= ScoreTs.count (ScoreTs.shelters (ScoreTs.layers res)))%nat ->
  (3 <= ScoreTs.count (ScoreTs.schools (ScoreTs.layers res)))%nat ->
  (2 <= ScoreTs.count (ScoreTs.healths (ScoreTs.layers res)))%nat ->
  ScoreTs.score res = Fin 1.
Proof.
  unfold ScoreTs.scorePoint. cbv zeta.
  cbn [ScoreTs.score ScoreTs.layers ScoreTs.shelters ScoreTs.schools ScoreTs.healths
       ScoreTs.count ScoreTs.layerResult].
  set (r := match radiusMeters with Some r => r | None => Fin 1500 end).
  intros H1 H3 H2.
  apply le_INR in H1, H3, H2. simpl INR in H1, H3, H2.
  unfold ScoreTs.cap, ScoreTs.w.
  cbn [ScoreTs.shelters ScoreTs.schools ScoreTs.healths].
  rewrite !avail_saturated by lra.
  pose proof OVERFLOW_gt as Ho.
  rewrite !mul_Fin, !add_Fin by lra.
  replace (0.5 * 1 + 0.3 * 1 + 0.2 * 1) with 1 by lra.
  unfold toFixed_value, toFixed_magnitude.
  assert (H21 : 1 < 10 ^ 21) by (apply Rlt_pow_R1; [lra | lia]).
  replace (Rleb (10 ^ 21) (Rabs 1)) with false
    by (symmetry; apply Rleb_false; rewrite Rabs_pos_eq by lra; lra).
  replace (Rltb 1 0) with false by (symmetry; apply Rltb_false; lra).
  f_equal.
  assert (E4 : 10 ^ 4 = 10000) by (simpl; lra). rewrite E4.
  replace (Zfloor (1 * 10000 + / 2)) with 10000%Z.
  - field.
  - symmetry. apply Zfloor_eq. lra.
Qed.

Lemma legacy_score_saturates_witness :
  ScoreTs.score
    (ScoreTs.scorePoint
       [ScoreTsSpec.point "A" 0 0]
       [ScoreTsSpec.point "B" 0 0; ScoreTsSpec.point "C" 0 0; ScoreTsSpec.point "D" 0 0]
       [ScoreTsSpec.point "E" 0 0; ScoreTsSpec.point "F" 0 0]
       (Fin 0) (Fin 0) None)
  = Fin 1.
Proof.
  assert (Hin : forall n : string,
            JS.le (ScoreTs.haversineMeters (Fin 0) (Fin 0)
                     (ScoreTs.lon (ScoreTsSpec.point n 0 0))
                     (ScoreTs.lat (ScoreTsSpec.point n 0 0)))
                  (Fin 1500) = true).
  { intros n. cbn [ScoreTs.lon ScoreTs.lat ScoreTsSpec.point].
    rewrite legacy_haversine_Fin
      by (apply ordinary_no_overflow; apply in_range_ordinary; lra).
    pose proof (great_circle_self 0 0) as E. rewrite E.
    unfold JS.le. apply Rleb_true. lra. }
  apply legacy_score_saturates;
    cbn [ScoreTs.scorePoint ScoreTs.layers ScoreTs.shelters ScoreTs.schools
         ScoreTs.healths ScoreTs.count ScoreTs.layerResult ScoreTs.within filter];
    rewrite !Hin; cbn [List.length]; lia.
Defined.

(* ================================================================== *)
(** * Part XI.  The loader and the cache of score.ts                   *)
(* ================================================================== *)

Import ScoreTsProcessSpec.

(** ** [readPoints] against [readGeoPoints] *)



Lemma readPoint_finite (f : Feature) (p : ScoreTs.POI) :
  ScoreTsProcess.readPoint f = Some p -> finite_POI p.
Proof.
  unfold ScoreTsProcess.readPoint.
  destruct (geometry f) as [g|]; [|discriminate].
  destruct (negb (String.eqb (g_type g) "Point")); [discriminate|].
  cbv zeta.
  set (x := nth 0 match coordinates g with Some c => c | None => [] end VUndefined).
  set (y := nth 1 match coordinates g with Some c => c | None => [] end VUndefined).
  destruct (Number_isFinite x) eqn:Hx; [|discriminate].
  destruct (Number_isFinite y) eqn:Hy; [|discriminate].
  cbn [negb orb]. intros E. injection E as <-.
  unfold finite_POI. cbn [ScoreTs.lon ScoreTs.lat].
  destruct x; try discriminate. destruct y; try discriminate.
  split; assumption.
Qed.

Lemma readPoints_loop_finite (feats : list Feature) :
  Forall finite_POI (ScoreTsProcess.readPoints_loop feats).
Proof.
  induction feats as [|f rest IH]; [constructor|].
  cbn [ScoreTsProcess.readPoints_loop].
  destruct (ScoreTsProcess.readPoint f) as [p|] eqn:E; [|exact IH].
  constructor; [exact (readPoint_finite _ E) | exact IH].
Qed.



(** ** The cache *)

Lemma cache_get_set (cache : ScoreTsProcess.Cache)
    (layer layer' : ScoreTsProcess.LayerName) (pts : list ScoreTs.POI) :
  ScoreTsProcess.cache_get (ScoreTsProcess.cache_set cache layer pts) layer'
  = if match layer, layer' with
       | ScoreTsProcess.shelter, ScoreTsProcess.shelter
       | ScoreTsProcess.school, ScoreTsProcess.school
       | ScoreTsProcess.health, ScoreTsProcess.health => true
       | _, _ => false
       end
    then Some pts else ScoreTsProcess.cache_get cache layer'.
Proof. destruct layer, layer'; reflexivity. Qed.

Lemma readPoints_inv (DATA : DataDir) (layer : ScoreTsProcess.LayerName)
    (cache cache' : ScoreTsProcess.Cache) (pts : list ScoreTs.POI) :
  ScoreTsProcess.readPoints DATA layer cache = Normal (pts, cache') ->
  ScoreTsProcess.cache_get cache' layer = Some pts
  /\ (forall layer', layer' <> layer ->
        ScoreTsProcess.cache_get cache' layer' = ScoreTsProcess.cache_get cache layer')
  /\ (cache_finite cache -> cache_finite cache' /\ Forall finite_POI pts).
Proof.
  unfold ScoreTsProcess.readPoints.
  destruct (ScoreTsProcess.cache_get cache layer) as [cached|] eqn:Hget.
  - intros E. injection E as <- <-. split; [exact Hget|]. split; [reflexivity|].
    intros Hfin. split; [exact Hfin | exact (Hfin _ _ Hget)].
  - assert (Hset : forall pts0,
              Forall finite_POI pts0 ->
              ScoreTsProcess.cache_get (ScoreTsProcess.cache_set cache layer pts0) layer
              = Some pts0
              /\ (forall layer', layer' <> layer ->
                    ScoreTsProcess.cache_get (ScoreTsProcess.cache_set cache layer pts0) layer'
                    = ScoreTsProcess.cache_get cache layer')
              /\ (cache_finite cache ->
                  cache_finite (ScoreTsProcess.cache_set cache layer pts0)
                  /\ Forall finite_POI pts0)).
    { intros pts0 H0. split; [destruct layer; reflexivity|]. split.
      - intros layer' Hne. rewrite cache_get_set.
        destruct layer, layer'; try reflexivity; congruence.
      - intros Hfin. split; [|exact H0].
        intros layer' l. rewrite cache_get_set.
        destruct layer, layer'; try (intros E; injection E as <-; exact H0);
          apply Hfin. }
    destruct (ScoreTsProcess.FILES DATA layer) as [| | | |fc]; try discriminate.
    + intros E. injection E as <- <-. apply Hset. constructor.
    + cbv zeta. intros E. injection E as <- <-. apply Hset.
      apply readPoints_loop_finite.
Qed.

Lemma readPoints_cached (DATA : DataDir) (layer : ScoreTsProcess.LayerName)
    (cache : ScoreTsProcess.Cache) (pts : list ScoreTs.POI) :
  ScoreTsProcess.cache_get cache layer = Some pts ->
  ScoreTsProcess.readPoints DATA layer cache = Normal (pts, cache).
Proof. intros H. unfold ScoreTsProcess.readPoints. now rewrite H. Qed.



(** X17.  (score.ts, [readPoints]).  A read that returns stores what it returns
    under its layer and leaves the other layers of the cache as they were;
    from then on every read of that layer returns the same points without
    looking at the data directory, whose file may have changed, appeared or
    become unreadable in the meantime.  A layer whose file was missing at the
    first read is remembered as empty in the same way. *)
Theorem readPoints_reads_each_layer_once
    (DATA : DataDir) (layer : ScoreTsProcess.LayerName)
    (cache cache' : ScoreTsProcess.Cache) (pts : list ScoreTs.POI) :
  ScoreTsProcess.readPoints DATA layer cache = Normal (pts, cache') ->
  ScoreTsProcess.cache_get cache' layer = Some pts
  /\ (forall layer', layer' <> layer ->
        ScoreTsProcess.cache_get cache' layer' = ScoreTsProcess.cache_get cache layer')
  /\ (forall DATA' : DataDir,
        ScoreTsProcess.readPoints DATA' layer cache' = Normal (pts, cache'))
  /\ (ScoreTsProcess.cache_get cache layer = None ->
      ScoreTsProcess.FILES DATA layer = Missing -> pts = []).
Proof.
  intros Hrun. destruct (readPoints_inv _ _ _ Hrun) as (Hget & Hother & _).
  split; [exact Hget|]. split; [exact Hother|]. split.
  - intros DATA'. now apply readPoints_cached.
  - intros Hnone Hmiss. unfold ScoreTsProcess.readPoints in Hrun.
    rewrite Hnone, Hmiss in Hrun. now injection Hrun as <- _.
Qed.

Lemma readPoints_reads_each_layer_once_witness :
  ScoreTsProcess.readPoints Sample.broken_data ScoreTsProcess.shelter
    (ScoreTsProcess.cache_set ScoreTsProcess.cache_init ScoreTsProcess.shelter [])
  = Normal ([], ScoreTsProcess.cache_set ScoreTsProcess.cache_init
                  ScoreTsProcess.shelter []).
Proof.
  destruct (@readPoints_reads_each_layer_once Sample.no_data ScoreTsProcess.shelter
              ScoreTsProcess.cache_init
              (ScoreTsProcess.cache_set ScoreTsProcess.cache_init
                 ScoreTsProcess.shelter [])
              [] eq_refl) as (_ & _ & Hagain & _).
  exact (Hagain Sample.broken_data).
Defined.

(** ** [scorePoint] and [nearbyPois] over the loader *)




Lemma three_layer_read :
  ScoreTsProcess.readPoints_loop Sample.three_features = ScoreTsSpec.three_layer.
Proof. reflexivity. Qed.



(** *** Sorting by the rounded distance *)








(* ================================================================== *)
(** * Part XII.  The CSV file: written by toCSV, read by parseCSV      *)
(* ================================================================== *)

Module CsvFacts.

Import JSString StringFacts CsvSpec.
Local Open Scope list_scope.
Local Open Scope string_scope.

Lemma sapp_char (cur : string) (a : ascii) (s : string) :
  (cur ++ char a) ++ s = cur ++ String a s.
Proof. now rewrite sapp_assoc. Qed.

Lemma includes_char_cons (c a : ascii) (s : string) :
  includes (char c) (String a s) = (Ascii.eqb c a || includes (char c) s)%bool.
Proof.
  cbn [includes]. f_equal. unfold char. cbn [String.prefix].
  destruct (ascii_dec c a) as [->|Hne].
  - rewrite Ascii.eqb_refl. now destruct s.
  - symmetry. now apply Ascii.eqb_neq.
Qed.

Lemma has_no_nil (c : ascii) : has_no c EmptyString.
Proof. reflexivity. Qed.

Lemma has_no_cons (c a : ascii) (s : string) :
  has_no c (String a s) <-> Ascii.eqb a c = false /\ has_no c s.
Proof.
  unfold has_no. rewrite includes_char_cons, Bool.orb_false_iff.
  now rewrite (Ascii.eqb_sym c a).
Qed.

Lemma has_no_app (c : ascii) (x y : string) :
  has_no c (x ++ y) <-> has_no c x /\ has_no c y.
Proof.
  induction x as [|a x IH]; simpl.
  - split; [intros H; split; [apply has_no_nil | exact H] | tauto].
  - rewrite !has_no_cons, IH. tauto.
Qed.

Lemma has_no_char (c a : ascii) : Ascii.eqb a c = false -> has_no c (char a).
Proof. intros H. apply has_no_cons. split; [exact H | apply has_no_nil]. Qed.

(** *** [join] *)

Lemma join_cons (sep x : string) (l : list string) :
  l <> [] -> join sep (x :: l) = x ++ sep ++ join sep l.
Proof. destruct l; [congruence | reflexivity]. Qed.

Lemma join_snoc (sep x : string) (l : list string) :
  l <> [] -> join sep (l ++ [x])%list = join sep l ++ sep ++ x.
Proof.
  induction l as [|a l IH]; [congruence|]. intros _.
  destruct l as [|b l].
  - reflexivity.
  - change ((a :: b :: l) ++ [x])%list with (a :: ((b :: l) ++ [x])%list).
    rewrite join_cons by (destruct l; discriminate).
    rewrite IH by discriminate.
    rewrite (@join_cons sep a (b :: l)) by discriminate.
    now rewrite !sapp_assoc.
Qed.

Lemma join_snoc_app (sep x y : string) (l : list string) :
  join sep (l ++ [(x ++ y)%string])%list = join sep (l ++ [x])%list ++ y.
Proof.
  destruct l as [|a l]; [reflexivity|].
  rewrite !join_snoc by discriminate. now rewrite !sapp_assoc.
Qed.

Lemma has_no_join (c : ascii) (sep : string) (l : list string) :
  has_no c sep -> Forall (has_no c) l -> has_no c (join sep l).
Proof.
  intros Hsep. induction 1 as [|x l Hx Hl IH]; [apply has_no_nil|].
  destruct l as [|y l]; [exact Hx|].
  rewrite join_cons by discriminate. rewrite !has_no_app. auto.
Qed.

(** *** [esc] and [splitCSVLine] *)

Lemma split_raw (s tail : string) (out : list string) (cur : string) :
  has_no COMMA s -> has_no DQUOTE s ->
  BuildPoiLayers.splitCSVLine_loop (s ++ tail) out cur false
  = BuildPoiLayers.splitCSVLine_loop tail out (cur ++ s) false.
Proof.
  revert cur. induction s as [|a s IH]; intros cur Hc Hq.
  - now rewrite sapp_nil_r.
  - apply has_no_cons in Hc, Hq. destruct Hc as [Hac Hc], Hq as [Haq Hq].
    cbn [append BuildPoiLayers.splitCSVLine_loop]. rewrite Haq, Hac.
    rewrite IH by assumption. now rewrite sapp_char.
Qed.

Lemma split_quoted (s tail : string) (out : list string) (cur : string) :
  (forall r, tail <> String DQUOTE r) ->
  BuildPoiLayers.splitCSVLine_loop
    (MlitParseSearch.double_quotes s ++ String DQUOTE tail) out cur true
  = BuildPoiLayers.splitCSVLine_loop tail out (cur ++ s) false.
Proof.
  intros Htail. revert cur. induction s as [|a s IH]; intros cur.
  - cbn [MlitParseSearch.double_quotes append BuildPoiLayers.splitCSVLine_loop].
    rewrite Ascii.eqb_refl, sapp_nil_r.
    destruct tail as [|c' rest']; [reflexivity|].
    destruct (Ascii.eqb c' DQUOTE) eqn:E; [|reflexivity].
    apply Ascii.eqb_eq in E. subst c'. now destruct (Htail rest').
  - cbn [MlitParseSearch.double_quotes].
    destruct (Ascii.eqb a DQUOTE) eqn:E.
    + apply Ascii.eqb_eq in E. subst a.
      cbn [append BuildPoiLayers.splitCSVLine_loop]. rewrite Ascii.eqb_refl.
      rewrite IH. now rewrite sapp_char.
    + cbn [append BuildPoiLayers.splitCSVLine_loop]. rewrite E.
      rewrite IH. now rewrite sapp_char.
Qed.

Lemma split_cell (cell : option string) (tail : string)
    (out : list string) (cur : string) :
  (forall r, tail <> String DQUOTE r) ->
  BuildPoiLayers.splitCSVLine_loop (MlitParseSearch.esc cell ++ tail) out cur false
  = BuildPoiLayers.splitCSVLine_loop tail out (cur ++ text_of cell) false.
Proof.
  intros Htail. destruct cell as [s|]; cbn [MlitParseSearch.esc text_of].
  - destruct (includes (char COMMA) s || includes (char DQUOTE) s
              || includes (char LF) s)%bool eqn:E.
    + cbn [append]. rewrite sapp_assoc. cbn [char append].
      cbn [BuildPoiLayers.splitCSVLine_loop]. rewrite Ascii.eqb_refl.
      now apply split_quoted.
    + apply Bool.orb_false_iff in E. destruct E as [E _].
      apply Bool.orb_false_iff in E. destruct E as [Ec Eq].
      now apply split_raw.
  - cbn [append]. now rewrite sapp_nil_r.
Qed.

Lemma split_row (cells : list (option string)) (out : list string) :
  cells <> [] ->
  BuildPoiLayers.splitCSVLine_loop
    (join (char COMMA) (map MlitParseSearch.esc cells)) out EmptyString false
  = (out ++ map text_of cells)%list.
Proof.
  revert out. induction cells as [|c rest IH]; [congruence|]. intros out _.
  destruct rest as [|c2 rest].
  - cbn [map join String.concat].
    rewrite <- (sapp_nil_r (MlitParseSearch.esc c)).
    rewrite split_cell by discriminate. reflexivity.
  - cbn [map]. rewrite join_cons by discriminate.
    rewrite split_cell by (cbn; intros r H; discriminate).
    cbn [char append BuildPoiLayers.splitCSVLine_loop].
    change (Ascii.eqb COMMA DQUOTE) with false.
    change (Ascii.eqb COMMA COMMA) with true. cbv iota.
    change (MlitParseSearch.esc c2 :: map MlitParseSearch.esc rest)
      with (map MlitParseSearch.esc (c2 :: rest)).
    rewrite IH by discriminate. now rewrite <- app_assoc.
Qed.

Lemma split_plain (line : string) (out : list string) (cur : string) :
  has_no DQUOTE line -> has_no COMMA cur -> Forall (has_no COMMA) out ->
  join (char COMMA) (BuildPoiLayers.splitCSVLine_loop line out cur false)
  = join (char COMMA) (out ++ [cur])%list ++ line
  /\ Forall (has_no COMMA) (BuildPoiLayers.splitCSVLine_loop line out cur false).
Proof.
  revert out cur. induction line as [|a line IH]; intros out cur Hq Hcur Hout.
  - cbn [BuildPoiLayers.splitCSVLine_loop]. rewrite sapp_nil_r. split; [reflexivity|].
    apply Forall_app. split; [exact Hout | now constructor].
  - apply has_no_cons in Hq. destruct Hq as [Haq Hq].
    cbn [BuildPoiLayers.splitCSVLine_loop]. rewrite Haq.
    destruct (Ascii.eqb a COMMA) eqn:Hac.
    + apply Ascii.eqb_eq in Hac. subst a.
      destruct (IH (out ++ [cur])%list EmptyString Hq (has_no_nil COMMA)) as [E F].
      { apply Forall_app. split; [exact Hout | now constructor]. }
      split; [|exact F]. rewrite E.
      rewrite join_snoc by (destruct out; discriminate).
      now rewrite !sapp_assoc.
    + destruct (IH out (cur ++ char a) Hq) as [E F]; [|exact Hout|].
      { apply has_no_app. split; [exact Hcur | now apply has_no_char]. }
      split; [|exact F]. rewrite E, join_snoc_app. now rewrite sapp_char.
Qed.

(** *** Lines *)

Lemma split_newlines_line (l tail cur : string) :
  one_line l ->
  BuildPoiLayers.split_newlines (l ++ tail) cur
  = BuildPoiLayers.split_newlines tail (cur ++ l).
Proof.
  intros [Hlf Hcr]. revert cur. induction l as [|a l IH]; intros cur.
  - now rewrite sapp_nil_r.
  - apply has_no_cons in Hlf, Hcr. destruct Hlf as [Ha1 Hlf], Hcr as [Ha2 Hcr].
    cbn [append BuildPoiLayers.split_newlines]. rewrite Ha1, Ha2.
    rewrite IH by assumption. now rewrite sapp_char.
Qed.

Lemma split_newlines_join (ls : list string) :
  ls <> [] -> Forall one_line ls ->
  BuildPoiLayers.split_newlines (join (char LF) ls) EmptyString = ls.
Proof.
  induction ls as [|l rest IH]; [congruence|]. intros _ Hall.
  inversion Hall as [|? ? Hl Hrest]; subst.
  destruct rest as [|l2 rest].
  - cbn [join String.concat]. rewrite <- (sapp_nil_r l) at 1.
    now rewrite split_newlines_line.
  - rewrite join_cons by discriminate. rewrite split_newlines_line by assumption.
    cbn [char append BuildPoiLayers.split_newlines].
    change (Ascii.eqb LF LF) with true. cbv iota.
    f_equal. now apply IH.
Qed.

Lemma one_line_esc (cell : option string) :
  one_line (text_of cell) -> one_line (MlitParseSearch.esc cell).
Proof.
  destruct cell as [s|]; cbn [text_of MlitParseSearch.esc]; [|auto].
  intros Hs.
  destruct (includes (char COMMA) s || includes (char DQUOTE) s
            || includes (char LF) s)%bool; [|exact Hs].
  assert (Hdq : forall c, Ascii.eqb DQUOTE c = false -> has_no c s ->
                   has_no c (MlitParseSearch.double_quotes s)).
  { intros c Hc. clear Hs. induction s as [|a s IH]; [auto|].
    intros H. apply has_no_cons in H. destruct H as [Ha H].
    cbn [MlitParseSearch.double_quotes].
    destruct (Ascii.eqb a DQUOTE); rewrite ?has_no_cons; auto. }
  destruct Hs as [H1 H2]. split.
  - apply has_no_cons. split; [reflexivity|]. apply has_no_app.
    split; [now apply Hdq | now apply has_no_char].
  - apply has_no_cons. split; [reflexivity|]. apply has_no_app.
    split; [now apply Hdq | now apply has_no_char].
Qed.

Lemma one_line_join (l : list string) :
  Forall one_line l -> one_line (join (char COMMA) l).
Proof.
  intros H. split; apply has_no_join; try (now apply has_no_char);
    eapply Forall_impl; [|exact H| |exact H]; intros s [H1 H2]; assumption.
Qed.

Lemma nonempty_join (sep : string) (l : list string) :
  BuildPoiLayers.nonempty sep = true -> (2 <= List.length l)%nat ->
  BuildPoiLayers.nonempty (join sep l) = true.
Proof.
  intros Hsep Hl. destruct l as [|x [|y l]]; simpl in Hl; try lia.
  rewrite join_cons by discriminate.
  destruct x; [|reflexivity]. destruct sep; [discriminate | reflexivity].
Qed.

Lemma filter_all (A : Type) (f : A -> bool) (l : list A) :
  Forall (fun a => f a = true) l -> filter f l = l.
Proof.
  induction 1 as [|a l Ha Hl IH]; [reflexivity|]. simpl. now rewrite Ha, IH.
Qed.

End CsvFacts.

Import JSString CsvSpec CsvFacts.

(** X20.  (mlit-parse-search.mjs [esc], build-poi-layers.mjs [splitCSVLine]).  A
    row of at least one cell, written as [toCSV] writes it (every cell
    through [esc], joined by commas), is read back by [splitCSVLine] as the
    list of the cell texts, [null] as the empty text: commas, double quotes
    and line feeds inside a cell survive. *)
Theorem csv_row_round_trip (cells : list (option string)) :
  cells <> [] ->
  BuildPoiLayers.splitCSVLine (join (char COMMA) (map MlitParseSearch.esc cells))
  = map text_of cells.
Proof.
  intros H. unfold BuildPoiLayers.splitCSVLine. now rewrite split_row.
Qed.

Lemma csv_row_round_trip_witness :
  BuildPoiLayers.splitCSVLine
    (join (char COMMA)
       (map MlitParseSearch.esc
          [Some "Hall, north"%string; None; Some (String DQUOTE "A"%string)]))
  = ["Hall, north"%string; EmptyString; String DQUOTE "A"%string].
Proof.
  apply (@csv_row_round_trip
           [Some "Hall, north"%string; None; Some (String DQUOTE "A"%string)]).
  discriminate.
Defined.

(** X21.  (build-poi-layers.mjs, [splitCSVLine]).  On a line without a double
    quote [splitCSVLine] cuts at every comma and nowhere else: no field
    contains a comma, and joining the fields with commas gives the line
    back. *)
Theorem splitCSVLine_without_quotes (line : string) :
  has_no DQUOTE line ->
  join (char COMMA) (BuildPoiLayers.splitCSVLine line) = line
  /\ Forall (has_no COMMA) (BuildPoiLayers.splitCSVLine line).
Proof.
  intros H. unfold BuildPoiLayers.splitCSVLine.
  destruct (@split_plain line [] EmptyString H (has_no_nil COMMA) (Forall_nil _))
    as [E F].
  split; [exact E | exact F].
Qed.

Lemma splitCSVLine_without_quotes_witness :
  join (char COMMA) (BuildPoiLayers.splitCSVLine "name,lat,,lon"%string)
  = "name,lat,,lon"%string.
Proof.
  apply (@splitCSVLine_without_quotes "name,lat,,lon"%string). reflexivity.
Defined.

(** X22.  (mlit-parse-search.mjs [toCSV], build-poi-layers.mjs [parseCSV]).  The
    file that [toCSV] writes for at least one row, with at least two columns,
    headers free of commas, double quotes and line breaks, and cell texts
    free of line feeds and carriage returns, is cut by [parseCSV] into the
    header line and one line per row, and [splitCSVLine] reads from them the
    headers and the cell texts of every row, in order. *)
Theorem toCSV_parseCSV_cells
    (r0 : MlitParseSearch.Row) (rest : list MlitParseSearch.Row) :
  let rows := r0 :: rest in
  let headers := MlitParseSearch.keys r0 in
  (2 <= List.length headers)%nat ->
  Forall plain headers ->
  (forall r h, In r rows -> In h headers ->
               one_line (text_of (MlitParseSearch.get r h))) ->
  BuildPoiLayers.parseCSV_cells (MlitParseSearch.toCSV rows)
  = headers :: map (cells headers) rows.
Proof.
  intros rows headers Hlen Hplain Hcells.
  assert (Hne : headers <> []) by (destruct headers; [simpl in Hlen; lia | discriminate]).
  set (line := fun r : MlitParseSearch.Row =>
                 join (char COMMA)
                      (map (fun h => MlitParseSearch.esc (MlitParseSearch.get r h)) headers)).
  assert (Htext : MlitParseSearch.toCSV rows
                  = join (char LF) (join (char COMMA) headers :: map line rows))
    by reflexivity.
  unfold BuildPoiLayers.parseCSV_cells, BuildPoiLayers.lines. rewrite Htext.
  assert (Hone : Forall one_line (join (char COMMA) headers :: map line rows)).
  { constructor.
    - apply one_line_join. eapply Forall_impl; [|exact Hplain].
      intros s (_ & _ & H). exact H.
    - rewrite Forall_forall. intros l Hl. apply in_map_iff in Hl.
      destruct Hl as [r [<- Hr]]. apply one_line_join.
      rewrite Forall_forall. intros c Hc. apply in_map_iff in Hc.
      destruct Hc as [h [<- Hh]]. apply one_line_esc. now apply Hcells. }
  rewrite split_newlines_join by (discriminate || exact Hone).
  rewrite filter_all.
  2:{ constructor.
      - now apply nonempty_join.
      - rewrite Forall_forall. intros l Hl. apply in_map_iff in Hl.
        destruct Hl as [r [<- _]]. apply nonempty_join; [reflexivity|].
        now rewrite length_map. }
  cbn [map]. f_equal.
  - assert (E : join (char COMMA) headers
                = join (char COMMA) (map MlitParseSearch.esc (map Some headers))).
    { f_equal. rewrite map_map. symmetry. rewrite <- (map_id headers) at 2.
      apply map_ext_in. intros h Hh. rewrite Forall_forall in Hplain.
      destruct (Hplain h Hh) as (Hc & Hq & Hl & _).
      cbn [MlitParseSearch.esc]. unfold has_no in Hc, Hq, Hl.
      now rewrite Hc, Hq, Hl. }
    rewrite E. unfold BuildPoiLayers.splitCSVLine.
    rewrite split_row by (destruct headers; [congruence | discriminate]).
    rewrite map_map. cbn [text_of app]. apply map_id.
  - rewrite map_map. apply map_ext. intros r. unfold line, cells.
    rewrite <- (map_map (fun h => MlitParseSearch.get r h) MlitParseSearch.esc).
    unfold BuildPoiLayers.splitCSVLine.
    rewrite split_row by (destruct headers; [congruence | discriminate]).
    now rewrite map_map.
Qed.

Lemma toCSV_parseCSV_cells_witness :
  BuildPoiLayers.parseCSV_cells
    (MlitParseSearch.toCSV
       [[("name"%string, Some "Hall, north"%string); ("lat"%string, None)]])
  = ["name"%string; "lat"%string] :: [["Hall, north"%string; EmptyString]].
Proof.
  apply (@toCSV_parseCSV_cells
           [("name"%string, Some "Hall, north"%string); ("lat"%string, None)] []).
  - cbn. lia.
  - repeat constructor.
  - intros r h [<-|[]] [<-|[<-|[]]]; split; reflexivity.
Defined.

(* ================================================================== *)
(** * Part XIII.  The classification of build-poi-layers.mjs           *)
(* ================================================================== *)

Module RegexFacts.

Import JSString Regex.
Local Open Scope list_scope.
Local Open Scope string_scope.

Lemma strip_prefix_prefix (p s : string) :
  match strip_prefix p s with Some _ => true | None => false end
  = String.prefix p s.
Proof.
  revert s. induction p as [|a p IH]; intros s.
  - now destruct s.
  - destruct s as [|b s]; [reflexivity|]. cbn [strip_prefix String.prefix].
    destruct (ascii_dec a b) as [->|Hne].
    + rewrite Ascii.eqb_refl. apply IH.
    + apply Ascii.eqb_neq in Hne. now rewrite Hne.
Qed.

Lemma existsb_orb (A : Type) (f g : A -> bool) (l : list A) :
  existsb (fun a => f a || g a)%bool l = (existsb f l || existsb g l)%bool.
Proof.
  induction l as [|a l IH]; [reflexivity|]. cbn [existsb]. rewrite IH.
  destruct (f a), (g a), (existsb f l), (existsb g l); reflexivity.
Qed.

Lemma matches_Alts (l : list string) (s : string) :
  matches (Alts l) s (fun _ => true) = existsb (fun p => String.prefix p s) l.
Proof.
  cbn [matches]. induction l as [|p l IH]; [reflexivity|]. cbn [existsb].
  now rewrite IH, strip_prefix_prefix.
Qed.

(** An alternation of literals matches somewhere in [s] exactly when [s]
    includes one of them. *)
Lemma test_Alts (l : list string) (s : string) :
  test (Alts l) s = existsb (fun p => includes p s) l.
Proof.
  induction s as [|c s IH].
  - cbn [test includes]. rewrite matches_Alts. apply Bool.orb_false_r.
  - change (test (Alts l) (String c s))
      with (matches (Alts l) (String c s) (fun _ => true) || test (Alts l) s)%bool.
    rewrite matches_Alts, IH, <- existsb_orb. reflexivity.
Qed.

Lemma test_Alt (a b : re) (s : string) :
  test (Alt a b) s = (test a s || test b s)%bool.
Proof.
  induction s as [|c s IH].
  - cbn [test matches]. rewrite !Bool.orb_false_r. reflexivity.
  - change (test (Alt a b) (String c s))
      with (matches (Alt a b) (String c s) (fun _ => true) || test (Alt a b) s)%bool.
    change (test a (String c s))
      with (matches a (String c s) (fun _ => true) || test a s)%bool.
    change (test b (String c s))
      with (matches b (String c s) (fun _ => true) || test b s)%bool.
    rewrite IH. cbn [matches].
    destruct (matches a (String c s) (fun _ => true)),
             (matches b (String c s) (fun _ => true)),
             (test a s), (test b s); reflexivity.
Qed.

End RegexFacts.

Import Regex Classification ClassificationSpec RegexFacts.

(** Name the tests of [classifyTags] and forget what they test. *)
Ltac name_tests :=
  repeat match goal with
         | |- context [test ?r ?n] =>
             let b := fresh "b" in set (b := test r n) in *; clearbody b
         end.

Ltac split_tests :=
  repeat match goal with b : bool |- _ => destruct b end;
  cbn [orb andb negb push_if app List.length Nat.eqb
       keep tags primary find tags_includes existsb String.eqb
       Ascii.eqb Bool.eqb order hd_error].

Ltac in_list := cbn [In]; repeat (first [left; reflexivity | right]).

Ltac no_dup :=
  repeat (constructor; [cbn [In]; intuition discriminate|]); constructor.

(** X23.  (build-poi-layers.mjs, [classifyTags]).  A record that is kept has a
    primary tag, which is one of its tags and names one of the buckets of
    [main] (never the alias [hospital]), so that [buckets[c.primary]] is
    always an array; a record that is not kept has no tag and no primary.
    The tags are drawn without repetition from shelter, school, health, shop,
    civic and other, and [other] comes only alone. *)
Theorem classifyTags_primary_names_a_bucket (name : option string) :
  let c := classifyTags name in
  match primary c with
  | Some t =>
      keep c = true /\ In t (tags c) /\ In t bucket_names /\ t <> "hospital"%string
  | None => keep c = false /\ tags c = []
  end
  /\ NoDup (tags c)
  /\ (forall t, In t (tags c) -> In t order)
  /\ (In "other"%string (tags c) -> tags c = ["other"%string]).
Proof.
  unfold classifyTags. cbv zeta.
  set (n := trim match name with Some s => s | None => EmptyString end).
  clearbody n.
  set (excluded := (test re_memorial n || test re_tender n || test re_model n
                    || test re_monument n)%bool).
  set (isShelter := (test re_shelter n || test re_welfare_shelter n)%bool).
  set (isHealth := (negb (test re_mentionsShelter n)
                    && (test re_healthCore n || test re_healthGov n))%bool).
  clearbody excluded isShelter isHealth. name_tests.
  destruct excluded; cbn [keep tags primary].
  - repeat split; [constructor | intros t [] | intros []].
  - split_tests;
      (split; [repeat split; [in_list | in_list | discriminate]|]);
      (split; [no_dup|]);
      (split; [intros t Ht; cbn [In] in Ht; intuition (subst; in_list)|]);
      intros Ho; cbn [In] in Ho; intuition (try discriminate; reflexivity).
Qed.

Lemma classifyTags_primary_names_a_bucket_witness :
  primary (classifyTags (Some "第一小学校（避難所）"%string)) = Some "shelter"%string
  /\ In "shelter"%string bucket_names
  /\ NoDup (tags (classifyTags (Some "第一小学校（避難所）"%string))).
Proof.
  pose proof (classifyTags_primary_names_a_bucket (Some "第一小学校（避難所）"%string))
    as H.
  cbv zeta in H. destruct H as (H & Hnd & _).
  assert (E : primary (classifyTags (Some "第一小学校（避難所）"%string))
              = Some "shelter"%string) by (vm_compute; reflexivity).
  rewrite E in H. destruct H as (_ & _ & Hb & _).
  split; [exact E|]. split; [exact Hb | exact Hnd].
Defined.

(** X24.  (build-poi-layers.mjs, [classifyTags]).  The primary tag is the first of
    shelter, school, health, shop, civic that the record carries, whatever
    the order in which the tags were pushed: a shelter is filed as a shelter
    also when it is a school or a health facility, and a shop as a shop also
    when the civic tag was pushed before it. *)
Theorem classifyTags_priority (name : option string) :
  let c := classifyTags name in
  let has := fun t : string => In t (tags c) in
  (has "shelter"%string -> primary c = Some "shelter"%string)
  /\ (~ has "shelter"%string -> has "school"%string ->
      primary c = Some "school"%string)
  /\ (~ has "shelter"%string -> ~ has "school"%string -> has "health"%string ->
      primary c = Some "health"%string)
  /\ (~ has "shelter"%string -> ~ has "school"%string -> ~ has "health"%string ->
      has "shop"%string -> primary c = Some "shop"%string)
  /\ (~ has "shelter"%string -> ~ has "school"%string -> ~ has "health"%string ->
      ~ has "shop"%string -> has "civic"%string -> primary c = Some "civic"%string).
Proof.
  unfold classifyTags. cbv zeta.
  set (n := trim match name with Some s => s | None => EmptyString end).
  clearbody n.
  set (excluded := (test re_memorial n || test re_tender n || test re_model n
                    || test re_monument n)%bool).
  set (isShelter := (test re_shelter n || test re_welfare_shelter n)%bool).
  set (isHealth := (negb (test re_mentionsShelter n)
                    && (test re_healthCore n || test re_healthGov n))%bool).
  clearbody excluded isShelter isHealth. name_tests.
  destruct excluded; cbn [keep tags primary].
  - repeat split; intros; cbn [In] in *; tauto.
  - split_tests; cbn [In];
      repeat split; intros;
      try reflexivity;
      repeat match goal with
             | H : _ \/ _ |- _ => destruct H
             | H : ~ _ |- _ => exfalso; apply H; clear H; in_list
             | H : False |- _ => destruct H
             | H : _ = _ |- _ => discriminate H
             end.
Qed.

Lemma classifyTags_priority_witness :
  primary (classifyTags (Some "第一小学校（避難所）"%string)) = Some "shelter"%string
  /\ primary (classifyTags (Some "大学病院"%string)) = Some "school"%string.
Proof.
  split.
  - apply (classifyTags_priority (Some "第一小学校（避難所）"%string)).
    vm_compute. left. reflexivity.
  - apply (classifyTags_priority (Some "大学病院"%string)).
    + vm_compute. intuition discriminate.
    + vm_compute. left. reflexivity.
Defined.

Lemma includes_test (l : list string) (p n : string) :
  In p l -> includes p n = true -> test (Alts l) n = true.
Proof.
  intros Hin Hp. rewrite test_Alts. apply existsb_exists. eauto.
Qed.

(** X25.  (build-poi-layers.mjs, [classifyTags]).  The health tag is never given
    to a name that includes one of the two words of the guard (the Japanese
    for shelter and for shelter facility); a kept name that includes one of
    them is filed as a shelter.  The guard looks at these two words only: a
    name that is a shelter by another pattern can carry the health tag as
    well. *)
Theorem classifyTags_health_guard :
  (forall name : option string,
     let c := classifyTags name in
     let n := trimmed name in
     (In "health"%string (tags c) ->
      includes "避難所" n = false /\ includes "避難施設" n = false)
     /\ (keep c = true ->
         includes "避難所" n = true \/ includes "避難施設" n = true ->
         primary c = Some "shelter"%string /\ ~ In "health"%string (tags c)))
  /\ tags (classifyTags (Some "津波一時避難病院"%string))
     = ["shelter"%string; "health"%string].
Proof.
  split; [|vm_compute; reflexivity].
  intros name. unfold classifyTags, trimmed. cbv zeta.
  set (n := trim match name with Some s => s | None => EmptyString end).
  clearbody n.
  assert (Hm : test re_mentionsShelter n
               = (includes "避難所" n || includes "避難施設" n)%bool).
  { unfold re_mentionsShelter. rewrite test_Alts. cbn [existsb].
    now rewrite Bool.orb_false_r. }
  destruct (test re_mentionsShelter n) eqn:M.
  - assert (Hs : test re_shelter n = true).
    { unfold re_shelter. rewrite test_Alt.
      apply Bool.orb_true_iff. left. symmetry in Hm.
      apply Bool.orb_true_iff in Hm. destruct Hm as [H|H].
      - apply (@includes_test _ "避難所"); [in_list | exact H].
      - apply (@includes_test _ "避難施設"); [in_list | exact H]. }
    rewrite Hs. clear Hm Hs M. cbn [orb negb andb].
    set (excluded := (test re_memorial n || test re_tender n || test re_model n
                      || test re_monument n)%bool).
    clearbody excluded.
    name_tests.
    destruct excluded; cbn [keep tags primary];
      [split; [intros [] | discriminate]|].
    assert (Hno : forall l : list string,
              In "health"%string l ->
              (forall t, In t l -> In t ["shelter"; "school"; "civic"; "shop"]%string) ->
              False).
    { intros l Hin Hl. specialize (Hl _ Hin). cbn [In] in Hl.
      intuition discriminate. }
    split_tests;
      (split; [intros H; exfalso; apply (Hno _ H); intros t Ht; cbn [In] in Ht;
               intuition (subst; in_list)
              |intros _ _; split; [reflexivity|];
               intros H; apply (Hno _ H); intros t Ht; cbn [In] in Ht;
               intuition (subst; in_list)]).
  - symmetry in Hm. apply Bool.orb_false_iff in Hm. destruct Hm as [E1 E2].
    rewrite E1, E2. split.
    + intros _. split; reflexivity.
    + intros _ [H|H]; discriminate.
Qed.

Lemma classifyTags_health_guard_witness :
  primary (classifyTags (Some "保健センター（避難所）"%string)) = Some "shelter"%string
  /\ ~ In "health"%string (tags (classifyTags (Some "保健センター（避難所）"%string))).
Proof.
  destruct classifyTags_health_guard as [H _].
  apply (H (Some "保健センター（避難所）"%string)).
  - vm_compute. reflexivity.
  - left. vm_compute. reflexivity.
Defined.
